(** * Column reconciliation of the price-update spreadsheet importer

    A shallow embedding of the matching core of the importer page:
    [validateColumnMappings], [calculateSimilarity], [getKeywords],
    [findBestMatch] and [autoMapColumns], in the version with the
    three-pass [autoMapColumns], the denylist and the 0.5 threshold; then
    the matcher and the engine of the copy of the page kept in
    [src/app/page.tsx] (module [PageTsx]); then the definitions the
    statements need; then the properties and their proofs.

    Conventions of the embedding.
    - A JavaScript string is the sequence of its UTF-16 code units, and the
      development covers code units in U+0000..U+00FF: one [ascii] per code
      unit.  [toLowerCase], [\w] and [\s] are given for that whole range.
    - A JavaScript number holding a score is an element of a type [R] with
      the operations of the interface [Number]; the interface is inhabited
      by the exact rationals [Q] and by the binary64 floats [float], the
      numbers JavaScript computes with.  Lengths, indices and the cells of
      the edit-distance matrix are natural numbers.
    - A plain object used as a dictionary is the list of its own properties
      in enumeration order ([JsObject]); a [Set] of strings is the list of
      its elements in insertion order ([JsSet]).
    - [null] and [undefined] results are [None]. *)

From Stdlib Require Import String Ascii List Bool Arith NArith ZArith QArith Lia.
From Stdlib Require Import Sorting.Sorted Sorting.Permutation.
From Stdlib Require Import PrimFloat Uint63.
From Stdlib Require Import DecimalString Lqa.
From stdpp Require Import base list.

Local Open Scope string_scope.
Local Open Scope list_scope.
Local Open Scope nat_scope.

(** ** Strings *)

Module Js.

(** Code unit classes of the regular expressions used by the page. *)

Definition inRange (lo hi : N) (c : ascii) : bool :=
  let n := N_of_ascii c in (lo <=? n)%N && (n <=? hi)%N.

(** [String.prototype.toLowerCase] on one code unit: A-Z, and the upper-case
    letters of the Latin-1 block (U+00C0..U+00DE without the multiplication
    sign U+00D7), move up by 32. *)
Definition lowerChar (c : ascii) : ascii :=
  if inRange 65 90 c || (inRange 192 222 c && negb (N_of_ascii c =? 215)%N)
  then ascii_of_N (N_of_ascii c + 32)
  else c.

Fixpoint toLowerCase (s : string) : string :=
  match s with
  | EmptyString => EmptyString
  | String c r => String (lowerChar c) (toLowerCase r)
  end.

(** [[a-z0-9]] *)
Definition isLowerAlnum (c : ascii) : bool :=
  inRange 97 122 c || inRange 48 57 c.

(** [\w]: [[A-Za-z0-9_]] *)
Definition isWord (c : ascii) : bool :=
  inRange 65 90 c || inRange 97 122 c || inRange 48 57 c || (N_of_ascii c =? 95)%N.

(** [\s]: tab, line feed, vertical tab, form feed, carriage return, space
    and the no-break space. *)
Definition isSpace (c : ascii) : bool :=
  inRange 9 13 c || (N_of_ascii c =? 32)%N || (N_of_ascii c =? 160)%N.

(** [s.replace(/[^a-z0-9]/g, '')] *)
Fixpoint stripNonAlnum (s : string) : string :=
  match s with
  | EmptyString => EmptyString
  | String c r => if isLowerAlnum c then String c (stripNonAlnum r) else stripNonAlnum r
  end.

(** [s.replace(/[^\w\s]/g, ' ')] *)
Fixpoint blankNonWord (s : string) : string :=
  match s with
  | EmptyString => EmptyString
  | String c r => String (if isWord c || isSpace c then c else " "%char) (blankNonWord r)
  end.

Fixpoint startsWith (s p : string) {struct p} : bool :=
  match p with
  | EmptyString => true
  | String b p' =>
      match s with
      | EmptyString => false
      | String a s' => Ascii.eqb a b && startsWith s' p'
      end
  end.

(** [s.includes(sub)] *)
Fixpoint includes (s sub : string) : bool :=
  startsWith s sub ||
  match s with
  | EmptyString => false
  | String _ s' => includes s' sub
  end.

(** [s.split(' ')]: the pieces between single spaces, empty pieces kept. *)
Fixpoint splitSpace (s : string) : list string :=
  match s with
  | EmptyString => [EmptyString]
  | String c r =>
      if Ascii.eqb c " "%char then EmptyString :: splitSpace r
      else match splitSpace r with
           | [] => [String c EmptyString]
           | w :: ws => String c w :: ws
           end
  end.

(** [s.split(/\s+/)]: the pieces between maximal runs of white space; a
    leading or trailing run leaves an empty first or last piece.
    [afterSpace] tells that the code unit before [s] was white space. *)
Fixpoint splitSpaces (afterSpace : bool) (s : string) : list string :=
  match s with
  | EmptyString => [EmptyString]
  | String c r =>
      if isSpace c then
        if afterSpace then splitSpaces true r
        else EmptyString :: splitSpaces true r
      else match splitSpaces false r with
           | [] => [String c EmptyString]
           | w :: ws => String c w :: ws
           end
  end.

(** Truthiness of a string: every string but the empty one. *)
Definition truthy (s : string) : bool := negb (s =? "")%string.

(** [parts.join(sep)] *)
Fixpoint join (sep : string) (parts : list string) : string :=
  match parts with
  | [] => ""
  | [p] => p
  | p :: ps => (p ++ sep ++ join sep ps)%string
  end.

(** [xs.indexOf(v)], as a natural number when [v] occurs. *)
Fixpoint indexOf (xs : list string) (v : string) : option nat :=
  match xs with
  | [] => None
  | x :: r => if (x =? v)%string then Some 0 else option_map S (indexOf r v)
  end.

(** [xs.includes(v)] on an array of strings. *)
Definition arrayIncludes (xs : list string) (v : string) : bool :=
  existsb (fun x => (x =? v)%string) xs.

(** A plain object with string values: its own properties in enumeration
    order.  The keys written by the page are field keys, none of which is
    an array index or a name inherited from [Object.prototype]. *)
Definition JsObject : Type := list (string * string).

(** [o[k]], [None] for [undefined]. *)
Fixpoint get (o : JsObject) (k : string) : option string :=
  match o with
  | [] => None
  | (k', v) :: r => if (k' =? k)%string then Some v else get r k
  end.

(** [o[k] = v]: an existing property keeps its place, a new one goes last. *)
Fixpoint set (o : JsObject) (k v : string) : JsObject :=
  match o with
  | [] => [(k, v)]
  | (k', v') :: r => if (k' =? k)%string then (k', v) :: r else (k', v') :: set r k v
  end.

(** [Object.keys(o)] and [Object.values(o)] *)
Definition keys (o : JsObject) : list string := map fst o.
Definition values (o : JsObject) : list string := map snd o.

(** A [Set<string>]: its elements in insertion order, each once. *)
Definition JsSet : Type := list string.

(** [s.has(x)] *)
Definition has (s : JsSet) (x : string) : bool :=
  existsb (fun y => (y =? x)%string) s.

(** [s.add(x)] *)
Definition add (s : JsSet) (x : string) : JsSet :=
  if has s x then s else s ++ [x].

(** [!o[k]] *)
Definition unset (o : JsObject) (k : string) : bool :=
  match get o k with
  | Some v => negb (truthy v)
  | None => true
  end.

End Js.

(** ** Numbers *)

(** The operations the page applies to scores. *)
Class Number (R : Type) : Type := {
  ofNat : nat -> R;
  n0 : R;
  n1 : R;
  n0_2 : R;
  n0_5 : R;
  n0_7 : R;
  n0_8 : R;
  nadd : R -> R -> R;
  nsub : R -> R -> R;
  ndiv : R -> R -> R;
  nlt : R -> R -> bool;
  nle : R -> R -> bool
}.

(** [Math.max(a, b)] *)
Definition mathMax {R} `{Number R} (a b : R) : R := if nlt a b then b else a.

#[export] Instance Number_Q : Number Q := {
  ofNat n := inject_Z (Z.of_nat n);
  n0 := 0%Q;
  n1 := 1%Q;
  n0_2 := (2 # 10)%Q;
  n0_5 := (5 # 10)%Q;
  n0_7 := (7 # 10)%Q;
  n0_8 := (8 # 10)%Q;
  nadd := Qplus;
  nsub := Qminus;
  ndiv := Qdiv;
  nlt a b := negb (Qle_bool b a);
  nle := Qle_bool
}.

#[export] Instance Number_float : Number float := {
  ofNat n := PrimFloat.of_uint63 (Uint63.of_Z (Z.of_nat n));
  n0 := PrimFloat.zero;
  n1 := PrimFloat.one;
  n0_2 := PrimFloat.div (PrimFloat.of_uint63 2) (PrimFloat.of_uint63 10);
  n0_5 := PrimFloat.div (PrimFloat.of_uint63 5) (PrimFloat.of_uint63 10);
  n0_7 := PrimFloat.div (PrimFloat.of_uint63 7) (PrimFloat.of_uint63 10);
  n0_8 := PrimFloat.div (PrimFloat.of_uint63 8) (PrimFloat.of_uint63 10);
  nadd := PrimFloat.add;
  nsub := PrimFloat.sub;
  ndiv := PrimFloat.div;
  nlt := PrimFloat.ltb;
  nle := PrimFloat.leb
}.

(** ** The catalog *)

Record BusinessField : Type := { key : string; label : string }.

Definition BUSINESS_FIELDS : list BusinessField := [
  {| key := "exShowroomPrice"; label := "Ex Showroom price (excl Incentives/ Subsidy)" |};
  {| key := "emps"; label := "EMPS" |};
  {| key := "stateSubsidy"; label := "State Subsidy (Claimed after delivery)" |};
  {| key := "postGstDiscount"; label := "Post GST Discount" |};
  {| key := "p1Total"; label := "P1 Total (Excl Insurance and RTO but incl subsidys)" |};
  {| key := "insurance"; label := "Insurance" |};
  {| key := "municipalTax"; label := "Municipal tax (% tax on Ex showroom excl. subsidy) [130]" |};
  {| key := "rtoRoadSafety"; label := "RTO - Road safety tax / CESS." |};
  {| key := "smartCardFee"; label := "Smart card fee & RTO registration" |};
  {| key := "postalCharges"; label := "Postal Charges." |};
  {| key := "serviceCharge"; label := "Service Charge and Penality" |};
  {| key := "roadTax"; label := "Road tax (% tax on Ex showroom excl. subsidy) [130]" |};
  {| key := "effectiveOnRoadCore"; label := "Effective on road Price to customer - Core" |};
  {| key := "effectiveOnRoadPro"; label := "Effective on road Price to customer - Pro" |}
].

(** ** Validation *)

Record ValidationResult : Type := {
  errors : list string;
  warnings : list string;
  isValid : bool
}.

Definition quote : string := String "034"%char EmptyString.

Definition missingMessage (field : BusinessField) : string :=
  ("Missing mapping for: " ++ label field)%string.

Definition invalidMessage (field : BusinessField) (mappedColumn : string) : string :=
  ("Invalid column selected for " ++ label field ++ ": " ++ quote ++ mappedColumn
     ++ quote ++ " not found in Excel file")%string.

Definition duplicateMessage (duplicates : list string) : string :=
  ("Duplicate column mappings detected: " ++ Js.join ", " duplicates)%string.

(** The body of the [forEach] over the catalog: what one field pushes. *)
Definition fieldErrors (mappings : Js.JsObject) (columnNames : list string)
    (field : BusinessField) : list string :=
  match Js.get mappings (key field) with
  | Some mappedColumn =>
      if negb (Js.truthy mappedColumn) then [missingMessage field]
      else if negb (Js.arrayIncludes columnNames mappedColumn)
           then [invalidMessage field mappedColumn]
           else []
  | None => [missingMessage field]
  end.

(** [xs.filter((value, index) => xs.indexOf(value) !== index)] *)
Definition laterOccurrences (xs : list string) : list string :=
  map snd
    (List.filter (fun iv : nat * string =>
               negb (bool_decide (Js.indexOf xs (snd iv) = Some (fst iv))))
            (combine (seq 0 (length xs)) xs)).

(** [validateColumnMappings] with the catalog as an argument. *)
Definition validateAgainst (fields : list BusinessField)
    (mappings : Js.JsObject) (columnNames : list string) : ValidationResult :=
  let errors :=
    fold_left (fun errs field => errs ++ fieldErrors mappings columnNames field)
              fields [] in
  let mappedValues := List.filter (fun v => Js.truthy v) (Js.values mappings) in
  let duplicates := laterOccurrences mappedValues in
  let warnings :=
    if 0 <? length duplicates then [duplicateMessage duplicates] else [] in
  {| errors := errors; warnings := warnings; isValid := length errors =? 0 |}.

Definition validateColumnMappings (mappings : Js.JsObject)
    (columnNames : list string) : ValidationResult :=
  validateAgainst BUSINESS_FIELDS mappings columnNames.

(** ** Similarity *)

(** [str.toLowerCase().replace(/[^a-z0-9]/g, '')] *)
Definition normalize (s : string) : string :=
  Js.stripNonAlnum (Js.toLowerCase s).

(** The matrix is an array of rows; a cell is [None] while it still holds
    [null]. *)
Abbreviation Matrix := (list (list (option nat))).

Section Levenshtein.

(** The two normalized strings, as arrays of code units. *)
Variables s1 s2 : list ascii.

(** [length s2 + 1] rows of [length s1 + 1] cells. *)

Definition emptyMatrix : Matrix :=
  replicate (length s2 + 1) (replicate (length s1 + 1) None).

(** [matrix[j][i]] read as a number ([null] counts as 0 in arithmetic;
    every cell the loops read has been written before). *)
Definition cell (matrix : Matrix) (j i : nat) : nat :=
  match matrix !! j with
  | Some row => match row !! i with
                | Some (Some v) => v
                | _ => 0
                end
  | None => 0
  end.

(** [matrix[j][i] = v], for indices inside the matrix. *)
Definition setCell (matrix : Matrix) (j i v : nat) : Matrix :=
  alter (fun row => <[i := Some v]> row) j matrix.

(** [s1[i - 1] === s2[j - 1] ? 0 : 1] *)
Definition indicator (i j : nat) : nat :=
  match s1 !! (i - 1), s2 !! (j - 1) with
  | Some a, Some b => if Ascii.eqb a b then 0 else 1
  | None, None => 0
  | _, _ => 1
  end.

Definition firstRow (matrix : Matrix) : Matrix :=
  fold_left (fun m i => setCell m 0 i i) (seq 0 (length s1 + 1)) matrix.

Definition firstColumn (matrix : Matrix) : Matrix :=
  fold_left (fun m j => setCell m j 0 j) (seq 0 (length s2 + 1)) matrix.

Definition fillCell (j : nat) (m : Matrix) (i : nat) : Matrix :=
  setCell m j i
    (Nat.min (cell m j (i - 1) + 1)
       (Nat.min (cell m (j - 1) i + 1)
                (cell m (j - 1) (i - 1) + indicator i j))).

Definition fillRow (m : Matrix) (j : nat) : Matrix :=
  fold_left (fillCell j) (seq 1 (length s1)) m.

Definition fillMatrix (matrix : Matrix) : Matrix :=
  fold_left fillRow (seq 1 (length s2)) matrix.

(** [matrix[s2.length][s1.length]] after the three loops. *)
Definition distance : nat :=
  cell (fillMatrix (firstColumn (firstRow emptyMatrix))) (length s2) (length s1).

End Levenshtein.

Definition calculateSimilarity {R} `{Number R} (str1 str2 : string) : R :=
  let s1 := normalize str1 in
  let s2 := normalize str2 in
  if (s1 =? s2)%string then n1
  else if Js.includes s1 s2 || Js.includes s2 s1 then n0_8
  else
    let distance := distance (list_ascii_of_string s1) (list_ascii_of_string s2) in
    let maxLength := Nat.max (String.length s1) (String.length s2) in
    if maxLength =? 0 then n1
    else nsub n1 (ndiv (ofNat distance) (ofNat maxLength)).

(** ** Keywords *)

Definition getKeywords (label : string) : list string :=
  List.filter (fun word => 2 <? String.length word)
         (Js.splitSpaces false (Js.blankNonWord (Js.toLowerCase label))).

(** ** The field matcher *)

(** [columnLower === fieldKey || columnLower === fieldLabel], with
    [fieldKey] and [fieldLabel] the lower-cased key and label. *)
Definition exactMatch (field : BusinessField) (column : string) : bool :=
  let fieldKey := Js.toLowerCase (key field) in
  let fieldLabel := Js.toLowerCase (label field) in
  let columnLower := Js.toLowerCase column in
  (columnLower =? fieldKey)%string || (columnLower =? fieldLabel)%string.

(** The comparison after [replace(/[^a-z0-9]/g, '')] on both sides. *)
Definition cleanedMatch (field : BusinessField) (column : string) : bool :=
  let fieldKey := Js.toLowerCase (key field) in
  let fieldLabel := Js.toLowerCase (label field) in
  let columnLower := Js.toLowerCase column in
  (Js.stripNonAlnum columnLower =? Js.stripNonAlnum fieldKey)%string
  || (Js.stripNonAlnum columnLower =? Js.stripNonAlnum fieldLabel)%string.

(** The test that makes the fuzzy loop skip a column. *)
Definition unrelated (column : string) : bool :=
  let columnLower := Js.toLowerCase column in
  Js.includes columnLower "product" || Js.includes columnLower "name"
  || Js.includes columnLower "model" || Js.includes columnLower "code"
  || Js.includes columnLower "category" || Js.includes columnLower "region"
  || Js.includes columnLower "status".

Section Matcher.

Context {R : Type} `{Number R}.

Definition threshold : R := n0_5.

(** The inner [forEach] over the column keywords, then the containment
    test, for one field keyword. *)
Definition keywordStep (columnLower : string) (columnKeywords : list string)
    (keywordScore : R) (fieldKeyword : string) : R :=
  let keywordScore :=
    fold_left (fun ks colKeyword =>
                 mathMax ks (calculateSimilarity fieldKeyword colKeyword))
              columnKeywords keywordScore in
  if Js.includes columnLower fieldKeyword then mathMax keywordScore n0_7
  else keywordScore.

(** One [if (fieldKey.includes(t) && columnLower.includes(t)) score += 0.2]. *)
Definition boost (fieldKey columnLower : string) (score : R) (token : string) : R :=
  if Js.includes fieldKey token && Js.includes columnLower token
  then nadd score n0_2 else score.

Definition boostTokens : list string :=
  ["price"; "tax"; "insurance"; "subsidy"; "discount"; "road"; "rto"].

(** The score before the boosts, in the branch where neither text
    contains the other. *)
Definition baseScore (field : BusinessField) (column : string) : R :=
  let fieldKeywords := getKeywords (label field) in
  let fieldKey := Js.toLowerCase (key field) in
  let fieldLabel := Js.toLowerCase (label field) in
  let columnLower := Js.toLowerCase column in
  let columnKeywords := getKeywords column in
  let score := mathMax n0 (calculateSimilarity fieldKey columnLower) in
  let score := mathMax score (calculateSimilarity fieldLabel column) in
  let keywordScore :=
    fold_left (keywordStep columnLower columnKeywords) fieldKeywords n0 in
  mathMax score keywordScore.

(** The value of [score] when the fuzzy loop reaches its final
    comparison, for a column that is not skipped. *)
Definition fuzzyScore (field : BusinessField) (column : string) : R :=
  let fieldKey := Js.toLowerCase (key field) in
  let fieldLabel := Js.toLowerCase (label field) in
  let columnLower := Js.toLowerCase column in
  if Js.includes fieldKey columnLower || Js.includes columnLower fieldKey
     || Js.includes fieldLabel columnLower || Js.includes columnLower fieldLabel
  then n0_8
  else
    let score := baseScore field column in
    if nlt score n0_8
    then fold_left (boost fieldKey columnLower) boostTokens score
    else score.

(** The body of the fuzzy [forEach], on the pair [(bestMatch, bestScore)]. *)
Definition fuzzyStep (field : BusinessField) (best : string * R)
    (column : string) : string * R :=
  if unrelated column then best
  else
    let score := fuzzyScore field column in
    if nlt (snd best) score && nle threshold score then (column, score)
    else best.

(** The second loop of [findBestMatch] and its [bestMatch || null]. *)
Definition fuzzyPass (field : BusinessField) (columnNames : list string)
    : option string :=
  let bestMatch := fst (fold_left (fuzzyStep field) columnNames ("", n0)) in
  if Js.truthy bestMatch then Some bestMatch else None.

(** The first loop of [findBestMatch]: the first column that passes one
    of its two tests is returned at once. *)
Definition exactPass (field : BusinessField) (columnNames : list string)
    : option string :=
  find (fun column => exactMatch field column || cleanedMatch field column)
       columnNames.

Definition findBestMatch (field : BusinessField) (columnNames : list string)
    : option string :=
  match exactPass field columnNames with
  | Some column => Some column
  | None => fuzzyPass field columnNames
  end.

(** ** The reconciliation engine *)

Record State : Type := {
  mappings : Js.JsObject;
  usedColumns : Js.JsSet
}.

Definition initial : State := {| mappings := []; usedColumns := [] |}.

(** [mappings[field.key] = column; usedColumns.add(column)] *)
Definition claim (st : State) (field : BusinessField) (column : string) : State :=
  {| mappings := Js.set (mappings st) (key field) column;
     usedColumns := Js.add (usedColumns st) column |}.

(** Body of the first [forEach]. *)
Definition exactStep (columnNames : list string) (st : State)
    (field : BusinessField) : State :=
  match find (exactMatch field) columnNames with
  | Some exactMatch =>
      if Js.truthy exactMatch && negb (Js.has (usedColumns st) exactMatch)
      then claim st field exactMatch
      else st
  | None => st
  end.

(** Body of the second [forEach]. *)
Definition cleanedStep (columnNames : list string) (st : State)
    (field : BusinessField) : State :=
  match find (fun col => if Js.has (usedColumns st) col then false
                         else cleanedMatch field col) columnNames with
  | Some cleanedExactMatch =>
      if Js.truthy cleanedExactMatch then claim st field cleanedExactMatch
      else st
  | None => st
  end.

(** [BUSINESS_FIELDS.filter(field => !mappings[field.key])] *)
Definition unmapped (fields : list BusinessField) (st : State)
    : list BusinessField :=
  List.filter (fun field => Js.unset (mappings st) (key field)) fields.

(** [label.split(' ').length] *)
Definition specificity (field : BusinessField) : nat :=
  length (Js.splitSpace (label field)).

(** [fields.sort((a, b) => bSpecific - aSpecific)]: [Array.prototype.sort]
    is stable, so the result is the one of a stable insertion sort in
    descending order of [specificity]: a field goes in front of the
    later fields that are not more specific than it is. *)
Fixpoint insertField (a : BusinessField) (sorted : list BusinessField)
    : list BusinessField :=
  match sorted with
  | [] => [a]
  | b :: rest =>
      if specificity b <=? specificity a then a :: b :: rest
      else b :: insertField a rest
  end.

Definition sortFields (fields : list BusinessField) : list BusinessField :=
  fold_right insertField [] fields.

(** Body of the third [forEach]. *)
Definition similarityStep (columnNames : list string) (st : State)
    (field : BusinessField) : State :=
  let availableColumns :=
    List.filter (fun col => negb (Js.has (usedColumns st) col)) columnNames in
  match findBestMatch field availableColumns with
  | Some bestMatch =>
      if Js.truthy bestMatch then claim st field bestMatch else st
  | None => st
  end.

Definition firstPass (fields : list BusinessField) (columnNames : list string)
    : State :=
  fold_left (exactStep columnNames) fields initial.

Definition secondPass (fields : list BusinessField) (columnNames : list string)
    : State :=
  let st := firstPass fields columnNames in
  let remainingFields := unmapped fields st in
  fold_left (cleanedStep columnNames) remainingFields st.

(** The fields the third pass visits, in the order it visits them. *)
Definition sortedFields (fields : list BusinessField) (columnNames : list string)
    : list BusinessField :=
  let stillUnmappedFields := unmapped fields (secondPass fields columnNames) in
  sortFields stillUnmappedFields.

Definition thirdPass (fields : list BusinessField) (columnNames : list string)
    : State :=
  fold_left (similarityStep columnNames) (sortedFields fields columnNames)
            (secondPass fields columnNames).

(** [autoMapColumns] with the catalog as an argument.  The keys of a
    catalog are ordinary property names, as those of [BUSINESS_FIELDS]
    are. *)
Definition reconcile (fields : list BusinessField) (columnNames : list string)
    : Js.JsObject :=
  mappings (thirdPass fields columnNames).

Definition autoMapColumns (columnNames : list string) : Js.JsObject :=
  reconcile BUSINESS_FIELDS columnNames.

End Matcher.

(** ** The copy of the page in [src/app/page.tsx]

    The copy holds another version of the matcher and of the engine: one
    scoring loop in which the two exact tests give the scores 1 and 0.95,
    no skipped columns, the threshold 0.3, and an engine of two passes.
    Its [calculateSimilarity], [getKeywords], [validateColumnMappings] and
    its sort are the ones above. *)

Module PageTsx.

Section Matcher.

Context {R : Type} `{Number R}.

Definition threshold : R := ndiv (ofNat 3) (ofNat 10).

(** The value of [score] at the final comparison of the loop. *)
Definition score (field : BusinessField) (column : string) : R :=
  if exactMatch field column then n1
  else if cleanedMatch field column then ndiv (ofNat 95) (ofNat 100)
  else fuzzyScore field column.

Definition scoreStep (field : BusinessField) (best : string * R)
    (column : string) : string * R :=
  let score := score field column in
  if nlt (snd best) score && nle threshold score then (column, score)
  else best.

Definition findBestMatch (field : BusinessField) (columnNames : list string)
    : option string :=
  let bestMatch := fst (fold_left (scoreStep field) columnNames ("", n0)) in
  if Js.truthy bestMatch then Some bestMatch else None.

(** Body of the first [forEach]: both exact tests in one [find]. *)
Definition exactStep (columnNames : list string) (st : State)
    (field : BusinessField) : State :=
  match find (fun col => exactMatch field col || cleanedMatch field col)
             columnNames with
  | Some exactMatch =>
      if Js.truthy exactMatch && negb (Js.has (usedColumns st) exactMatch)
      then claim st field exactMatch
      else st
  | None => st
  end.

(** Body of the second [forEach]. *)
Definition similarityStep (columnNames : list string) (st : State)
    (field : BusinessField) : State :=
  let availableColumns :=
    List.filter (fun col => negb (Js.has (usedColumns st) col)) columnNames in
  match findBestMatch field availableColumns with
  | Some bestMatch =>
      if Js.truthy bestMatch then claim st field bestMatch else st
  | None => st
  end.

Definition firstPass (fields : list BusinessField) (columnNames : list string)
    : State :=
  fold_left (exactStep columnNames) fields initial.

Definition sortedFields (fields : list BusinessField) (columnNames : list string)
    : list BusinessField :=
  let unmappedFields := unmapped fields (firstPass fields columnNames) in
  sortFields unmappedFields.

Definition reconcile (fields : list BusinessField) (columnNames : list string)
    : Js.JsObject :=
  mappings (fold_left (similarityStep columnNames)
                      (sortedFields fields columnNames)
                      (firstPass fields columnNames)).

Definition autoMapColumns (columnNames : list string) : Js.JsObject :=
  reconcile BUSINESS_FIELDS columnNames.

End Matcher.

End PageTsx.

(** ** More of the page: text helpers *)

Module JsText.

(** The first [n] code units of [s], and [s] without them. *)
Fixpoint take (n : nat) (s : string) : string :=
  match n, s with
  | S n', String c r => String c (take n' r)
  | _, _ => EmptyString
  end.

Fixpoint drop (n : nat) (s : string) : string :=
  match n, s with
  | S n', String _ r => drop n' r
  | _, _ => s
  end.

(** [s.substring(start, stop)]: both indices are clamped to the length
    and exchanged when they are out of order. *)
Definition substring (s : string) (start stop : nat) : string :=
  let a := Nat.min start (String.length s) in
  let b := Nat.min stop (String.length s) in
  take (Nat.max a b - Nat.min a b) (drop (Nat.min a b) s).

(** [s.trimStart()], [s.trimEnd()] and [s.trim()]: the white space removed
    is the one of [\s]. *)
Fixpoint trimStart (s : string) : string :=
  match s with
  | EmptyString => EmptyString
  | String c r => if Js.isSpace c then trimStart r else s
  end.

Fixpoint trimEnd (s : string) : string :=
  match s with
  | EmptyString => EmptyString
  | String c r =>
      match trimEnd r with
      | EmptyString => if Js.isSpace c then EmptyString else String c EmptyString
      | r' => String c r'
      end
  end.

Definition trim (s : string) : string := trimEnd (trimStart s).

(** The text of a non-negative integer inside a template literal. *)
Definition decimal (n : nat) : string :=
  NilEmpty.string_of_uint (Nat.to_uint n).

(** [s.delete(x)] on a [Set] of strings. *)
Definition delete (s : Js.JsSet) (x : string) : Js.JsSet :=
  List.filter (fun y => negb (y =? x)%string) s.

End JsText.

(** ** The searchable drop-down *)

(** The state of one [SearchableDropdown]. *)
Record Dropdown : Type := { isOpen : bool; searchTerm : string }.

(** [options.filter(option =>
      option.toLowerCase().includes(searchTerm.toLowerCase()))] *)
Definition filteredOptions (options : list string) (term : string) : list string :=
  List.filter (fun option =>
                 Js.includes (Js.toLowerCase option) (Js.toLowerCase term))
              options.

(** [handleInputChange]: the new state and the value passed to [onChange]. *)
Definition handleInputChange (options : list string) (inputValue : string)
    : Dropdown * string :=
  let st := {| isOpen := true; searchTerm := inputValue |} in
  match find (fun option =>
                (Js.toLowerCase option =? Js.toLowerCase inputValue)%string)
             options with
  | Some exactMatch =>
      if Js.truthy exactMatch then (st, exactMatch) else (st, inputValue)
  | None => (st, inputValue)
  end.

(** [handleOptionClick]: the new state and the value passed to [onChange]. *)
Definition handleOptionClick (option : string) : Dropdown * string :=
  ({| isOpen := false; searchTerm := "" |}, option).

Definition handleInputFocus : Dropdown :=
  {| isOpen := true; searchTerm := "" |}.

(** [searchTerm || value || ''] *)
Definition displayValue (st : Dropdown) (value : string) : string :=
  if Js.truthy (searchTerm st) then searchTerm st
  else if Js.truthy value then value else "".

(** ** Manual mapping and preview *)

(** [handleColumnMapping]: the next [columnMappings] (the spread of the
    previous object with [field] set) and the next [autoMappedFields]. *)
Definition handleColumnMapping (columnMappings : Js.JsObject)
    (autoMappedFields : Js.JsSet) (field columnName : string)
    : Js.JsObject * Js.JsSet :=
  (Js.set columnMappings field columnName,
   if Js.has autoMappedFields field
   then JsText.delete autoMappedFields field
   else autoMappedFields).

(** The value the drop-down of a field receives: [mappedColumn || '']. *)
Definition dropdownValue (columnMappings : Js.JsObject) (field : string) : string :=
  match Js.get columnMappings field with
  | Some mappedColumn => if Js.truthy mappedColumn then mappedColumn else ""
  | None => ""
  end.

(** What the preview shows for one trimmed value. *)
Definition shorten (value : string) : string :=
  if 50 <? String.length value
  then (JsText.substring value 0 47 ++ "...")%string
  else value.

(** The loop of [getPreviewData] over the data rows: the first row whose
    cell in the column is not empty and not blank. *)
Fixpoint firstValue (columnIndex : nat) (rows : list (list string))
    : option string :=
  match rows with
  | [] => None
  | row :: rest =>
      match nth_error row columnIndex with
      | Some cellValue =>
          if Js.truthy cellValue then
            let value := JsText.trim cellValue in
            if Js.truthy value then Some (shorten value)
            else firstValue columnIndex rest
          else firstValue columnIndex rest
      | None => firstValue columnIndex rest
      end
  end.

(** [getPreviewData]; the rows of [worksheetData] hold the display texts
    built by [processExcelFile], the header row first. *)
Definition getPreviewData (columnNames : list string)
    (worksheetData : list (list string)) (columnName : string) : string :=
  if negb (Js.truthy columnName) || (length worksheetData =? 0)
     || (length columnNames =? 0)
  then ""
  else
    match Js.indexOf columnNames columnName with
    | None => "Column not found"
    | Some columnIndex =>
        if length columnNames <=? columnIndex then "Invalid column index"
        else
          match firstValue columnIndex (tl worksheetData) with
          | Some value => value
          | None =>
              match worksheetData with
              | headerRow :: _ =>
                  match nth_error headerRow columnIndex with
                  | Some headerValue =>
                      if Js.truthy headerValue
                      then ("[Header: " ++ headerValue ++ "]")%string
                      else "No data"
                  | None => "No data"
                  end
              | [] => "No data"
              end
          end
    end.

(** ** Reading the header row *)

(** The value of a header cell as [processExcelFile] tells them apart:
    none, an object with a [text], an object with [richText] runs, and any
    other value with the text its [toString] gives. *)
Inductive CellValue : Type :=
  | CellNone
  | CellText (text : string)
  | CellRichText (runs : list string)
  | CellOther (shown : string).

Definition headerText (cellValue : CellValue) : string :=
  match cellValue with
  | CellNone => ""
  | CellText text => text
  | CellRichText runs => Js.join "" runs
  | CellOther shown => shown
  end.

(** The header row as the loop sees it: the two counts the row reports
    and the value of the cell at each column number. *)
Record HeaderRow : Type := {
  actualCellCount : nat;
  cellCount : nat;
  getCell : nat -> CellValue
}.

(** [headerRow.actualCellCount || headerRow.cellCount] *)
Definition maxCol (headerRow : HeaderRow) : nat :=
  if actualCellCount headerRow =? 0 then cellCount headerRow
  else actualCellCount headerRow.

(** The body of the loop: [headerText || `Column ${colNum}`]. *)
Definition headerAt (headerRow : HeaderRow) (colNum : nat) : string :=
  let headerText := headerText (getCell headerRow colNum) in
  if Js.truthy headerText then headerText
  else ("Column " ++ JsText.decimal colNum)%string.

(** [for (let colNum = 1; colNum <= maxCol; colNum++)] *)
Definition readHeaders (headerRow : HeaderRow) : list string :=
  map (headerAt headerRow) (seq 1 (maxCol headerRow)).

(** The effect that runs after every change of the mappings or of the
    columns: validation is redone when there is a column. *)
Definition revalidate (previous : ValidationResult)
    (columnMappings : Js.JsObject) (columnNames : list string)
    : ValidationResult :=
  if 0 <? length columnNames
  then validateColumnMappings columnMappings columnNames
  else previous.

(** ** The review helpers of [src/app/page.tsx] *)

Module PageTsxReview.

Record Summary : Type := {
  validMappings : list string;
  invalidMappings : list string;
  missingMappings : list string;
  totalRequired : nat;
  isValid : bool
}.

Definition requiredFields : list string := [
  "exShowroomPrice"; "emps"; "stateSubsidy"; "postGstDiscount"; "p1Total";
  "insurance"; "municipalTax"; "rtoRoadSafety"; "smartCardFee";
  "postalCharges"; "serviceCharge"; "roadTax"; "effectiveOnRoadCore";
  "effectiveOnRoadPro"
].

(** Body of the [forEach]: the three arrays after one more field. *)
Definition sortField (columnMappings : Js.JsObject) (columnNames : list string)
    (lists : list string * list string * list string) (field : string)
    : list string * list string * list string :=
  let '(valid, invalid, missing) := lists in
  match Js.get columnMappings field with
  | Some mappedColumn =>
      if negb (Js.truthy mappedColumn) then (valid, invalid, missing ++ [field])
      else if Js.arrayIncludes columnNames mappedColumn
           then (valid ++ [field], invalid, missing)
           else (valid, invalid ++ [field], missing)
  | None => (valid, invalid, missing ++ [field])
  end.

Definition validateMappings (columnMappings : Js.JsObject)
    (columnNames : list string) : Summary :=
  let '(valid, invalid, missing) :=
    fold_left (sortField columnMappings columnNames) requiredFields ([], [], []) in
  {| validMappings := valid;
     invalidMappings := invalid;
     missingMappings := missing;
     totalRequired := length requiredFields;
     isValid := (length invalid =? 0) && (length missing =? 0) |}.

(** [getFieldLabel] *)
Definition getFieldLabel (fieldKey : string) : string :=
  match find (fun f => (key f =? fieldKey)%string) BUSINESS_FIELDS with
  | Some field => label field
  | None => fieldKey
  end.

(** [getPreviewData] of this copy: the cell of the first data row. *)
Definition getPreviewData (columnNames : list string)
    (worksheetData : list (list string)) (columnName : string) : string :=
  if negb (Js.truthy columnName) || (length worksheetData =? 0) then ""
  else
    match Js.indexOf columnNames columnName, nth_error worksheetData 1 with
    | Some columnIndex, Some row =>
        match nth_error row columnIndex with
        | Some cellValue => if Js.truthy cellValue then cellValue else ""
        | None => ""
        end
    | _, _ => ""
    end.

End PageTsxReview.

(** * Definitions used in the statements *)

(** ** Sample inputs *)

Definition stateSubsidy : BusinessField :=
  {| key := "stateSubsidy"; label := "State Subsidy (Claimed after delivery)" |}.

Definition modelCode : BusinessField :=
  {| key := "modelCode"; label := "Model code" |}.

Definition insurance : BusinessField :=
  {| key := "insurance"; label := "Insurance" |}.

Definition roadTax : BusinessField :=
  {| key := "roadTax";
     label := "Road tax (% tax on Ex showroom excl. subsidy) [130]" |}.

Definition sampleMappings : Js.JsObject :=
  [("emps", "A"); ("insurance", "A"); ("roadTax", "Z")].

Definition identityMappings : Js.JsObject :=
  map (fun field => (key field, key field)) BUSINESS_FIELDS.

(** ** The matcher and the engine *)

Definition denylist : list string :=
  ["product"; "name"; "model"; "code"; "category"; "region"; "status"].

Section Accepted.

Context {R : Type} `{Number R}.

(** What entitles a field to a column: one of the two exact tests, or a
    fuzzy score that reaches the threshold on a column the fuzzy loop
    does not skip. *)
Definition accepted (field : BusinessField) (column : string) : Prop :=
  exactMatch field column = true
  \/ cleanedMatch field column = true
  \/ (unrelated column = false
      /\ nle threshold (fuzzyScore field column) = true).

(** The pair carried by the fuzzy loop: no column yet, or a column of the
    pool that is not skipped and whose score reaches the threshold. *)
Definition goodBest (field : BusinessField) (columnNames : list string)
    (best : string * R) : Prop :=
  fst best = ""
  \/ (In (fst best) columnNames
      /\ unrelated (fst best) = false
      /\ nle threshold (fuzzyScore field (fst best)) = true).

End Accepted.

Section Invariant.

(** [ok field column]: what entitles [field] to [column]. *)
Variable ok : BusinessField -> string -> Prop.
Variable fields : list BusinessField.
Variable columnNames : list string.

(** What the engine keeps true of its state from pass to pass. *)
Record wellFormed (st : State) : Prop := {
  wf_keys : List.NoDup (Js.keys (mappings st));
  wf_values : List.NoDup (Js.values (mappings st));
  wf_used : forall k c, In (k, c) (mappings st) -> In c (usedColumns st);
  wf_columns : forall k c, In (k, c) (mappings st) ->
                           In c columnNames /\ c <> "";
  wf_fields : forall k c, In (k, c) (mappings st) ->
                          exists field, In field fields /\ key field = k
                                        /\ ok field c
}.

End Invariant.

(** The tokens of a label: its maximal runs of code units that are not
    white space. *)
Definition whitespaceTokens (s : string) : list string :=
  List.filter (fun w => negb (w =? "")%string) (Js.splitSpaces false s).

Definition tokenCount (field : BusinessField) : nat :=
  length (whitespaceTokens (label field)).

(** [a] may come before [b] in the third pass. *)
Definition moreSpecific (a b : BusinessField) : Prop :=
  specificity b <= specificity a.

(** The two normalized texts a column is compared with. *)
Definition cleanedForms (field : BusinessField) : list string :=
  [normalize (key field); normalize (label field)].

(** The column the first two passes pick for a field: the first column
    equal to its key or label case-insensitively and, when there is none,
    the first column equal to one of them after normalization. *)
Definition firstChoice (field : BusinessField) (columnNames : list string)
    : option string :=
  match find (exactMatch field) columnNames with
  | Some column => Some column
  | None => find (cleanedMatch field) columnNames
  end.

Definition sameField (f g : BusinessField) : bool :=
  (key f =? key g)%string && (label f =? label g)%string.

(** No normalized key or label is empty, and no two fields of the catalog
    share one. *)
Definition separatedCatalog (fields : list BusinessField) : bool :=
  forallb (fun f =>
     forallb (fun form => Js.truthy form) (cleanedForms f)
     && forallb (fun g =>
          sameField f g
          || forallb (fun form => negb (Js.arrayIncludes (cleanedForms g) form))
                     (cleanedForms f))
        fields)
    fields.

Fixpoint distinct (xs : list string) : bool :=
  match xs with
  | [] => true
  | x :: r => negb (Js.arrayIncludes r x) && distinct r
  end.

Section CleanedOnly.

Variable fields : list BusinessField.

(** During the first two passes every claimed column matches, after
    normalization, a field that is mapped. *)
Definition cleanedOnly (st : State) : Prop :=
  forall c, In c (usedColumns st) ->
            exists g, In g fields /\ cleanedMatch g c = true
                      /\ exists c', Js.get (mappings st) (key g) = Some c'.

End CleanedOnly.

(** ** Validation *)

Section Failures.

Variable mappings : Js.JsObject.
Variable columnNames : list string.

(** A field whose lookup is [undefined] or the empty string. *)
Definition isMissing (field : BusinessField) : bool :=
  Js.unset mappings (key field).

(** A field bound to a column that is not in the column list. *)
Definition isInvalid (field : BusinessField) : bool :=
  match Js.get mappings (key field) with
  | Some column => Js.truthy column && negb (Js.arrayIncludes columnNames column)
  | None => false
  end.

End Failures.

(** The truthy values of an object, in enumeration order. *)
Definition mappedValues (mappings : Js.JsObject) : list string :=
  List.filter (fun v => Js.truthy v) (Js.values mappings).

(** Two different keys hold the same non-empty column. *)
Definition sharedColumn (mappings : Js.JsObject) : Prop :=
  exists k1 k2 column,
    k1 <> k2 /\ column <> ""
    /\ Js.get mappings k1 = Some column /\ Js.get mappings k2 = Some column.

(** ** Edit distance and similarity *)

(** The Levenshtein distance of two sequences of code units, by the
    textbook recursion: an insertion, a deletion and a substitution cost 1
    each. *)
Fixpoint levenshtein (a : list ascii) : list ascii -> nat :=
  fix against (b : list ascii) : nat :=
    match a, b with
    | [], _ => length b
    | _, [] => length a
    | x :: a', y :: b' =>
        Nat.min (levenshtein a' b + 1)
          (Nat.min (against b' + 1)
                   (levenshtein a' b' + (if Ascii.eqb x y then 0 else 1)))
    end.

Section Prefixes.

Variables s1 s2 : list ascii.

(** The distance between the first [i] code units of [s1] and the first
    [j] code units of [s2]: what the cell in row [j], column [i] is for. *)
Definition prefixDistance (i j : nat) : nat :=
  levenshtein (take i s1) (take j s2).

Definition wellShaped (m : Matrix) : Prop :=
  length m = length s2 + 1
  /\ forall j row, m !! j = Some row -> length row = length s1 + 1.

(** The cells selected by [P] hold their prefix distance. *)
Definition known (m : Matrix) (P : nat -> nat -> Prop) : Prop :=
  wellShaped m
  /\ forall j i, j <= length s2 -> i <= length s1 -> P j i ->
                 cell m j i = prefixDistance i j.

End Prefixes.

(** [sub] occurs in [s] as a run of consecutive code units. *)
Definition isSubstring (sub s : string) : Prop :=
  exists before after, s = (before ++ sub ++ after)%string.

(** Equalities between nested minima with the same leaves. *)
Ltac min_le_leaf :=
  match goal with
  | |- Nat.min ?a ?b <= ?c =>
      first [ apply (Nat.le_trans _ a _ (Nat.le_min_l a b)); min_le_leaf
            | apply (Nat.le_trans _ b _ (Nat.le_min_r a b)); min_le_leaf ]
  | |- _ => lia
  end.

Ltac min_eq :=
  repeat rewrite <- Nat.add_min_distr_r;
  apply Nat.le_antisymm; repeat apply Nat.min_glb; min_le_leaf.


(** ** Definitions for the further properties *)

(** Every code unit of [s] passes the test [p]. *)
Fixpoint allChars (p : ascii -> bool) (s : string) : bool :=
  match s with
  | EmptyString => true
  | String c r => p c && allChars p r
  end.

(** [[a-z0-9_]]: what a word character is after lower-casing. *)
Definition isKeywordChar (c : ascii) : bool :=
  Js.isLowerAlnum c || (N_of_ascii c =? 95)%N.

Section Ordered.

Context {R : Type} `{Number R}.

(** On the numbers of a list the comparisons of the number type are those
    of a total order: [<=] is the negation of the converse [<], and [<] is
    asymmetric and cotransitive.  Exact rationals are so on every list,
    binary64 numbers on every list that holds no NaN. *)
Definition ordered (numbers : list R) : Prop :=
  (forall a b, In a numbers -> In b numbers -> nle a b = negb (nlt b a))
  /\ (forall a b, In a numbers -> In b numbers ->
                  nlt a b = true -> nlt b a = false)
  /\ (forall a b c, In a numbers -> In b numbers -> In c numbers ->
                    nlt a b = true -> nlt a c = true \/ nlt c b = true).

(** The same, decided by going through the list. *)
Definition orderedb (numbers : list R) : bool :=
  forallb (fun a =>
    forallb (fun b =>
      Bool.eqb (nle a b) (negb (nlt b a))
      && (negb (nlt a b) || negb (nlt b a))
      && forallb (fun c => negb (nlt a b) || nlt a c || nlt c b) numbers)
      numbers)
    numbers.

(** The numbers the fuzzy loop compares on a pool: the threshold, the
    initial [bestScore] and the scores of the columns. *)
Definition compared (field : BusinessField) (pool : list string) : list R :=
  threshold :: n0 :: map (fuzzyScore field) pool.

(** The pair carried by the fuzzy loop after the columns [seen]: nothing
    yet, every column seen being skipped or below the threshold; or a
    column that is not skipped, reaches the threshold, beats every scored
    column before it and is not beaten after it. *)
Definition bestSoFar (field : BusinessField) (seen : list string)
    (best : string * R) : Prop :=
  (fst best = "" /\ snd best = n0
   /\ forall c, In c seen -> unrelated c = false ->
                nle threshold (fuzzyScore field c) = false)
  \/ (exists before after,
        seen = before ++ fst best :: after
        /\ fst best <> ""
        /\ snd best = fuzzyScore field (fst best)
        /\ unrelated (fst best) = false
        /\ nle threshold (fuzzyScore field (fst best)) = true
        /\ (forall c, In c before -> unrelated c = false ->
                      nlt (fuzzyScore field c) (fuzzyScore field (fst best)) = true)
        /\ (forall c, In c after -> unrelated c = false ->
                      nlt (fuzzyScore field (fst best)) (fuzzyScore field c) = false)).

End Ordered.

(** A field whose key and label share a boost token with no header that
    equals them: used to compare the two number types on a tie. *)
Definition taxField : BusinessField := {| key := "ataxb"; label := "Zz" |}.

(** Every column of the set of used columns is a value of the mapping. *)
Definition usedAreMapped (st : State) : Prop :=
  forall column, In column (usedColumns st) ->
                 In column (Js.values (mappings st)).

(** The object holds an existing column under the key, and the object
    holds a column that does not exist under the key. *)
Definition keyValid (mappings : Js.JsObject) (columnNames : list string)
    (k : string) : bool :=
  match Js.get mappings k with
  | Some column => Js.truthy column && Js.arrayIncludes columnNames column
  | None => false
  end.

Definition keyInvalid (mappings : Js.JsObject) (columnNames : list string)
    (k : string) : bool :=
  match Js.get mappings k with
  | Some column => Js.truthy column && negb (Js.arrayIncludes columnNames column)
  | None => false
  end.

(** The column holds nothing to preview in any of the rows. *)
Definition blankColumn (columnIndex : nat) (rows : list (list string)) : Prop :=
  forall row cellValue,
    In row rows -> nth_error row columnIndex = Some cellValue ->
    JsText.trim cellValue = "".

(** ** Definitions for the two copies of the page *)

Definition municipalTax : BusinessField :=
  {| key := "municipalTax";
     label := "Municipal tax (% tax on Ex showroom excl. subsidy) [130]" |}.

Definition p1Total : BusinessField :=
  {| key := "p1Total";
     label := "P1 Total (Excl Insurance and RTO but incl subsidys)" |}.

Section PageAccepted.

Context {R : Type} `{Number R}.

(** What entitles a field to a column in [src/app/page.tsx]: the
    cleaned-exact test, or a fuzzy score that reaches its threshold. *)
Definition pageAccepted (field : BusinessField) (column : string) : Prop :=
  cleanedMatch field column = true
  \/ nle PageTsx.threshold (fuzzyScore field column) = true.

End PageAccepted.

(** The field holds no column in the state. *)
Definition withoutColumn (st : State) (field : BusinessField) : bool :=
  match Js.get (mappings st) (key field) with
  | Some _ => false
  | None => true
  end.

(** The columns that no field holds in the state. *)
Definition unclaimed (st : State) (columnNames : list string) : list string :=
  List.filter (fun col => negb (Js.arrayIncludes (Js.values (mappings st)) col))
              columnNames.

(** The body both copies give the loop of their fuzzy pass, with the
    matcher of the copy. *)
Definition offerStep (matcher : BusinessField -> list string -> option string)
    (columnNames : list string) (st : State) (field : BusinessField) : State :=
  let availableColumns :=
    List.filter (fun col => negb (Js.has (usedColumns st) col)) columnNames in
  match matcher field availableColumns with
  | Some bestMatch =>
      if Js.truthy bestMatch then claim st field bestMatch else st
  | None => st
  end.

(** The first column, in column order, whose normalized text is one of the
    normalized forms of the field. *)
Definition firstCleaned (field : BusinessField) (columnNames : list string)
    (chosen : string) : Prop :=
  exists before after,
    columnNames = before ++ chosen :: after
    /\ In (normalize chosen) (cleanedForms field)
    /\ forall c, In c before -> ~ In (normalize c) (cleanedForms field).

(** * Properties *)

(** ** Objects and arrays *)

Lemma truthy_nonempty (s : string) : Js.truthy s = true <-> s <> "".
Proof.
  unfold Js.truthy. destruct (String.eqb_spec s ""); simpl; split; congruence.
Qed.

Lemma arrayIncludes_In (xs : list string) (v : string) :
  Js.arrayIncludes xs v = true <-> In v xs.
Proof.
  unfold Js.arrayIncludes. rewrite existsb_exists. split.
  - intros [x [Hx Heq]]. apply String.eqb_eq in Heq. now subst.
  - intros Hin. exists v. split; [assumption | apply String.eqb_refl].
Qed.

Lemma get_In (o : Js.JsObject) (k v : string) :
  Js.get o k = Some v -> In (k, v) o.
Proof.
  induction o as [|[k' v'] r IH]; simpl; [discriminate|].
  destruct (String.eqb_spec k' k) as [->|Hne].
  - intros [= ->]. now left.
  - intros Hget. right. now apply IH.
Qed.

Lemma In_get (o : Js.JsObject) (k v : string) :
  List.NoDup (Js.keys o) -> In (k, v) o -> Js.get o k = Some v.
Proof.
  induction o as [|[k' v'] r IH]; simpl; [intros _ []|].
  intros Hnd [Heq | Hin].
  - injection Heq as -> ->. now rewrite String.eqb_refl.
  - apply NoDup_cons_iff in Hnd as [Hfresh Hnd].
    destruct (String.eqb_spec k' k) as [->|Hne].
    + exfalso. apply Hfresh. change k with (fst (k, v)). now apply in_map.
    + now apply IH.
Qed.

Lemma get_set (o : Js.JsObject) (k v k' : string) :
  Js.get (Js.set o k v) k' = if (k =? k')%string then Some v else Js.get o k'.
Proof.
  induction o as [|[k0 v0] r IH]; simpl.
  - reflexivity.
  - destruct (String.eqb_spec k0 k) as [->|Hne]; simpl.
    + destruct (String.eqb_spec k k'); reflexivity.
    + rewrite IH. destruct (String.eqb_spec k0 k') as [->|Hne'].
      * destruct (String.eqb_spec k k'); [congruence | reflexivity].
      * reflexivity.
Qed.

Lemma In_set (o : Js.JsObject) (k v k' v' : string) :
  In (k', v') (Js.set o k v) -> (k' = k /\ v' = v) \/ In (k', v') o.
Proof.
  induction o as [|[k0 v0] r IH]; simpl.
  - intros [[= <- <-] | []]. now left.
  - destruct (String.eqb_spec k0 k) as [->|Hne]; simpl.
    + intros [[= <- <-] | Hin]; [now left | right; now right].
    + intros [Heq | Hin]; [right; now left|].
      destruct (IH Hin) as [Hnew | Hold]; [now left | right; now right].
Qed.

Lemma keys_set (o : Js.JsObject) (k v k' : string) :
  In k' (Js.keys (Js.set o k v)) -> k' = k \/ In k' (Js.keys o).
Proof.
  unfold Js.keys. intros Hin. apply in_map_iff in Hin as [[k0 v0] [<- Hin]].
  apply In_set in Hin as [[-> _] | Hin]; [now left | right].
  apply in_map_iff. now exists (k0, v0).
Qed.

Lemma NoDup_keys_set (o : Js.JsObject) (k v : string) :
  List.NoDup (Js.keys o) -> List.NoDup (Js.keys (Js.set o k v)).
Proof.
  induction o as [|[k0 v0] r IH]; simpl; intros Hnd.
  - constructor; [intros [] | constructor].
  - apply NoDup_cons_iff in Hnd as [Hfresh Hnd].
    destruct (String.eqb_spec k0 k) as [->|Hne]; simpl.
    + constructor; assumption.
    + constructor; [|now apply IH].
      intros Hin. apply keys_set in Hin as [-> | Hin]; [congruence | contradiction].
Qed.

Lemma values_set (o : Js.JsObject) (k v v' : string) :
  In v' (Js.values (Js.set o k v)) -> v' = v \/ In v' (Js.values o).
Proof.
  unfold Js.values. intros Hin. apply in_map_iff in Hin as [[k0 v0] [<- Hin]].
  apply In_set in Hin as [[_ ->] | Hin]; [now left | right].
  apply in_map_iff. now exists (k0, v0).
Qed.

Lemma NoDup_values_set (o : Js.JsObject) (k v : string) :
  ~ In v (Js.values o) -> List.NoDup (Js.values o) -> List.NoDup (Js.values (Js.set o k v)).
Proof.
  induction o as [|[k0 v0] r IH]; simpl; intros Hfresh Hnd.
  - constructor; [intros [] | constructor].
  - apply NoDup_cons_iff in Hnd as [Hv0 Hnd].
    destruct (String.eqb_spec k0 k) as [->|Hne]; simpl.
    + constructor; [|assumption]. intros Hin. apply Hfresh. now right.
    + constructor.
      * intros Hin. apply values_set in Hin as [-> | Hin].
        -- apply Hfresh. now left.
        -- contradiction.
      * apply IH; [|assumption]. intros Hin. apply Hfresh. now right.
Qed.

Lemma In_values (o : Js.JsObject) (k v : string) :
  In (k, v) o -> In v (Js.values o).
Proof. intros Hin. unfold Js.values. change v with (snd (k, v)). now apply in_map. Qed.

(** In an object whose values are pairwise distinct, a value determines
    its key. *)
Lemma NoDup_values_injective (o : Js.JsObject) (k1 k2 v : string) :
  List.NoDup (Js.values o) -> In (k1, v) o -> In (k2, v) o -> k1 = k2.
Proof.
  induction o as [|[k0 v0] r IH]; simpl; [intros _ []|].
  intros Hnd H1 H2. apply NoDup_cons_iff in Hnd as [Hfresh Hnd].
  destruct H1 as [H1 | H1], H2 as [H2 | H2].
  - congruence.
  - exfalso. apply Hfresh. injection H1 as _ ->. eapply In_values; eassumption.
  - exfalso. apply Hfresh. injection H2 as _ ->. eapply In_values; eassumption.
  - now apply IH.
Qed.

Lemma fold_left_invariant {A B : Type} (P : A -> Prop) (step : A -> B -> A)
    (l : list B) (a : A) :
  P a -> (forall a x, In x l -> P a -> P (step a x)) -> P (fold_left step l a).
Proof.
  revert a. induction l as [|x l IH]; simpl; intros a Ha Hstep; [assumption|].
  apply IH.
  - apply Hstep; [now left | assumption].
  - intros a' y Hy. apply Hstep. now right.
Qed.

Lemma has_true (used : Js.JsSet) (column : string) :
  Js.has used column = true <-> In column used.
Proof. apply arrayIncludes_In. Qed.

Lemma has_false (used : Js.JsSet) (column : string) :
  Js.has used column = false <-> ~ In column used.
Proof.
  rewrite <- has_true. destruct (Js.has used column); split; congruence.
Qed.

Lemma In_add (used : Js.JsSet) (x y : string) :
  In y (Js.add used x) <-> y = x \/ In y used.
Proof.
  unfold Js.add. destruct (Js.has used x) eqn:Hhas.
  - apply has_true in Hhas. split; [now right | intros [-> | Hin]; assumption].
  - rewrite in_app_iff. simpl. split; [intros [Hin | [<- | []]] | intros [-> | Hin]]; auto.
Qed.

(** ** The field matcher *)

Section InvariantFacts.

Variable ok : BusinessField -> string -> Prop.
Variable fields : list BusinessField.
Variable columnNames : list string.

Local Abbreviation wellFormed := (wellFormed ok fields columnNames).

Lemma wellFormed_initial : wellFormed initial.
Proof.
  split; simpl; try (intros ? ? []); constructor.
Qed.

Lemma wellFormed_claim (st : State) (field : BusinessField) (column : string) :
  wellFormed st -> In field fields -> In column columnNames ->
  column <> "" -> ~ In column (usedColumns st) -> ok field column ->
  wellFormed (claim st field column).
Proof.
  intros [Hk Hv Hu Hcols Hf] Hfield Hcol Hne Hfresh Hacc.
  split; simpl.
  - now apply NoDup_keys_set.
  - apply NoDup_values_set; [|assumption].
    intros Hin. apply in_map_iff in Hin as [[k c] [Heq Hin]].
    simpl in Heq. subst c. apply Hfresh. eapply Hu. eassumption.
  - intros k c Hin. apply In_set in Hin as [[_ ->] | Hin].
    + apply In_add. now left.
    + apply In_add. right. now apply (Hu k c).
  - intros k c Hin. apply In_set in Hin as [[_ ->] | Hin]; [now split | eauto].
  - intros k c Hin. apply In_set in Hin as [[-> ->] | Hin]; [|eauto].
    exists field. auto.
Qed.

End InvariantFacts.

Section MatcherFacts.

Context {R : Type} `{Number R}.

Lemma exactMatch_cleanedMatch (field : BusinessField) (column : string) :
  exactMatch field column = true -> cleanedMatch field column = true.
Proof.
  unfold exactMatch, cleanedMatch. intros Hex.
  apply orb_true_iff in Hex as [Heq | Heq]; apply String.eqb_eq in Heq;
    rewrite Heq, String.eqb_refl; [reflexivity | apply orb_true_r].
Qed.

Lemma fuzzyStep_good (field : BusinessField) (columnNames : list string)
    (best : string * R) (column : string) :
  In column columnNames -> goodBest field columnNames best ->
  goodBest field columnNames (fuzzyStep field best column).
Proof.
  intros Hin Hbest. unfold fuzzyStep.
  destruct (unrelated column) eqn:Hskip; [assumption|].
  destruct (nlt (snd best) (fuzzyScore field column)
            && nle threshold (fuzzyScore field column)) eqn:Hcmp; [|assumption].
  apply andb_true_iff in Hcmp as [_ Hthr].
  right. simpl. auto.
Qed.

Lemma fuzzyLoop_good (field : BusinessField) (columnNames : list string) :
  goodBest field columnNames
    (fold_left (fuzzyStep field) columnNames ("", n0)).
Proof.
  apply fold_left_invariant.
  - now left.
  - intros best column Hin Hbest. now apply fuzzyStep_good.
Qed.

Lemma fuzzyPass_sound (field : BusinessField) (columnNames : list string)
    (column : string) :
  fuzzyPass field columnNames = Some column ->
  In column columnNames /\ column <> "" /\ unrelated column = false
  /\ nle threshold (fuzzyScore field column) = true.
Proof.
  unfold fuzzyPass. intros Hpass.
  destruct (Js.truthy _) eqn:Htruthy; [|discriminate].
  injection Hpass as <-. apply truthy_nonempty in Htruthy.
  destruct (fuzzyLoop_good field columnNames) as [Hnone | (Hin & Hskip & Hthr)].
  - contradiction.
  - auto.
Qed.

(** A pool in which every column is skipped or scores below the threshold
    leaves the loop with no column. *)
Lemma fuzzyLoop_below (field : BusinessField) (columnNames : list string) :
  (forall column, In column columnNames -> unrelated column = false ->
                  nle threshold (fuzzyScore field column) = false) ->
  fst (fold_left (fuzzyStep field) columnNames ("", n0)) = "".
Proof.
  intros Hbelow.
  apply (fold_left_invariant (fun best : string * R => fst best = "")).
  - reflexivity.
  - intros best column Hin Hbest. unfold fuzzyStep.
    destruct (unrelated column) eqn:Hskip; [assumption|].
    rewrite (Hbelow column Hin Hskip), andb_false_r. assumption.
Qed.

Lemma exactPass_sound (field : BusinessField) (columnNames : list string)
    (column : string) :
  exactPass field columnNames = Some column ->
  In column columnNames /\ cleanedMatch field column = true.
Proof.
  unfold exactPass. intros Hfind. apply find_some in Hfind as [Hin Htest].
  split; [assumption|].
  apply orb_true_iff in Htest as [Hex | Hcl];
    [now apply exactMatch_cleanedMatch | assumption].
Qed.

Lemma findBestMatch_sound (field : BusinessField) (columnNames : list string)
    (column : string) :
  findBestMatch field columnNames = Some column ->
  In column columnNames /\ accepted field column.
Proof.
  unfold findBestMatch. destruct (exactPass field columnNames) as [c|] eqn:Hexact.
  - intros [= <-]. apply exactPass_sound in Hexact as [Hin Hcl].
    split; [assumption | right; now left].
  - intros Hfuzzy. apply fuzzyPass_sound in Hfuzzy as (Hin & _ & Hskip & Hthr).
    split; [assumption | right; right; now split].
Qed.

(** ** The engine: what every pass keeps true *)

Section Engine.

Variable fields : list BusinessField.
Variable columnNames : list string.

Local Abbreviation wellFormed := (wellFormed (accepted (R:=R)) fields columnNames).

Lemma exactStep_wellFormed (st : State) (field : BusinessField) :
  In field fields -> wellFormed st -> wellFormed (exactStep columnNames st field).
Proof.
  intros Hfield Hwf. unfold exactStep.
  destruct (find (exactMatch field) columnNames) as [c|] eqn:Hfind; [|assumption].
  destruct (Js.truthy c && negb (Js.has (usedColumns st) c)) eqn:Hguard; [|assumption].
  apply andb_true_iff in Hguard as [Htruthy Hfree].
  apply find_some in Hfind as [Hin Hex].
  apply wellFormed_claim; try assumption.
  - now apply truthy_nonempty.
  - apply has_false. now apply negb_true_iff.
  - now left.
Qed.

Lemma cleanedStep_wellFormed (st : State) (field : BusinessField) :
  In field fields -> wellFormed st -> wellFormed (cleanedStep columnNames st field).
Proof.
  intros Hfield Hwf. unfold cleanedStep.
  destruct (find _ columnNames) as [c|] eqn:Hfind; [|assumption].
  destruct (Js.truthy c) eqn:Htruthy; [|assumption].
  apply find_some in Hfind as [Hin Htest].
  destruct (Js.has (usedColumns st) c) eqn:Hused; [discriminate|].
  apply wellFormed_claim; try assumption.
  - now apply truthy_nonempty.
  - now apply has_false.
  - right. now left.
Qed.

Lemma similarityStep_wellFormed (st : State) (field : BusinessField) :
  In field fields -> wellFormed st ->
  wellFormed (similarityStep columnNames st field).
Proof.
  intros Hfield Hwf. unfold similarityStep.
  destruct (findBestMatch field _) as [c|] eqn:Hbest; [|assumption].
  destruct (Js.truthy c) eqn:Htruthy; [|assumption].
  apply findBestMatch_sound in Hbest as [Hin Hacc].
  apply filter_In in Hin as [Hin Hfree].
  apply wellFormed_claim; try assumption.
  - now apply truthy_nonempty.
  - apply has_false. now apply negb_true_iff.
Qed.

Lemma unmapped_In (st : State) (field : BusinessField) :
  In field (unmapped fields st) -> In field fields.
Proof. unfold unmapped. intros Hin. now apply filter_In in Hin as [Hin _]. Qed.

Lemma insertField_perm (a : BusinessField) (l : list BusinessField) :
  Permutation (a :: l) (insertField a l).
Proof.
  induction l as [|b l IH]; simpl; [reflexivity|].
  destruct (specificity b <=? specificity a); [reflexivity|].
  rewrite perm_swap. now constructor.
Qed.

Lemma sortFields_perm (l : list BusinessField) : Permutation l (sortFields l).
Proof.
  induction l as [|a l IH]; simpl; [reflexivity|].
  rewrite <- insertField_perm. now constructor.
Qed.

Lemma sortedFields_In (field : BusinessField) :
  In field (sortedFields fields columnNames) -> In field fields.
Proof.
  unfold sortedFields. intros Hin.
  apply (Permutation_in _ (Permutation_sym (sortFields_perm _))) in Hin.
  now apply unmapped_In in Hin.
Qed.

Lemma firstPass_wellFormed : wellFormed (firstPass fields columnNames).
Proof.
  unfold firstPass.
  apply (fold_left_invariant wellFormed); [apply wellFormed_initial|].
  intros st field Hin. now apply exactStep_wellFormed.
Qed.

Lemma secondPass_wellFormed : wellFormed (secondPass fields columnNames).
Proof.
  unfold secondPass.
  apply (fold_left_invariant wellFormed); [apply firstPass_wellFormed|].
  intros st field Hin. apply cleanedStep_wellFormed.
  now apply unmapped_In in Hin.
Qed.

Lemma thirdPass_wellFormed : wellFormed (thirdPass fields columnNames).
Proof.
  unfold thirdPass.
  apply (fold_left_invariant wellFormed); [apply secondPass_wellFormed|].
  intros st field Hin. apply similarityStep_wellFormed.
  now apply sortedFields_In.
Qed.

End Engine.

End MatcherFacts.

(** ** Injectivity and well-formedness of the mapping *)

(** C1. Whatever the catalog and the column headers, the mapping returned
    by the reconciliation engine ([autoMapColumns] is [reconcile] on
    [BUSINESS_FIELDS]) is injective: its assigned columns are pairwise
    distinct, so no column is the value of two different field keys. *)
Theorem reconcile_injective {R : Type} `{Number R}
    (fields : list BusinessField) (columnNames : list string) :
  List.NoDup (Js.values (reconcile fields columnNames))
  /\ forall k1 k2 column,
       Js.get (reconcile fields columnNames) k1 = Some column ->
       Js.get (reconcile fields columnNames) k2 = Some column ->
       k1 = k2.
Proof.
  destruct (thirdPass_wellFormed fields columnNames) as [_ Hvalues _ _ _].
  split; [exact Hvalues|].
  intros k1 k2 column H1 H2.
  apply (NoDup_values_injective _ k1 k2 column Hvalues); now apply get_In.
Qed.

Lemma reconcile_injective_witness :
  Js.get (reconcile (R:=Q) BUSINESS_FIELDS ["Insurance"; "INSURANCE"]) "insurance"
    = Some "Insurance"
  /\ "insurance" = "insurance".
Proof.
  split; [vm_compute; reflexivity|].
  apply (proj2 (reconcile_injective (R:=Q) BUSINESS_FIELDS ["Insurance"; "INSURANCE"])
               "insurance" "insurance" "Insurance"); vm_compute; reflexivity.
Defined.

(** C10. The returned mapping is well-formed: each of its keys is the key
    of a catalog field, each assigned value is one of the input column
    headers, and an empty column list gives the empty mapping. *)
Theorem reconcile_wellFormed {R : Type} `{Number R}
    (fields : list BusinessField) (columnNames : list string) :
  (forall k, In k (Js.keys (reconcile fields columnNames)) ->
             exists field, In field fields /\ key field = k)
  /\ (forall column, In column (Js.values (reconcile fields columnNames)) ->
                     In column columnNames)
  /\ reconcile fields [] = [].
Proof.
  split; [|split].
  - destruct (thirdPass_wellFormed fields columnNames) as [_ _ _ _ Hfields].
    intros k Hin. apply in_map_iff in Hin as [[k' c] [<- Hin]].
    destruct (Hfields k' c Hin) as (field & Hfield & Hkey & _). eauto.
  - destruct (thirdPass_wellFormed fields columnNames) as [_ _ _ Hcols _].
    intros column Hin. apply in_map_iff in Hin as [[k c] [<- Hin]].
    now destruct (Hcols k c Hin).
  - destruct (thirdPass_wellFormed fields []) as [_ _ _ Hcols _].
    unfold reconcile. destruct (mappings (thirdPass fields [])) as [|[k c] r];
      [reflexivity|].
    destruct (Hcols k c (or_introl eq_refl)) as [[] _].
Qed.

Lemma reconcile_wellFormed_witness :
  In "roadTax" (Js.keys (reconcile (R:=Q) BUSINESS_FIELDS ["Road Tax %"; "Quantity"]))
  /\ In "Road Tax %" (Js.values (reconcile (R:=Q) BUSINESS_FIELDS ["Road Tax %"; "Quantity"]))
  /\ (exists field, In field BUSINESS_FIELDS /\ key field = "roadTax")
  /\ In "Road Tax %" ["Road Tax %"; "Quantity"].
Proof.
  pose proof (reconcile_wellFormed (R:=Q) BUSINESS_FIELDS ["Road Tax %"; "Quantity"])
    as (Hkeys & Hvalues & _).
  assert (Hk : In "roadTax" (Js.keys (reconcile (R:=Q) BUSINESS_FIELDS ["Road Tax %"; "Quantity"])))
    by (vm_compute; left; reflexivity).
  assert (Hv : In "Road Tax %" (Js.values (reconcile (R:=Q) BUSINESS_FIELDS ["Road Tax %"; "Quantity"])))
    by (vm_compute; left; reflexivity).
  exact (conj Hk (conj Hv (conj (Hkeys _ Hk) (Hvalues _ Hv)))).
Defined.

(** ** Threshold and denylist *)

Lemma unrelated_denylist (column : string) :
  unrelated column = true <->
  exists token, In token denylist /\ Js.includes (Js.toLowerCase column) token = true.
Proof.
  unfold unrelated, denylist. split.
  - intros Hun. repeat (apply orb_true_iff in Hun as [Hun | Hun]);
      eexists; (split; [|exact Hun]); simpl; tauto.
  - intros [token [Hin Hinc]]. simpl in Hin.
    repeat (destruct Hin as [<- | Hin]; [rewrite Hinc; repeat rewrite orb_true_r; reflexivity|]).
    destruct Hin.
Qed.

(** The three-pass copy: the fuzzy pass returns only a column of the pool
    whose fuzzy score reaches the threshold, which is 0.5; when every
    candidate it scores is below the threshold the matcher returns what its
    exact tests return; and a field of the returned mapping holds a column
    that passes the cleaned-exact test or whose fuzzy score reaches the
    threshold. *)
Lemma threePass_threshold {R : Type} `{Number R} :
  (threshold (R:=Q) == 1 # 2)%Q
  /\ (forall field pool column,
        fuzzyPass field pool = Some column ->
        In column pool /\ nle threshold (fuzzyScore field column) = true)
  /\ (forall field pool,
        (forall column, In column pool -> unrelated column = false ->
                        nle threshold (fuzzyScore field column) = false) ->
        fuzzyPass field pool = None
        /\ findBestMatch field pool = exactPass field pool)
  /\ (forall fields columnNames k column,
        Js.get (reconcile fields columnNames) k = Some column ->
        exists field, In field fields /\ key field = k
          /\ (cleanedMatch field column = true
              \/ nle threshold (fuzzyScore field column) = true)).
Proof.
  split; [reflexivity|]. split; [|split].
  - intros field pool column Hpass.
    apply fuzzyPass_sound in Hpass as (Hin & _ & _ & Hthr). now split.
  - intros field pool Hbelow.
    assert (Hnone : fuzzyPass field pool = None).
    { unfold fuzzyPass. now rewrite (fuzzyLoop_below field pool Hbelow). }
    split; [assumption|].
    unfold findBestMatch. rewrite Hnone. now destruct (exactPass field pool).
  - intros fields columnNames k column Hget.
    destruct (thirdPass_wellFormed fields columnNames) as [_ _ _ _ Hfields].
    destruct (Hfields k column (get_In _ _ _ Hget)) as (field & Hfield & Hkey & Hacc).
    exists field. repeat split; try assumption.
    destruct Hacc as [Hex | [Hcl | [_ Hthr]]];
      [left; now apply exactMatch_cleanedMatch | now left | now right].
Qed.

(** The three-pass copy: a column whose lower-cased header contains a
    token of the denylist is never the result of the fuzzy pass, whatever
    its score would be; the matcher returns such a column, and the engine
    assigns it, only when it passes the cleaned-exact test. *)
Lemma threePass_denylist {R : Type} `{Number R} :
  (forall field pool column token,
     In token denylist ->
     Js.includes (Js.toLowerCase column) token = true ->
     fuzzyPass field pool <> Some column)
  /\ (forall field pool column,
        findBestMatch field pool = Some column -> unrelated column = true ->
        cleanedMatch field column = true)
  /\ (forall fields columnNames k column,
        Js.get (reconcile fields columnNames) k = Some column ->
        unrelated column = true ->
        exists field, In field fields /\ key field = k
                      /\ cleanedMatch field column = true).
Proof.
  split; [|split].
  - intros field pool column token Hin Hinc Hpass.
    apply fuzzyPass_sound in Hpass as (_ & _ & Hskip & _).
    assert (Hun : unrelated column = true)
      by (apply unrelated_denylist; eauto).
    congruence.
  - intros field pool column Hbest Hun.
    apply findBestMatch_sound in Hbest as [_ [Hex | [Hcl | [Hskip _]]]];
      [now apply exactMatch_cleanedMatch | assumption | congruence].
  - intros fields columnNames k column Hget Hun.
    destruct (thirdPass_wellFormed fields columnNames) as [_ _ _ _ Hfields].
    destruct (Hfields k column (get_In _ _ _ Hget)) as (field & Hfield & Hkey & Hacc).
    exists field. repeat split; try assumption.
    destruct Hacc as [Hex | [Hcl | [Hskip _]]];
      [now apply exactMatch_cleanedMatch | assumption | congruence].
Qed.

(** ** The order of the two exact tests in the matcher *)

Lemma find_ext {A : Type} (f g : A -> bool) (l : list A) :
  (forall x, In x l -> f x = g x) -> find f l = find g l.
Proof.
  induction l as [|x l IH]; simpl; intros Hext; [reflexivity|].
  rewrite (Hext x (or_introl eq_refl)). destruct (g x); [reflexivity|].
  apply IH. intros y Hy. apply Hext. now right.
Qed.

Lemma find_first {A : Type} (f : A -> bool) (before after : list A) (x : A) :
  (forall y, In y before -> f y = false) -> f x = true ->
  find f (before ++ x :: after) = Some x.
Proof.
  induction before as [|y before IH]; simpl; intros Hbefore Hx.
  - now rewrite Hx.
  - rewrite (Hbefore y (or_introl eq_refl)). apply IH; [|assumption].
    intros z Hz. apply Hbefore. now right.
Qed.

Section ExactPass.

Context {R : Type} `{Number R}.

Lemma exactPass_cleaned (field : BusinessField) (pool : list string) :
  exactPass field pool = find (cleanedMatch field) pool.
Proof.
  unfold exactPass. apply find_ext. intros column _.
  destruct (exactMatch field column) eqn:Hex; [|reflexivity].
  now rewrite (exactMatch_cleanedMatch field column Hex).
Qed.

Lemma findBestMatch_cleaned (field : BusinessField) (pool : list string)
    (column : string) :
  find (cleanedMatch field) pool = Some column ->
  findBestMatch field pool = Some column.
Proof.
  intros Hfind. unfold findBestMatch. now rewrite exactPass_cleaned, Hfind.
Qed.

End ExactPass.

(** C6, the claim as stated fails: with the field [insurance] and the pool
    ["In-surance"; "Insurance"], the second candidate equals the key
    case-insensitively and the first matches only after normalization, yet
    the matcher returns the first. *)
Lemma findBestMatch_exact_before_cleaned_counterexample :
  find (exactMatch insurance) ["In-surance"; "Insurance"] = Some "Insurance"
  /\ exactMatch insurance "In-surance" = false
  /\ cleanedMatch insurance "In-surance" = true
  /\ findBestMatch (R:=Q) insurance ["In-surance"; "Insurance"] = Some "In-surance"
  /\ findBestMatch (R:=Q) insurance ["In-surance"; "Insurance"] <> Some "Insurance".
Proof.
  split; [vm_compute; reflexivity|].
  split; [vm_compute; reflexivity|].
  split; [vm_compute; reflexivity|].
  split; [vm_compute; reflexivity|].
  vm_compute. discriminate.
Qed.

(** C6, amended. The matcher scans the pool once, in pool order, applying
    the exact and the cleaned-exact test to each candidate in turn, and
    returns the first candidate that passes one of them: the first
    candidate that matches after normalization.  A candidate that equals
    the key or label case-insensitively is therefore returned when no
    earlier candidate of the pool matches after normalization. *)
Theorem findBestMatch_first_match {R : Type} `{Number R}
    (field : BusinessField) (pool : list string) :
  (forall column,
     find (fun c => exactMatch field c || cleanedMatch field c) pool = Some column ->
     findBestMatch field pool = Some column)
  /\ (forall before column after,
        pool = before ++ column :: after ->
        exactMatch field column = true ->
        (forall earlier, In earlier before -> cleanedMatch field earlier = false) ->
        findBestMatch field pool = Some column).
Proof.
  split.
  - intros column Hfind. unfold findBestMatch, exactPass. now rewrite Hfind.
  - intros before column after -> Hex Hbefore.
    apply findBestMatch_cleaned. apply find_first; [assumption|].
    now apply exactMatch_cleanedMatch.
Qed.

Lemma findBestMatch_first_match_witness :
  (find (fun c => exactMatch insurance c || cleanedMatch insurance c)
        ["In-surance"; "Insurance"] = Some "In-surance"
   /\ findBestMatch (R:=Q) insurance ["In-surance"; "Insurance"] = Some "In-surance")
  /\ (["Quantity"; "INSURANCE"; "Insurance"] = ["Quantity"] ++ "INSURANCE" :: ["Insurance"]
      /\ exactMatch insurance "INSURANCE" = true
      /\ (forall earlier, In earlier ["Quantity"] ->
                          cleanedMatch insurance earlier = false)
      /\ findBestMatch (R:=Q) insurance ["Quantity"; "INSURANCE"; "Insurance"]
           = Some "INSURANCE").
Proof.
  assert (Hfind : find (fun c => exactMatch insurance c || cleanedMatch insurance c)
                       ["In-surance"; "Insurance"] = Some "In-surance")
    by (vm_compute; reflexivity).
  assert (Hex : exactMatch insurance "INSURANCE" = true) by (vm_compute; reflexivity).
  assert (Hbefore : forall earlier, In earlier ["Quantity"] ->
                                    cleanedMatch insurance earlier = false).
  { intros earlier [<- | []]. vm_compute. reflexivity. }
  split.
  - exact (conj Hfind
             (proj1 (findBestMatch_first_match (R:=Q) insurance _) _ Hfind)).
  - exact (conj eq_refl (conj Hex (conj Hbefore
             (proj2 (findBestMatch_first_match (R:=Q) insurance _)
                    ["Quantity"] "INSURANCE" ["Insurance"] eq_refl Hex Hbefore)))).
Defined.

(** ** Scenario 2 *)

(** C8, the claim as stated fails: on the catalog [roadTax] and the column
    "Road Tax %" the field is already mapped when the second pass ends, so
    the third pass has no field to visit and the fuzzy pass is never run;
    and the fuzzy score of the pair, 1, comes from the similarity of the
    key and is not below 0.8, so no domain boost enters it. *)
Lemma scenario2_fuzzy_counterexample :
  Js.get (mappings (secondPass [roadTax] ["Road Tax %"])) "roadTax"
    = Some "Road Tax %"
  /\ sortedFields [roadTax] ["Road Tax %"] = []
  /\ ~ In roadTax (sortedFields [roadTax] ["Road Tax %"])
  /\ nlt (baseScore (R:=Q) roadTax "Road Tax %") n0_8 = false
  /\ (fuzzyScore (R:=Q) roadTax "Road Tax %" == 1)%Q.
Proof.
  split; [vm_compute; reflexivity|].
  split; [vm_compute; reflexivity|].
  split; [vm_compute; intros []|].
  split; vm_compute; reflexivity.
Qed.

(** The same scores in binary64. *)
Example scenario2_binary64 :
  nlt (baseScore (R:=float) roadTax "Road Tax %") n0_8 = false
  /\ fuzzyScore (R:=float) roadTax "Road Tax %" = PrimFloat.one.
Proof. split; vm_compute; reflexivity. Qed.

(** C8, amended. On the catalog [roadTax] and the column list
    ["Road Tax %"], reconciliation maps roadTax to "Road Tax %", and it
    does so in the cleaned-exact pass: the header is not equal to the key
    or the label case-insensitively, its normalized text "roadtax" equals
    the normalized key, the first pass leaves the mapping empty, the second
    pass binds the field, and the third pass has nothing left to visit. *)
Theorem scenario2_cleaned_exact {R : Type} `{Number R} :
  reconcile [roadTax] ["Road Tax %"] = [("roadTax", "Road Tax %")]
  /\ exactMatch roadTax "Road Tax %" = false
  /\ normalize "Road Tax %" = normalize (key roadTax)
  /\ mappings (firstPass [roadTax] ["Road Tax %"]) = []
  /\ mappings (secondPass [roadTax] ["Road Tax %"]) = [("roadTax", "Road Tax %")]
  /\ sortedFields [roadTax] ["Road Tax %"] = [].
Proof.
  assert (Hsorted : sortedFields [roadTax] ["Road Tax %"] = [])
    by (vm_compute; reflexivity).
  split.
  { unfold reconcile, thirdPass. rewrite Hsorted. vm_compute. reflexivity. }
  split; [vm_compute; reflexivity|].
  split; [vm_compute; reflexivity|].
  split; [vm_compute; reflexivity|].
  split; [vm_compute; reflexivity | exact Hsorted].
Qed.

(** ** The order of the third pass *)

Lemma insertField_sorted (a : BusinessField) (l : list BusinessField) :
  StronglySorted moreSpecific l -> StronglySorted moreSpecific (insertField a l).
Proof.
  induction l as [|b l IH]; simpl; intros Hsorted.
  - constructor; constructor.
  - apply StronglySorted_inv in Hsorted as [Hl Hb].
    destruct (Nat.leb_spec (specificity b) (specificity a)) as [Hle | Hlt].
    + constructor; [constructor; assumption|].
      constructor; [exact Hle|].
      apply List.Forall_forall. intros c Hc.
      pose proof (proj1 (List.Forall_forall _ _) Hb c Hc) as Hcb.
      unfold moreSpecific in *. lia.
    + constructor; [now apply IH|].
      apply (Permutation_Forall (insertField_perm a l)).
      constructor; [unfold moreSpecific; lia | assumption].
Qed.

Lemma sortFields_sorted (l : list BusinessField) :
  StronglySorted moreSpecific (sortFields l).
Proof.
  induction l as [|a l IH]; simpl; [constructor | now apply insertField_sorted].
Qed.

(** Fields of equal specificity keep the order they have in the catalog. *)
Lemma insertField_filter (p : BusinessField -> bool) (a : BusinessField)
    (l : list BusinessField) :
  (forall b, In b l -> p b = true -> specificity b <= specificity a) ->
  List.filter p (insertField a l) = List.filter p (a :: l).
Proof.
  induction l as [|b l IH]; intros Hle; [reflexivity|].
  simpl insertField.
  destruct (Nat.leb_spec (specificity b) (specificity a)) as [Hba | Hab];
    [reflexivity|].
  simpl. simpl in IH. rewrite IH.
  - destruct (p b) eqn:Hpb; [|reflexivity].
    specialize (Hle b (or_introl eq_refl) Hpb). lia.
  - intros c Hc. apply Hle. now right.
Qed.

Lemma sortFields_stable (n : nat) (l : list BusinessField) :
  List.filter (fun f => specificity f =? n) (sortFields l)
  = List.filter (fun f => specificity f =? n) l.
Proof.
  induction l as [|a l IH]; [reflexivity|].
  simpl sortFields.
  destruct (Nat.eqb_spec (specificity a) n) as [Ha | Ha].
  - rewrite insertField_filter.
    + simpl. rewrite IH. reflexivity.
    + intros b _ Hb. apply Nat.eqb_eq in Hb. lia.
  - assert (Hskip : forall m, List.filter (fun f => specificity f =? n) (insertField a m)
                              = List.filter (fun f => specificity f =? n) m).
    { induction m as [|b m IHm]; simpl.
      - now rewrite (proj2 (Nat.eqb_neq _ _) Ha).
      - destruct (specificity b <=? specificity a); simpl.
        + now rewrite (proj2 (Nat.eqb_neq _ _) Ha).
        + now rewrite IHm. }
    rewrite Hskip, IH. simpl. now rewrite (proj2 (Nat.eqb_neq _ _) Ha).
Qed.

Lemma specificity_tokenCount :
  Forall (fun field => specificity field = tokenCount field) BUSINESS_FIELDS.
Proof. repeat constructor. Qed.

Lemma sortFields_sorted_tokens (l : list BusinessField) :
  (forall f, In f l -> specificity f = tokenCount f) ->
  StronglySorted (fun a b => tokenCount b <= tokenCount a) (sortFields l).
Proof.
  intros Hcount.
  assert (Hcount' : forall f, In f (sortFields l) -> specificity f = tokenCount f).
  { intros f Hin. apply Hcount.
    exact (Permutation_in _ (Permutation_sym (sortFields_perm l)) Hin). }
  pose proof (sortFields_sorted l) as Hsorted.
  revert Hcount' Hsorted. generalize (sortFields l) as order. clear Hcount.
  induction order as [|a order IH]; intros Hcount Hsorted; [constructor|].
  apply StronglySorted_inv in Hsorted as [Hrest Ha].
  constructor.
  - apply IH; [|assumption]. intros f Hf. apply Hcount. now right.
  - apply List.Forall_forall. intros b Hb.
    rewrite <- (Hcount a (or_introl eq_refl)), <- (Hcount b (or_intror Hb)).
    exact (proj1 (List.Forall_forall _ _) Ha b Hb).
Qed.

Lemma sortFields_stable_tokens (n : nat) (l : list BusinessField) :
  (forall f, In f l -> specificity f = tokenCount f) ->
  List.filter (fun f => tokenCount f =? n) (sortFields l)
  = List.filter (fun f => tokenCount f =? n) l.
Proof.
  intros Hcount.
  rewrite (filter_ext_in (fun f => tokenCount f =? n) (fun f => specificity f =? n)
             (sortFields l)).
  - rewrite (filter_ext_in (fun f => tokenCount f =? n) (fun f => specificity f =? n) l).
    + apply sortFields_stable.
    + intros f Hf. now rewrite (Hcount f Hf).
  - intros f Hf. rewrite Hcount; [reflexivity|].
    exact (Permutation_in _ (Permutation_sym (sortFields_perm l)) Hf).
Qed.

(** ** Validation *)

Section Validation.

Variable fields : list BusinessField.
Variable mappings : Js.JsObject.
Variable columnNames : list string.

Local Abbreviation isMissing := (isMissing mappings).
Local Abbreviation isInvalid := (isInvalid mappings columnNames).

Lemma fieldErrors_cases (field : BusinessField) :
  (isMissing field = true /\ isInvalid field = false
   /\ fieldErrors mappings columnNames field = [missingMessage field])
  \/ (isMissing field = false /\ isInvalid field = true
      /\ exists column, Js.get mappings (key field) = Some column
           /\ column <> "" /\ ~ In column columnNames
           /\ fieldErrors mappings columnNames field = [invalidMessage field column])
  \/ (isMissing field = false /\ isInvalid field = false
      /\ exists column, Js.get mappings (key field) = Some column
           /\ column <> "" /\ In column columnNames
           /\ fieldErrors mappings columnNames field = []).
Proof.
  unfold isMissing, isInvalid, Js.unset, fieldErrors.
  destruct (Js.get mappings (key field)) as [column|]; [|left; auto].
  destruct (Js.truthy column) eqn:Htruthy; simpl; [|left; auto].
  apply truthy_nonempty in Htruthy.
  destruct (Js.arrayIncludes columnNames column) eqn:Hinc; simpl; right.
  - right. repeat split; trivial. exists column. repeat split; trivial.
    now apply arrayIncludes_In.
  - left. repeat split; trivial. exists column. repeat split; trivial.
    intros Hin. apply arrayIncludes_In in Hin. congruence.
Qed.

Lemma errors_flat_map (l : list BusinessField) (acc : list string) :
  fold_left (fun errs field => errs ++ fieldErrors mappings columnNames field) l acc
  = acc ++ flat_map (fieldErrors mappings columnNames) l.
Proof.
  revert acc. induction l as [|field l IH]; intros acc; simpl.
  - now rewrite app_nil_r.
  - rewrite IH. now rewrite <- app_assoc.
Qed.

Lemma errors_count (l : list BusinessField) :
  length (flat_map (fieldErrors mappings columnNames) l)
  = length (List.filter isMissing l) + length (List.filter isInvalid l).
Proof.
  induction l as [|field l IH]; [reflexivity|].
  simpl. rewrite length_app, IH.
  destruct (fieldErrors_cases field)
    as [(-> & -> & ->) | [(-> & -> & c & _ & _ & _ & ->) | (-> & -> & c & _ & _ & _ & ->)]];
    simpl; lia.
Qed.

End Validation.

(** [indexOf] finds the first position of a value. *)
Lemma indexOf_nth (xs : list string) (v : string) (i : nat) :
  Js.indexOf xs v = Some i -> nth_error xs i = Some v.
Proof.
  revert i. induction xs as [|x xs IH]; simpl; intros i; [discriminate|].
  destruct (String.eqb_spec x v) as [->|Hne].
  - now intros [= <-].
  - destruct (Js.indexOf xs v) as [j|]; simpl; [|discriminate].
    intros [= <-]. simpl. now apply IH.
Qed.

Lemma indexOf_In (xs : list string) (v : string) :
  In v xs -> exists i, Js.indexOf xs v = Some i.
Proof.
  induction xs as [|x xs IH]; simpl; [intros []|].
  intros Hin. destruct (String.eqb_spec x v) as [->|Hne]; [now exists 0|].
  destruct Hin as [-> | Hin]; [congruence|].
  destruct (IH Hin) as [i ->]. now exists (S i).
Qed.

Lemma In_combine_seq (xs : list string) (n i : nat) (v : string) :
  In (i, v) (combine (seq n (length xs)) xs)
  <-> n <= i /\ nth_error xs (i - n) = Some v.
Proof.
  revert n. induction xs as [|x xs IH]; intros n; simpl.
  - split; [intros [] | intros [_ Hnth]]. now destruct (i - n).
  - rewrite IH. split.
    + intros [[= <- <-] | [Hle Hnth]].
      * rewrite Nat.sub_diag. split; [lia | reflexivity].
      * split; [lia|]. replace (i - n) with (S (i - S n)) by lia. exact Hnth.
    + intros [Hle Hnth]. destruct (i - n) as [|d] eqn:Hd.
      * left. injection Hnth as ->. f_equal. lia.
      * right. split; [lia|]. replace (i - S n) with d by lia. exact Hnth.
Qed.

Lemma laterOccurrences_nil (xs : list string) :
  laterOccurrences xs = [] <-> List.NoDup xs.
Proof.
  unfold laterOccurrences. split.
  - intros Hnil. apply NoDup_nth_error. intros i j Hi Hij.
    destruct (nth_error xs i) as [v|] eqn:Hnth;
      [|apply nth_error_None in Hnth; lia].
    assert (Hall : forall k, nth_error xs k = Some v -> Js.indexOf xs v = Some k).
    { intros k Hk.
      assert (Hin : In (k, v) (combine (seq 0 (length xs)) xs)).
      { apply In_combine_seq. rewrite Nat.sub_0_r. split; [lia | assumption]. }
      destruct (bool_decide (Js.indexOf xs v = Some k)) eqn:Hdec.
      - now apply bool_decide_eq_true in Hdec.
      - exfalso.
        assert (Hkeep : In (k, v)
                  (List.filter (fun iv : nat * string =>
                        negb (bool_decide (Js.indexOf xs (snd iv) = Some (fst iv))))
                     (combine (seq 0 (length xs)) xs))).
        { apply filter_In. split; [assumption|]. simpl. now rewrite Hdec. }
        apply (in_map snd) in Hkeep. rewrite Hnil in Hkeep. destruct Hkeep. }
    pose proof (Hall i Hnth) as Hi'. pose proof (Hall j (eq_sym Hij)) as Hj'.
    congruence.
  - intros Hnd.
    destruct (List.filter _ _) as [|[i v] rest] eqn:Hfilter; [reflexivity|].
    exfalso.
    assert (Hin : In (i, v) (List.filter (fun iv : nat * string =>
                        negb (bool_decide (Js.indexOf xs (snd iv) = Some (fst iv))))
                     (combine (seq 0 (length xs)) xs)))
      by (rewrite Hfilter; now left).
    apply filter_In in Hin as [Hin Hkeep]. simpl in Hkeep.
    apply In_combine_seq in Hin as [_ Hnth]. rewrite Nat.sub_0_r in Hnth.
    destruct (indexOf_In xs v (nth_error_In _ _ Hnth)) as [j Hj].
    pose proof (indexOf_nth _ _ _ Hj) as Hnthj.
    assert (Heq : j = i).
    { apply (proj1 (NoDup_nth_error xs) Hnd).
      - apply nth_error_Some. congruence.
      - congruence. }
    subst j. apply negb_true_iff, bool_decide_eq_false in Hkeep. contradiction.
Qed.

Lemma sharedColumn_not_NoDup (mappings : Js.JsObject) :
  sharedColumn mappings -> ~ List.NoDup (mappedValues mappings).
Proof.
  intros (k1 & k2 & column & Hne & Hcol & H1 & H2) Hnd.
  apply get_In in H1. apply get_In in H2. apply Hne. clear Hne.
  revert Hnd H1 H2. unfold mappedValues, Js.values.
  induction mappings as [|[k v] r IH]; simpl; [intros _ []|].
  assert (Hcase : forall k', In (k', column) r ->
            In column (List.filter (fun v => Js.truthy v) (map snd r))).
  { intros k' Hin. apply filter_In. split.
    - change column with (snd (k', column)). now apply in_map.
    - now apply truthy_nonempty. }
  destruct (Js.truthy v) eqn:Htruthy.
  - intros Hnd [H1 | H1] [H2 | H2].
    + congruence.
    + apply NoDup_cons_iff in Hnd as [Hfresh _]. exfalso. apply Hfresh.
      injection H1 as _ ->. eapply Hcase; eassumption.
    + apply NoDup_cons_iff in Hnd as [Hfresh _]. exfalso. apply Hfresh.
      injection H2 as _ ->. eapply Hcase; eassumption.
    + apply NoDup_cons_iff in Hnd as [_ Hnd]. now apply IH.
  - apply truthy_nonempty in Hcol.
    intros Hnd [H1 | H1] [H2 | H2]; try (injection H1 as _ ->; congruence);
      try (injection H2 as _ ->; congruence).
    now apply IH.
Qed.

Lemma NoDup_or_sharedColumn (mappings : Js.JsObject) :
  List.NoDup (Js.keys mappings) ->
  List.NoDup (mappedValues mappings) \/ sharedColumn mappings.
Proof.
  induction mappings as [|[k v] r IH]; intros Hkeys.
  - left. constructor.
  - simpl in Hkeys. pose proof Hkeys as Hkeys0.
    apply NoDup_cons_iff in Hkeys as [Hfresh Hkeys].
    assert (Hlift : forall k', k' <> k -> forall c, Js.get r k' = Some c ->
                      Js.get ((k, v) :: r) k' = Some c).
    { intros k' Hne c Hget. simpl. destruct (String.eqb_spec k k'); congruence. }
    assert (Hkey : forall k' c, Js.get r k' = Some c -> k' <> k).
    { intros k' c Hget ->. apply Hfresh. apply get_In in Hget.
      change k with (fst (k, c)). now apply in_map. }
    destruct (IH Hkeys) as [Hnd | (k1 & k2 & c & Hne & Hc & H1 & H2)].
    + unfold mappedValues, Js.values in *. simpl.
      destruct (Js.truthy v) eqn:Htruthy; [|now left].
      destruct (in_dec string_dec v (List.filter (fun v => Js.truthy v) (map snd r)))
        as [Hin | Hnotin].
      * right. apply filter_In in Hin as [Hin _].
        apply in_map_iff in Hin as [[k' v'] [Heq Hin]]. simpl in Heq. subst v'.
        apply (In_get _ _ _ Hkeys) in Hin.
        exists k, k', v. repeat split.
        -- intros ->. now apply (Hkey k' v).
        -- now apply truthy_nonempty.
        -- simpl. now rewrite String.eqb_refl.
        -- apply Hlift; [now apply (Hkey k' v) | assumption].
      * left. now constructor.
    + right. exists k1, k2, c. repeat split; trivial.
      * apply Hlift; [now apply (Hkey k1 c) | assumption].
      * apply Hlift; [now apply (Hkey k2 c) | assumption].
Qed.

Lemma validateAgainst_errors (fields : list BusinessField)
    (mappings : Js.JsObject) (columnNames : list string) :
  errors (validateAgainst fields mappings columnNames)
  = flat_map (fieldErrors mappings columnNames) fields.
Proof. unfold validateAgainst. simpl. apply (errors_flat_map _ _ fields []). Qed.

Lemma validateAgainst_warnings (fields : list BusinessField)
    (mappings : Js.JsObject) (columnNames : list string) :
  warnings (validateAgainst fields mappings columnNames)
  = if 0 <? length (laterOccurrences (mappedValues mappings))
    then [duplicateMessage (laterOccurrences (mappedValues mappings))]
    else [].
Proof. reflexivity. Qed.

Lemma validateAgainst_isValid (fields : list BusinessField)
    (mappings : Js.JsObject) (columnNames : list string) :
  isValid (validateAgainst fields mappings columnNames)
  = (length (errors (validateAgainst fields mappings columnNames)) =? 0).
Proof. reflexivity. Qed.

(** C7. One call of [validateColumnMappings] reports every failure: the
    error list holds, field by field in catalog order, one message for each
    field without a column (its lookup is [undefined] or empty) and one for
    each field whose column is not in the column list, so its length is the
    number of those fields; a column shared by several keys produces a
    single warning and no error; and [isValid] holds exactly when the error
    list is empty, whatever the warnings. *)
Theorem validateColumnMappings_complete
    (mappings : Js.JsObject) (columnNames : list string) :
  let result := validateColumnMappings mappings columnNames in
  errors result = flat_map (fieldErrors mappings columnNames) BUSINESS_FIELDS
  /\ (forall field,
        (isMissing mappings field = true ->
         fieldErrors mappings columnNames field = [missingMessage field])
        /\ (forall column,
              Js.get mappings (key field) = Some column -> column <> "" ->
              ~ In column columnNames ->
              fieldErrors mappings columnNames field = [invalidMessage field column])
        /\ (forall column,
              Js.get mappings (key field) = Some column -> column <> "" ->
              In column columnNames ->
              fieldErrors mappings columnNames field = []))
  /\ length (errors result)
     = length (List.filter (isMissing mappings) BUSINESS_FIELDS)
       + length (List.filter (isInvalid mappings columnNames) BUSINESS_FIELDS)
  /\ (warnings result = []
      \/ warnings result
         = [duplicateMessage (laterOccurrences (mappedValues mappings))])
  /\ (List.NoDup (Js.keys mappings) ->
      (warnings result <> [] <-> sharedColumn mappings))
  /\ (isValid result = true <-> errors result = []).
Proof.
  assert (Herrors : errors (validateColumnMappings mappings columnNames)
                    = flat_map (fieldErrors mappings columnNames) BUSINESS_FIELDS).
  { unfold validateColumnMappings. apply validateAgainst_errors. }
  assert (Hwarn : warnings (validateColumnMappings mappings columnNames) <> []
                  <-> ~ List.NoDup (mappedValues mappings)).
  { unfold validateColumnMappings. rewrite validateAgainst_warnings.
    rewrite <- laterOccurrences_nil.
    destruct (laterOccurrences (mappedValues mappings)); simpl; split; congruence. }
  cbv zeta. split; [exact Herrors|]. split; [|split; [|split; [|split]]].
  - intros field.
    destruct (fieldErrors_cases mappings columnNames field)
      as [(Hm & _ & He) | [(Hm & _ & c & Hget & Hne & Hin & He)
                          | (Hm & _ & c & Hget & Hne & Hin & He)]].
    + split; [now intros _|]. unfold isMissing, Js.unset in Hm.
      split; intros column Hget Hne; rewrite Hget in Hm;
        apply negb_true_iff in Hm; apply truthy_nonempty in Hne; congruence.
    + split; [congruence|].
      split; intros column Hget' Hne' Hin'; rewrite Hget in Hget';
        injection Hget' as <-; [assumption | contradiction].
    + split; [congruence|].
      split; intros column Hget' Hne' Hin'; rewrite Hget in Hget';
        injection Hget' as <-; [contradiction | assumption].
  - rewrite Herrors. apply errors_count.
  - unfold validateColumnMappings. rewrite validateAgainst_warnings.
    destruct (0 <? length (laterOccurrences (mappedValues mappings)));
      [now right | now left].
  - intros Hkeys. rewrite Hwarn. split.
    + intros Hdup. destruct (NoDup_or_sharedColumn mappings Hkeys); [contradiction | assumption].
    + apply sharedColumn_not_NoDup.
  - unfold validateColumnMappings. rewrite validateAgainst_isValid.
    rewrite Nat.eqb_eq. apply length_zero_iff_nil.
Qed.

Lemma validateColumnMappings_complete_witness :
  (isMissing sampleMappings stateSubsidy = true
   /\ fieldErrors sampleMappings ["A"] stateSubsidy = [missingMessage stateSubsidy])
  /\ (Js.get sampleMappings (key roadTax) = Some "Z" /\ "Z" <> "" /\ ~ In "Z" ["A"]
      /\ fieldErrors sampleMappings ["A"] roadTax = [invalidMessage roadTax "Z"])
  /\ (Js.get sampleMappings (key insurance) = Some "A" /\ "A" <> "" /\ In "A" ["A"]
      /\ fieldErrors sampleMappings ["A"] insurance = [])
  /\ (List.NoDup (Js.keys sampleMappings)
      /\ warnings (validateColumnMappings sampleMappings ["A"]) <> []
      /\ sharedColumn sampleMappings)
  /\ (isValid (validateColumnMappings identityMappings (map key BUSINESS_FIELDS)) = true
      /\ errors (validateColumnMappings identityMappings (map key BUSINESS_FIELDS)) = []).
Proof.
  assert (Hmissing : isMissing sampleMappings stateSubsidy = true)
    by (vm_compute; reflexivity).
  assert (Hz : Js.get sampleMappings (key roadTax) = Some "Z")
    by (vm_compute; reflexivity).
  assert (Hzne : "Z" <> "") by discriminate.
  assert (Hzout : ~ In "Z" ["A"]) by (intros [Heq | []]; discriminate Heq).
  assert (Ha : Js.get sampleMappings (key insurance) = Some "A")
    by (vm_compute; reflexivity).
  assert (Hane : "A" <> "") by discriminate.
  assert (Hain : In "A" ["A"]) by (left; reflexivity).
  assert (Hkeys : List.NoDup (Js.keys sampleMappings)).
  { vm_compute. repeat (constructor; [simpl; intuition discriminate|]). constructor. }
  assert (Hwarn : warnings (validateColumnMappings sampleMappings ["A"]) <> [])
    by (vm_compute; discriminate).
  assert (Hvalid : isValid (validateColumnMappings identityMappings
                              (map key BUSINESS_FIELDS)) = true)
    by (vm_compute; reflexivity).
  pose proof (validateColumnMappings_complete sampleMappings ["A"])
    as (_ & Hfield & _ & _ & Hshared & _).
  pose proof (validateColumnMappings_complete identityMappings (map key BUSINESS_FIELDS))
    as (_ & _ & _ & _ & _ & Hiff).
  split; [|split; [|split; [|split]]].
  - exact (conj Hmissing (proj1 (Hfield stateSubsidy) Hmissing)).
  - exact (conj Hz (conj Hzne (conj Hzout
             (proj1 (proj2 (Hfield roadTax)) "Z" Hz Hzne Hzout)))).
  - exact (conj Ha (conj Hane (conj Hain
             (proj2 (proj2 (Hfield insurance)) "A" Ha Hane Hain)))).
  - exact (conj Hkeys (conj Hwarn (proj1 (Hshared Hkeys) Hwarn))).
  - exact (conj Hvalid (proj1 Hiff Hvalid)).
Defined.

(** ** The edit distance *)

Lemma levenshtein_nil_l (b : list ascii) : levenshtein [] b = length b.
Proof. now destruct b. Qed.

Lemma levenshtein_nil_r (a : list ascii) : levenshtein a [] = length a.
Proof. now destruct a. Qed.

Lemma levenshtein_cons (x y : ascii) (a b : list ascii) :
  levenshtein (x :: a) (y :: b)
  = Nat.min (levenshtein a (y :: b) + 1)
      (Nat.min (levenshtein (x :: a) b + 1)
               (levenshtein a b + (if Ascii.eqb x y then 0 else 1))).
Proof. reflexivity. Qed.

(** The same distance read from the ends of the two sequences: the
    recurrence the matrix is filled with. *)
Lemma levenshtein_snoc (x y : ascii) (a b : list ascii) :
  levenshtein (a ++ [x]) (b ++ [y])
  = Nat.min (levenshtein a (b ++ [y]) + 1)
      (Nat.min (levenshtein (a ++ [x]) b + 1)
               (levenshtein a b + (if Ascii.eqb x y then 0 else 1))).
Proof.
  revert b. induction a as [|u a IHa]; intros b.
  - induction b as [|v b IHb].
    + reflexivity.
    + change (([] ++ [x]) : list ascii) with [x] in *.
      change ((v :: b) ++ [y]) with (v :: (b ++ [y])).
      rewrite (levenshtein_cons x v [] (b ++ [y])), IHb.
      rewrite (levenshtein_cons x v [] b).
      rewrite !levenshtein_nil_l. simpl length. rewrite !length_app. simpl length.
      destruct (Ascii.eqb x y), (Ascii.eqb x v); min_eq.
  - induction b as [|v b IHb].
    + change (([] ++ [y]) : list ascii) with [y] in *.
      change ((u :: a) ++ [x]) with (u :: (a ++ [x])).
      rewrite (levenshtein_cons u y (a ++ [x]) []).
      pose proof (IHa []) as H0.
      change (([] ++ [y]) : list ascii) with [y] in H0. rewrite H0.
      rewrite (levenshtein_cons u y a []).
      rewrite !levenshtein_nil_r. simpl length. rewrite !length_app. simpl length.
      destruct (Ascii.eqb x y), (Ascii.eqb u y); min_eq.
    + change ((u :: a) ++ [x]) with (u :: (a ++ [x])) in *.
      change ((v :: b) ++ [y]) with (v :: (b ++ [y])).
      rewrite (levenshtein_cons u v (a ++ [x]) (b ++ [y])).
      rewrite IHb.
      pose proof (IHa (v :: b)) as H1.
      change ((v :: b) ++ [y]) with (v :: (b ++ [y])) in H1. rewrite H1.
      rewrite (IHa b).
      rewrite (levenshtein_cons u v a (b ++ [y])).
      rewrite (levenshtein_cons u v (a ++ [x]) b).
      rewrite (levenshtein_cons u v a b).
      destruct (Ascii.eqb x y), (Ascii.eqb u v); min_eq.
Qed.

Lemma levenshtein_bound (a b : list ascii) :
  levenshtein a b <= Nat.max (length a) (length b).
Proof.
  revert b. induction a as [|x a IHa]; intros b.
  - rewrite levenshtein_nil_l. lia.
  - induction b as [|y b IHb].
    + rewrite levenshtein_nil_r. lia.
    + rewrite levenshtein_cons. specialize (IHa b). simpl length in *.
      destruct (Ascii.eqb x y); lia.
Qed.

Lemma fold_left_seq {A : Type} (P : nat -> A -> Prop) (f : A -> nat -> A)
    (n start : nat) (a : A) :
  P start a ->
  (forall k x, start <= k < start + n -> P k x -> P (S k) (f x k)) ->
  P (start + n) (fold_left f (seq start n) a).
Proof.
  revert start a. induction n as [|n IH]; intros start a Ha Hstep; simpl.
  - now rewrite Nat.add_0_r.
  - rewrite Nat.add_succ_r. apply (IH (S start)).
    + apply Hstep; [lia | assumption].
    + intros k x Hk. apply Hstep. lia.
Qed.

Section MatrixCorrect.

Variables s1 s2 : list ascii.

Local Abbreviation prefixDistance := (prefixDistance s1 s2).
Local Abbreviation wellShaped := (wellShaped s1 s2).
Local Abbreviation known := (known s1 s2).

Lemma known_weaken (m : Matrix) (P Q : nat -> nat -> Prop) :
  known m P ->
  (forall j i, j <= length s2 -> i <= length s1 -> Q j i -> P j i) ->
  known m Q.
Proof.
  intros [Hshape Hcells] Himp. split; [assumption|].
  intros j i Hj Hi HQ. apply Hcells; auto.
Qed.

Lemma wellShaped_empty : wellShaped (emptyMatrix s1 s2).
Proof.
  unfold emptyMatrix. split.
  - apply length_replicate.
  - intros j row Hrow. apply lookup_replicate in Hrow as [-> _].
    apply length_replicate.
Qed.

Lemma wellShaped_setCell (m : Matrix) (j i v : nat) :
  wellShaped m -> wellShaped (setCell m j i v).
Proof.
  intros [Hlen Hrows]. unfold setCell. split.
  - now rewrite length_alter.
  - intros j' row Hrow. destruct (Nat.eq_dec j j') as [<- | Hne].
    + rewrite list_lookup_alter_eq in Hrow.
      destruct (m !! j) as [row0|] eqn:Hrow0; simpl in Hrow; [|discriminate].
      injection Hrow as <-. rewrite length_insert. now apply (Hrows j).
    + rewrite list_lookup_alter_ne in Hrow by assumption. now apply (Hrows j').
Qed.

Lemma cell_setCell_eq (m : Matrix) (j i v : nat) :
  wellShaped m -> j <= length s2 -> i <= length s1 ->
  cell (setCell m j i v) j i = v.
Proof.
  intros [Hlen Hrows] Hj Hi. unfold cell, setCell.
  rewrite list_lookup_alter_eq.
  destruct (lookup_lt_is_Some_2 m j) as [row Hrow]; [lia|].
  rewrite Hrow. simpl.
  rewrite list_lookup_insert_eq; [reflexivity|].
  rewrite (Hrows j row Hrow). lia.
Qed.

Lemma cell_setCell_ne (m : Matrix) (j i v j' i' : nat) :
  j' <> j \/ i' <> i -> cell (setCell m j i v) j' i' = cell m j' i'.
Proof.
  intros Hne. unfold cell, setCell.
  destruct (Nat.eq_dec j j') as [<- | Hj].
  - rewrite list_lookup_alter_eq. destruct (m !! j) as [row|]; simpl; [|reflexivity].
    rewrite list_lookup_insert_ne; [reflexivity|]. destruct Hne; congruence.
  - now rewrite list_lookup_alter_ne.
Qed.

Lemma known_setCell (m : Matrix) (P : nat -> nat -> Prop) (j i v : nat) :
  known m P -> j <= length s2 -> i <= length s1 -> v = prefixDistance i j ->
  known (setCell m j i v) (fun j' i' => P j' i' \/ (j' = j /\ i' = i)).
Proof.
  intros [Hshape Hcells] Hj Hi ->. split; [now apply wellShaped_setCell|].
  intros j' i' Hj' Hi' HP.
  destruct (Nat.eq_dec j' j) as [-> | Hnej].
  - destruct (Nat.eq_dec i' i) as [-> | Hnei].
    + now apply cell_setCell_eq.
    + rewrite cell_setCell_ne by (now right).
      destruct HP as [HP | [_ Heq]]; [now apply Hcells | contradiction].
  - rewrite cell_setCell_ne by (now left).
    destruct HP as [HP | [Heq _]]; [now apply Hcells | contradiction].
Qed.

Lemma prefixDistance_0_l (j : nat) : j <= length s2 -> prefixDistance 0 j = j.
Proof.
  intros Hj. unfold prefixDistance. rewrite take_0, levenshtein_nil_l.
  now apply length_take_le.
Qed.

Lemma prefixDistance_0_r (i : nat) : i <= length s1 -> prefixDistance i 0 = i.
Proof.
  intros Hi. unfold prefixDistance. rewrite take_0, levenshtein_nil_r.
  now apply length_take_le.
Qed.

Lemma prefixDistance_step (i j : nat) :
  1 <= i <= length s1 -> 1 <= j <= length s2 ->
  prefixDistance i j
  = Nat.min (prefixDistance (i - 1) j + 1)
      (Nat.min (prefixDistance i (j - 1) + 1)
               (prefixDistance (i - 1) (j - 1) + indicator s1 s2 i j)).
Proof.
  intros Hi Hj. unfold prefixDistance, indicator.
  destruct i as [|i]; [lia|]. destruct j as [|j]; [lia|].
  replace (S i - 1) with i by lia. replace (S j - 1) with j by lia.
  destruct (lookup_lt_is_Some_2 s1 i) as [x Hx]; [lia|].
  destruct (lookup_lt_is_Some_2 s2 j) as [y Hy]; [lia|].
  rewrite Hx, Hy, (take_S_r s1 i x Hx), (take_S_r s2 j y Hy).
  apply levenshtein_snoc.
Qed.

Lemma firstRow_known :
  known (firstRow s1 (emptyMatrix s1 s2)) (fun j i => j = 0).
Proof.
  unfold firstRow.
  pose proof (fold_left_seq (fun k m => known m (fun j i => j = 0 /\ i < k))
                (fun m i => setCell m 0 i i) (length s1 + 1) 0
                (emptyMatrix s1 s2)) as Hloop.
  simpl in Hloop. eapply known_weaken; [apply Hloop|].
  - split; [apply wellShaped_empty|]. intros j i _ _ [_ Hlt]. lia.
  - intros k m Hk Hknown.
    eapply known_weaken.
    + apply (known_setCell m _ 0 k k Hknown); [lia | lia|].
      symmetry. apply prefixDistance_0_r. lia.
    + simpl. intros j i _ _ [-> Hi]. destruct (Nat.eq_dec i k); [now right | left; lia].
  - simpl. intros j i _ Hi ->. lia.
Qed.

Lemma firstColumn_known :
  known (firstColumn s2 (firstRow s1 (emptyMatrix s1 s2)))
        (fun j i => j = 0 \/ i = 0).
Proof.
  unfold firstColumn.
  pose proof (fold_left_seq
                (fun k m => known m (fun j i => j = 0 \/ (i = 0 /\ j < k)))
                (fun m j => setCell m j 0 j) (length s2 + 1) 0
                (firstRow s1 (emptyMatrix s1 s2))) as Hloop.
  simpl in Hloop. eapply known_weaken; [apply Hloop|].
  - eapply known_weaken; [apply firstRow_known|].
    simpl. intros j i _ _ [-> | [_ Hlt]]; [reflexivity | lia].
  - intros k m Hk Hknown.
    eapply known_weaken.
    + apply (known_setCell m _ k 0 k Hknown); [lia | lia|].
      symmetry. apply prefixDistance_0_l. lia.
    + simpl. intros j i _ _ [-> | [-> Hj]]; [left; now left|].
      destruct (Nat.eq_dec j k); [now right | left; right; lia].
  - simpl. intros j i Hj _ [-> | ->]; [now left | right; lia].
Qed.

Lemma fillRow_known (m : Matrix) (j : nat) :
  1 <= j <= length s2 ->
  known m (fun j' i' => j' < j \/ i' = 0) ->
  known (fillRow s1 s2 m j) (fun j' i' => j' < S j \/ i' = 0).
Proof.
  intros Hj Hknown. unfold fillRow.
  pose proof (fold_left_seq
                (fun k m => known m (fun j' i' => j' < j \/ i' = 0 \/ (j' = j /\ i' < k)))
                (fillCell s1 s2 j) (length s1) 1 m) as Hloop.
  eapply known_weaken; [apply Hloop|].
  - eapply known_weaken; [exact Hknown|].
    simpl. intros j' i' _ _ [Hlt | [-> | [_ Hi]]]; [now left | now right | right; lia].
  - intros k m' Hk Hknown'. unfold fillCell.
    eapply known_weaken.
    + apply (known_setCell m' _ j k _ Hknown'); [lia | lia|].
      destruct Hknown' as [_ Hcells].
      rewrite (Hcells j (k - 1)) by (try lia; right; right; lia).
      rewrite (Hcells (j - 1) k) by (try lia; left; lia).
      rewrite (Hcells (j - 1) (k - 1)) by (try lia; left; lia).
      symmetry. apply prefixDistance_step; lia.
    + simpl. intros j' i' _ _ [Hlt | [-> | [-> Hi]]];
        [left; now left | left; right; now left|].
      destruct (Nat.eq_dec i' k); [now right | left; right; right; lia].
  - simpl. intros j' i' _ Hi' [Hlt | ->]; [|right; now left].
    destruct (Nat.eq_dec j' j); [right; right; lia | left; lia].
Qed.

Lemma fillMatrix_known :
  known (fillMatrix s1 s2 (firstColumn s2 (firstRow s1 (emptyMatrix s1 s2))))
        (fun j i => True).
Proof.
  unfold fillMatrix.
  pose proof (fold_left_seq
                (fun k m => known m (fun j' i' => j' < k \/ i' = 0))
                (fillRow s1 s2) (length s2) 1
                (firstColumn s2 (firstRow s1 (emptyMatrix s1 s2)))) as Hloop.
  eapply known_weaken; [apply Hloop|].
  - eapply known_weaken; [apply firstColumn_known|].
    simpl. intros j i _ _ [Hlt | ->]; [left; lia | now right].
  - intros k m Hk Hknown. apply fillRow_known; [lia | assumption].
  - simpl. intros j i Hj _ _. left. lia.
Qed.

(** The matrix loops compute the Levenshtein distance. *)
Lemma distance_levenshtein : distance s1 s2 = levenshtein s1 s2.
Proof.
  unfold distance. destruct fillMatrix_known as [_ Hcells].
  rewrite Hcells by (try lia; exact I).
  unfold prefixDistance. now rewrite !take_ge by lia.
Qed.

End MatrixCorrect.

(** ** Similarity *)

Lemma startsWith_iff (s p : string) :
  Js.startsWith s p = true <-> exists after, s = (p ++ after)%string.
Proof.
  revert s. induction p as [|b p IH]; intros s; simpl.
  - split; [intros _; now exists s | reflexivity].
  - destruct s as [|a s].
    + split; [discriminate | intros [after Heq]; discriminate Heq].
    + rewrite andb_true_iff, IH. split.
      * intros [Hab [after ->]]. apply Ascii.eqb_eq in Hab. subst b. now exists after.
      * intros [after [= -> ->]]. split; [apply Ascii.eqb_refl | now exists after].
Qed.

Lemma includes_iff (s sub : string) :
  Js.includes s sub = true <-> isSubstring sub s.
Proof.
  unfold isSubstring. induction s as [|a s IH].
  - simpl. rewrite orb_false_r, startsWith_iff. split.
    + intros [after Heq]. now exists "", after.
    + intros [before [after Heq]]. destruct before; [now exists after | discriminate Heq].
  - simpl. rewrite orb_true_iff, startsWith_iff, IH. split.
    + intros [[after Heq] | [before [after Heq]]].
      * now exists "", after.
      * exists (String a before), after. simpl. now rewrite Heq.
    + intros [before [after Heq]]. destruct before as [|a' before].
      * left. now exists after.
      * right. simpl in Heq. injection Heq as -> ->. now exists before, after.
Qed.

Lemma length_list_ascii_of_string (s : string) :
  length (list_ascii_of_string s) = String.length s.
Proof. induction s as [|a s IH]; simpl; [reflexivity | now rewrite IH]. Qed.

(** The three stages of [calculateSimilarity], for every number type. *)
Lemma calculateSimilarity_stages {R : Type} `{Number R} (str1 str2 : string) :
  let s1 := normalize str1 in
  let s2 := normalize str2 in
  let d := levenshtein (list_ascii_of_string s1) (list_ascii_of_string s2) in
  let m := Nat.max (String.length s1) (String.length s2) in
  (s1 = s2 -> calculateSimilarity str1 str2 = n1)
  /\ (s1 <> s2 -> isSubstring s2 s1 \/ isSubstring s1 s2 ->
      calculateSimilarity str1 str2 = n0_8)
  /\ (s1 <> s2 -> ~ isSubstring s2 s1 -> ~ isSubstring s1 s2 ->
      0 < m /\ d <= m
      /\ calculateSimilarity str1 str2 = nsub n1 (ndiv (ofNat d) (ofNat m))).
Proof.
  cbv zeta. unfold calculateSimilarity. split; [|split].
  - intros ->. now rewrite String.eqb_refl.
  - intros Hne Hsub. rewrite (proj2 (String.eqb_neq _ _) Hne).
    destruct Hsub as [Hsub | Hsub]; apply includes_iff in Hsub; rewrite Hsub;
      [reflexivity | now rewrite orb_true_r].
  - intros Hne Hsub1 Hsub2. rewrite (proj2 (String.eqb_neq _ _) Hne).
    destruct (Js.includes (normalize str1) (normalize str2)) eqn:H1;
      [exfalso; apply Hsub1; now apply includes_iff|].
    destruct (Js.includes (normalize str2) (normalize str1)) eqn:H2;
      [exfalso; apply Hsub2; now apply includes_iff|].
    simpl. rewrite distance_levenshtein.
    assert (Hpos : 0 < Nat.max (String.length (normalize str1))
                               (String.length (normalize str2))).
    { destruct (normalize str1) as [|a s1'] eqn:Hs1; [|simpl; lia].
      destruct (normalize str2) as [|b s2'] eqn:Hs2; [congruence | simpl; lia]. }
    split; [exact Hpos|]. split.
    + rewrite <- !length_list_ascii_of_string. apply levenshtein_bound.
    + destruct (Nat.eqb_spec (Nat.max (String.length (normalize str1))
                                      (String.length (normalize str2))) 0);
        [lia | reflexivity].
Qed.

(** C5. [calculateSimilarity] follows the staged definition: 1 when the
    normalized strings are equal (both empty included), 0.8 when they
    differ and one contains the other, and otherwise 1 minus the
    Levenshtein distance of the normalized strings over the larger of their
    lengths, which is then positive; and the value, computed exactly, lies
    between 0 and 1. *)
Theorem calculateSimilarity_staged (str1 str2 : string) :
  let s1 := normalize str1 in
  let s2 := normalize str2 in
  let d := levenshtein (list_ascii_of_string s1) (list_ascii_of_string s2) in
  let m := Nat.max (String.length s1) (String.length s2) in
  (0 <= calculateSimilarity (R:=Q) str1 str2 <= 1)%Q
  /\ (s1 = s2 -> calculateSimilarity (R:=Q) str1 str2 = 1%Q)
  /\ (s1 <> s2 -> isSubstring s2 s1 \/ isSubstring s1 s2 ->
      calculateSimilarity (R:=Q) str1 str2 = (8 # 10)%Q)
  /\ (s1 <> s2 -> ~ isSubstring s2 s1 -> ~ isSubstring s1 s2 ->
      0 < m
      /\ calculateSimilarity (R:=Q) str1 str2
         = (1 - inject_Z (Z.of_nat d) / inject_Z (Z.of_nat m))%Q)
  /\ (forall (R : Type) (N : Number R),
        (s1 = s2 -> calculateSimilarity (R:=R) str1 str2 = n1)
        /\ (s1 <> s2 -> isSubstring s2 s1 \/ isSubstring s1 s2 ->
            calculateSimilarity (R:=R) str1 str2 = n0_8)
        /\ (s1 <> s2 -> ~ isSubstring s2 s1 -> ~ isSubstring s1 s2 ->
            calculateSimilarity (R:=R) str1 str2
            = nsub n1 (ndiv (ofNat d) (ofNat m)))).
Proof.
  cbv zeta.
  pose proof (calculateSimilarity_stages (R:=Q) str1 str2) as (Hq1 & Hq2 & Hq3).
  cbv zeta in Hq1, Hq2, Hq3.
  split; [|split; [exact Hq1|split; [exact Hq2|split]]].
  - destruct (string_dec (normalize str1) (normalize str2)) as [Heq | Hne].
    { rewrite (Hq1 Heq). simpl. split; discriminate. }
    destruct (Js.includes (normalize str1) (normalize str2)) eqn:H1.
    { rewrite (Hq2 Hne (or_introl (proj1 (includes_iff _ _) H1))). simpl.
      split; discriminate. }
    destruct (Js.includes (normalize str2) (normalize str1)) eqn:H2.
    { rewrite (Hq2 Hne (or_intror (proj1 (includes_iff _ _) H2))). simpl.
      split; discriminate. }
    destruct (Hq3 Hne) as (Hpos & Hle & ->).
    { intros Hsub. apply includes_iff in Hsub. congruence. }
    { intros Hsub. apply includes_iff in Hsub. congruence. }
    simpl nsub. simpl ndiv. simpl ofNat. simpl n1.
    set (d := levenshtein _ _) in *. set (m := Nat.max _ _) in *.
    assert (Hm : (0 < inject_Z (Z.of_nat m))%Q).
    { change 0%Q with (inject_Z 0). rewrite <- Zlt_Qlt. lia. }
    assert (Hd0 : (0 <= inject_Z (Z.of_nat d))%Q).
    { change 0%Q with (inject_Z 0). rewrite <- Zle_Qle. lia. }
    assert (Hdm : (inject_Z (Z.of_nat d) <= inject_Z (Z.of_nat m))%Q).
    { rewrite <- Zle_Qle. lia. }
    assert (Hq0 : (0 <= inject_Z (Z.of_nat d) / inject_Z (Z.of_nat m))%Q).
    { apply Qle_shift_div_l; [exact Hm|]. now rewrite Qmult_0_l. }
    assert (Hq1' : (inject_Z (Z.of_nat d) / inject_Z (Z.of_nat m) <= 1)%Q).
    { apply Qle_shift_div_r; [exact Hm|]. now rewrite Qmult_1_l. }
    split.
    + apply (Qplus_le_r _ _ (inject_Z (Z.of_nat d) / inject_Z (Z.of_nat m))).
      ring_simplify. exact Hq1'.
    + apply (Qplus_le_r _ _ (inject_Z (Z.of_nat d) / inject_Z (Z.of_nat m) - 1)).
      ring_simplify. exact Hq0.
  - intros Hne Hs1 Hs2. destruct (Hq3 Hne Hs1 Hs2) as (Hpos & _ & Heq).
    split; [exact Hpos | exact Heq].
  - intros R N.
    pose proof (calculateSimilarity_stages (R:=R) str1 str2) as (H1 & H2 & H3).
    cbv zeta in H1, H2, H3.
    split; [exact H1 | split; [exact H2|]].
    intros Hne Hs1 Hs2. now destruct (H3 Hne Hs1 Hs2) as (_ & _ & Heq).
Qed.

Lemma calculateSimilarity_staged_witness :
  (normalize "Road Tax" = normalize "road-tax"
   /\ calculateSimilarity (R:=Q) "Road Tax" "road-tax" = 1%Q)
  /\ (normalize "Road Tax" <> normalize "tax"
      /\ isSubstring (normalize "tax") (normalize "Road Tax")
      /\ calculateSimilarity (R:=Q) "Road Tax" "tax" = (8 # 10)%Q)
  /\ (normalize "kitten" <> normalize "sitting"
      /\ ~ isSubstring (normalize "sitting") (normalize "kitten")
      /\ ~ isSubstring (normalize "kitten") (normalize "sitting")
      /\ calculateSimilarity (R:=Q) "kitten" "sitting"
         = (1 - inject_Z (Z.of_nat
                   (levenshtein (list_ascii_of_string (normalize "kitten"))
                                (list_ascii_of_string (normalize "sitting"))))
                / inject_Z (Z.of_nat
                   (Nat.max (String.length (normalize "kitten"))
                            (String.length (normalize "sitting")))))%Q
      /\ (calculateSimilarity (R:=Q) "kitten" "sitting" == 4 # 7)%Q).
Proof.
  assert (Heq : normalize "Road Tax" = normalize "road-tax")
    by (vm_compute; reflexivity).
  assert (Hne : normalize "Road Tax" <> normalize "tax")
    by (vm_compute; discriminate).
  assert (Hsub : isSubstring (normalize "tax") (normalize "Road Tax"))
    by (apply includes_iff; vm_compute; reflexivity).
  assert (Hne' : normalize "kitten" <> normalize "sitting")
    by (vm_compute; discriminate).
  assert (Hno1 : ~ isSubstring (normalize "sitting") (normalize "kitten")).
  { intros Hs. apply includes_iff in Hs. vm_compute in Hs. discriminate Hs. }
  assert (Hno2 : ~ isSubstring (normalize "kitten") (normalize "sitting")).
  { intros Hs. apply includes_iff in Hs. vm_compute in Hs. discriminate Hs. }
  split; [|split].
  - exact (conj Heq
             (proj1 (proj2 (calculateSimilarity_staged "Road Tax" "road-tax")) Heq)).
  - exact (conj Hne (conj Hsub
             (proj1 (proj2 (proj2 (calculateSimilarity_staged "Road Tax" "tax")))
                    Hne (or_introl Hsub)))).
  - assert (Hvalue : (calculateSimilarity (R:=Q) "kitten" "sitting" == 4 # 7)%Q)
      by (vm_compute; reflexivity).
    exact (conj Hne' (conj Hno1 (conj Hno2 (conj
             (proj2 (proj1 (proj2 (proj2 (proj2
                (calculateSimilarity_staged "kitten" "sitting"))))
                Hne' Hno1 Hno2))
             Hvalue)))).
Defined.

(** The third stage in binary64: 1 - 3/7. *)
Example calculateSimilarity_binary64 :
  calculateSimilarity (R:=float) "kitten" "sitting"
  = PrimFloat.sub PrimFloat.one
      (PrimFloat.div (PrimFloat.of_uint63 3) (PrimFloat.of_uint63 7)).
Proof. vm_compute. reflexivity. Qed.

(** ** Exact matches come first *)

Lemma cleanedMatch_forms (field : BusinessField) (column : string) :
  cleanedMatch field column = true <-> In (normalize column) (cleanedForms field).
Proof.
  unfold cleanedMatch, cleanedForms, normalize. rewrite orb_true_iff, !String.eqb_eq.
  simpl. intuition congruence.
Qed.

Lemma sameField_eq (f g : BusinessField) : sameField f g = true -> f = g.
Proof.
  destruct f as [kf lf], g as [kg lg]. unfold sameField. simpl.
  intros Heq. apply andb_true_iff in Heq as [Hk Hl].
  apply String.eqb_eq in Hk, Hl. now subst.
Qed.

Lemma separatedCatalog_forms (fields : list BusinessField) (f : BusinessField)
    (column : string) :
  separatedCatalog fields = true -> In f fields ->
  cleanedMatch f column = true -> column <> "".
Proof.
  unfold separatedCatalog. intros Hsep Hf Hmatch.
  rewrite forallb_forall in Hsep. specialize (Hsep f Hf).
  apply andb_true_iff in Hsep as [Hforms _].
  rewrite forallb_forall in Hforms.
  apply cleanedMatch_forms in Hmatch. specialize (Hforms _ Hmatch).
  apply truthy_nonempty in Hforms. intros ->. now apply Hforms.
Qed.

Lemma separatedCatalog_unique (fields : list BusinessField) (f g : BusinessField)
    (column : string) :
  separatedCatalog fields = true -> In f fields -> In g fields ->
  cleanedMatch f column = true -> cleanedMatch g column = true -> f = g.
Proof.
  unfold separatedCatalog. intros Hsep Hf Hg Hmf Hmg.
  rewrite forallb_forall in Hsep. specialize (Hsep f Hf).
  apply andb_true_iff in Hsep as [_ Hothers].
  rewrite forallb_forall in Hothers. specialize (Hothers g Hg).
  apply orb_true_iff in Hothers as [Hsame | Hdisj]; [now apply sameField_eq|].
  rewrite forallb_forall in Hdisj.
  apply cleanedMatch_forms in Hmf, Hmg.
  specialize (Hdisj _ Hmf). apply negb_true_iff in Hdisj.
  apply arrayIncludes_In in Hmg. congruence.
Qed.

Lemma NoDup_map_filter {A B : Type} (f : A -> B) (p : A -> bool) (l : list A) :
  List.NoDup (map f l) -> List.NoDup (map f (List.filter p l)).
Proof.
  induction l as [|a l IH]; simpl; intros Hnd; [constructor|].
  apply NoDup_cons_iff in Hnd as [Hfresh Hnd].
  destruct (p a); simpl; [|now apply IH].
  constructor; [|now apply IH].
  intros Hin. apply Hfresh. apply in_map_iff in Hin as [x [Hx Hin]].
  apply filter_In in Hin as [Hin _]. apply in_map_iff. now exists x.
Qed.

Lemma NoDup_keys_split (l : list BusinessField) (f : BusinessField) :
  List.NoDup (map key l) -> In f l ->
  exists before after,
    l = before ++ f :: after
    /\ (forall g, In g before -> key g <> key f)
    /\ (forall g, In g after -> key g <> key f).
Proof.
  intros Hnd Hin. apply in_split in Hin as (before & after & ->).
  exists before, after. split; [reflexivity|].
  rewrite map_app in Hnd. simpl in Hnd. apply NoDup_remove_2 in Hnd.
  split; intros g Hg Heq; apply Hnd; apply in_or_app; [left | right];
    rewrite <- Heq; now apply in_map.
Qed.

Section Precedence.

Context {R : Type} `{Number R}.

Variable fields : list BusinessField.
Variable columnNames : list string.

Hypothesis Hkeys : List.NoDup (map key fields).
Hypothesis Hsep : separatedCatalog fields = true.

Local Abbreviation cleanedOnly := (cleanedOnly fields).
Local Abbreviation wellFormed := (wellFormed (accepted (R:=R)) fields columnNames).

Lemma claim_frame (st : State) (g : BusinessField) (c k : string) :
  key g <> k -> Js.get (mappings (claim st g c)) k = Js.get (mappings st) k.
Proof.
  intros Hne. simpl. rewrite get_set.
  now rewrite (proj2 (String.eqb_neq _ _) Hne).
Qed.

Lemma claim_get (st : State) (g : BusinessField) (c : string) :
  Js.get (mappings (claim st g c)) (key g) = Some c.
Proof. simpl. rewrite get_set. now rewrite String.eqb_refl. Qed.

Lemma claim_mapped (st : State) (g : BusinessField) (c k c' : string) :
  Js.get (mappings st) k = Some c' ->
  exists c'', Js.get (mappings (claim st g c)) k = Some c''.
Proof.
  intros Hget. simpl. rewrite get_set.
  destruct (key g =? k)%string; eauto.
Qed.

Lemma exactStep_frame (st : State) (g : BusinessField) (k : string) :
  key g <> k ->
  Js.get (mappings (exactStep columnNames st g)) k = Js.get (mappings st) k.
Proof.
  intros Hne. unfold exactStep.
  destruct (find (exactMatch g) columnNames) as [c|]; [|reflexivity].
  destruct (Js.truthy c && negb (Js.has (usedColumns st) c)); [|reflexivity].
  now apply claim_frame.
Qed.

Lemma cleanedStep_frame (st : State) (g : BusinessField) (k : string) :
  key g <> k ->
  Js.get (mappings (cleanedStep columnNames st g)) k = Js.get (mappings st) k.
Proof.
  intros Hne. unfold cleanedStep.
  destruct (find _ columnNames) as [c|]; [|reflexivity].
  destruct (Js.truthy c); [|reflexivity].
  now apply claim_frame.
Qed.

Lemma similarityStep_frame (st : State) (g : BusinessField) (k : string) :
  key g <> k ->
  Js.get (mappings (similarityStep columnNames st g)) k = Js.get (mappings st) k.
Proof.
  intros Hne. unfold similarityStep.
  destruct (findBestMatch g _) as [c|]; [|reflexivity].
  destruct (Js.truthy c); [|reflexivity].
  now apply claim_frame.
Qed.

Lemma fold_frame (step : State -> BusinessField -> State) (k : string) :
  (forall st g, key g <> k ->
                Js.get (mappings (step st g)) k = Js.get (mappings st) k) ->
  forall l st, (forall g, In g l -> key g <> k) ->
               Js.get (mappings (fold_left step l st)) k = Js.get (mappings st) k.
Proof.
  intros Hstep l. induction l as [|g l IH]; intros st Hl; simpl; [reflexivity|].
  rewrite IH by (intros g' Hg'; apply Hl; now right).
  apply Hstep, Hl. now left.
Qed.

Lemma cleanedOnly_initial : cleanedOnly initial.
Proof. intros c []. Qed.

Lemma cleanedOnly_claim (st : State) (g : BusinessField) (c : string) :
  cleanedOnly st -> In g fields -> cleanedMatch g c = true ->
  cleanedOnly (claim st g c).
Proof.
  intros Hinv Hg Hmatch c' Hin. simpl in Hin. apply In_add in Hin as [-> | Hin].
  - exists g. repeat split; trivial. exists c. apply claim_get.
  - destruct (Hinv c' Hin) as (g' & Hg' & Hmatch' & c'' & Hget).
    exists g'. repeat split; trivial. now apply (claim_mapped st g c _ c'').
Qed.

Lemma cleanedOnly_exactStep (st : State) (g : BusinessField) :
  In g fields -> cleanedOnly st -> cleanedOnly (exactStep columnNames st g).
Proof.
  intros Hg Hinv. unfold exactStep.
  destruct (find (exactMatch g) columnNames) as [c|] eqn:Hfind; [|assumption].
  destruct (Js.truthy c && negb (Js.has (usedColumns st) c)); [|assumption].
  apply find_some in Hfind as [_ Hex].
  apply cleanedOnly_claim; trivial. now apply exactMatch_cleanedMatch.
Qed.

Lemma cleanedOnly_cleanedStep (st : State) (g : BusinessField) :
  In g fields -> cleanedOnly st -> cleanedOnly (cleanedStep columnNames st g).
Proof.
  intros Hg Hinv. unfold cleanedStep.
  destruct (find _ columnNames) as [c|] eqn:Hfind; [|assumption].
  destruct (Js.truthy c); [|assumption].
  apply find_some in Hfind as [_ Htest].
  destruct (Js.has (usedColumns st) c); [discriminate|].
  now apply cleanedOnly_claim.
Qed.

(** A column that matches an unmapped field is still free. *)
Lemma unmapped_unused (st : State) (f : BusinessField) (c : string) :
  cleanedOnly st -> In f fields -> Js.get (mappings st) (key f) = None ->
  cleanedMatch f c = true -> Js.has (usedColumns st) c = false.
Proof.
  intros Hinv Hf Hnone Hmatch. apply has_false. intros Hused.
  destruct (Hinv c Hused) as (g & Hg & Hmatch' & c' & Hget).
  rewrite (separatedCatalog_unique fields f g c Hsep Hf Hg Hmatch Hmatch') in Hnone.
  congruence.
Qed.

Lemma exactStep_at (st : State) (f : BusinessField) :
  cleanedOnly st -> In f fields -> Js.get (mappings st) (key f) = None ->
  Js.get (mappings (exactStep columnNames st f)) (key f)
  = find (exactMatch f) columnNames.
Proof.
  intros Hinv Hf Hnone. unfold exactStep.
  destruct (find (exactMatch f) columnNames) as [c|] eqn:Hfind; [|assumption].
  apply find_some in Hfind as [_ Hex].
  pose proof (exactMatch_cleanedMatch f c Hex) as Hcl.
  rewrite (unmapped_unused st f c Hinv Hf Hnone Hcl).
  rewrite (proj2 (truthy_nonempty c) (separatedCatalog_forms fields f c Hsep Hf Hcl)).
  simpl. apply claim_get.
Qed.

Lemma cleanedStep_at (st : State) (f : BusinessField) :
  cleanedOnly st -> In f fields -> Js.get (mappings st) (key f) = None ->
  Js.get (mappings (cleanedStep columnNames st f)) (key f)
  = find (cleanedMatch f) columnNames.
Proof.
  intros Hinv Hf Hnone. unfold cleanedStep.
  rewrite (find_ext _ (cleanedMatch f) columnNames).
  - destruct (find (cleanedMatch f) columnNames) as [c|] eqn:Hfind; [|assumption].
    apply find_some in Hfind as [_ Hcl].
    rewrite (proj2 (truthy_nonempty c) (separatedCatalog_forms fields f c Hsep Hf Hcl)).
    apply claim_get.
  - intros col _. destruct (cleanedMatch f col) eqn:Hcl.
    + now rewrite (unmapped_unused st f col Hinv Hf Hnone Hcl).
    + now destruct (Js.has (usedColumns st) col).
Qed.

Lemma firstPass_cleanedOnly : cleanedOnly (firstPass fields columnNames).
Proof.
  unfold firstPass. apply (fold_left_invariant cleanedOnly).
  - apply cleanedOnly_initial.
  - intros st g Hg. now apply cleanedOnly_exactStep.
Qed.

Lemma firstPass_at (f : BusinessField) :
  In f fields ->
  Js.get (mappings (firstPass fields columnNames)) (key f)
  = find (exactMatch f) columnNames.
Proof.
  intros Hf. unfold firstPass.
  destruct (NoDup_keys_split fields f Hkeys Hf)
    as (before & after & Hsplit & Hbefore & Hafter).
  assert (Hsub : forall g, In g before -> In g fields).
  { intros g Hg. rewrite Hsplit. apply in_or_app. now left. }
  rewrite Hsplit at 1. rewrite fold_left_app. simpl.
  rewrite (fold_frame _ (key f) (fun st g => exactStep_frame st g (key f)))
    by assumption.
  apply exactStep_at; trivial.
  - apply (fold_left_invariant cleanedOnly); [apply cleanedOnly_initial|].
    intros st g Hg. apply cleanedOnly_exactStep. now apply Hsub.
  - now rewrite (fold_frame _ (key f) (fun st g => exactStep_frame st g (key f))).
Qed.

Lemma unset_None (st : State) (k : string) :
  wellFormed st ->
  Js.unset (mappings st) k = true <-> Js.get (mappings st) k = None.
Proof.
  intros Hwf. unfold Js.unset.
  destruct (Js.get (mappings st) k) as [c|] eqn:Hget; [|tauto].
  destruct Hwf as [_ _ _ Hcols _].
  destruct (Hcols k c (get_In _ _ _ Hget)) as [_ Hne].
  apply truthy_nonempty in Hne. rewrite Hne. simpl. split; discriminate.
Qed.

Lemma secondPass_at (f : BusinessField) :
  In f fields ->
  Js.get (mappings (secondPass fields columnNames)) (key f)
  = firstChoice f columnNames.
Proof.
  intros Hf. unfold secondPass, firstChoice.
  pose proof (firstPass_at f Hf) as Hfirst.
  pose proof (firstPass_wellFormed fields columnNames) as Hwf.
  destruct (find (exactMatch f) columnNames) as [c|] eqn:Hfind.
  - rewrite (fold_frame _ (key f) (fun st g => cleanedStep_frame st g (key f)));
      [assumption|].
    intros g Hg Heq. unfold unmapped in Hg. apply filter_In in Hg as [_ Hunset].
    rewrite Heq in Hunset. apply (unset_None _ _ Hwf) in Hunset. congruence.
  - assert (Hin : In f (unmapped fields (firstPass fields columnNames))).
    { unfold unmapped. apply filter_In. split; [assumption|].
      now apply (unset_None _ _ Hwf). }
    assert (Hnd : List.NoDup (map key (unmapped fields (firstPass fields columnNames))))
      by (unfold unmapped; now apply NoDup_map_filter).
    destruct (NoDup_keys_split _ f Hnd Hin)
      as (before & after & Hsplit & Hbefore & Hafter).
    assert (Hsub : forall g, In g before -> In g fields).
    { intros g Hg. apply (unmapped_In fields (firstPass fields columnNames)).
      rewrite Hsplit. apply in_or_app. now left. }
    rewrite Hsplit. rewrite fold_left_app. simpl.
    rewrite (fold_frame _ (key f) (fun st g => cleanedStep_frame st g (key f)))
      by assumption.
    apply cleanedStep_at; trivial.
    + apply (fold_left_invariant cleanedOnly); [apply firstPass_cleanedOnly|].
      intros st g Hg. apply cleanedOnly_cleanedStep. now apply Hsub.
    + now rewrite (fold_frame _ (key f) (fun st g => cleanedStep_frame st g (key f))).
Qed.

Lemma thirdPass_at (f : BusinessField) (c : string) :
  Js.get (mappings (secondPass fields columnNames)) (key f) = Some c ->
  Js.get (reconcile fields columnNames) (key f) = Some c.
Proof.
  intros Hget. unfold reconcile, thirdPass.
  rewrite (fold_frame _ (key f) (fun st g => similarityStep_frame st g (key f)));
    [assumption|].
  intros g Hg Heq. unfold sortedFields in Hg.
  apply (Permutation_in _ (Permutation_sym (sortFields_perm _))) in Hg.
  unfold unmapped in Hg. apply filter_In in Hg as [_ Hunset].
  rewrite Heq in Hunset.
  apply (unset_None _ _ (secondPass_wellFormed fields columnNames)) in Hunset.
  congruence.
Qed.

Lemma firstChoice_Some (f : BusinessField) (column : string) :
  In column columnNames -> cleanedMatch f column = true ->
  exists chosen, firstChoice f columnNames = Some chosen
                 /\ In chosen columnNames /\ cleanedMatch f chosen = true.
Proof.
  intros Hin Hmatch. unfold firstChoice.
  destruct (find (exactMatch f) columnNames) as [c|] eqn:Hexact.
  - apply find_some in Hexact as [Hc Hex]. exists c.
    repeat split; trivial. now apply exactMatch_cleanedMatch.
  - destruct (find (cleanedMatch f) columnNames) as [c|] eqn:Hcleaned.
    + apply find_some in Hcleaned as [Hc Hcl]. now exists c.
    + pose proof (find_none _ _ Hcleaned column Hin). congruence.
Qed.

(** A field that some column matches after normalization ends up with its
    first choice, whatever the other columns score. *)
Lemma reconcile_firstChoice (f : BusinessField) (column : string) :
  In f fields -> In column columnNames -> cleanedMatch f column = true ->
  Js.get (reconcile fields columnNames) (key f) = firstChoice f columnNames.
Proof.
  intros Hf Hin Hmatch.
  destruct (firstChoice_Some f column Hin Hmatch) as (chosen & Hchoice & _ & _).
  rewrite Hchoice. apply thirdPass_at. now rewrite secondPass_at.
Qed.

End Precedence.

Lemma distinct_NoDup (xs : list string) : distinct xs = true -> List.NoDup xs.
Proof.
  induction xs as [|x r IH]; simpl; intros Hd; [constructor|].
  apply andb_true_iff in Hd as [Hx Hr]. constructor; [|now apply IH].
  intros Hin. apply arrayIncludes_In in Hin. rewrite Hin in Hx. discriminate.
Qed.

Lemma BUSINESS_FIELDS_keys : List.NoDup (map key BUSINESS_FIELDS).
Proof. apply distinct_NoDup. vm_compute. reflexivity. Qed.

Lemma BUSINESS_FIELDS_separated : separatedCatalog BUSINESS_FIELDS = true.
Proof. vm_compute. reflexivity. Qed.

(** C2, the claim as stated fails: with the columns "Insurance" and
    "INSURANCE" both normalized texts equal the normalized key of the field
    [insurance], and the field is mapped to the first of them only. *)
Lemma exact_precedence_counterexample :
  In insurance BUSINESS_FIELDS
  /\ In "INSURANCE" ["Insurance"; "INSURANCE"]
  /\ normalize "INSURANCE" = normalize (key insurance)
  /\ Js.get (autoMapColumns (R:=Q) ["Insurance"; "INSURANCE"]) (key insurance)
     = Some "Insurance"
  /\ Js.get (autoMapColumns (R:=Q) ["Insurance"; "INSURANCE"]) (key insurance)
     <> Some "INSURANCE".
Proof.
  split; [vm_compute; tauto|].
  split; [right; left; reflexivity|].
  split; [vm_compute; reflexivity|].
  split; [vm_compute; reflexivity|].
  vm_compute. discriminate.
Qed.

(** The same run with binary64 scores. *)
Example exact_precedence_binary64 :
  autoMapColumns (R:=float) ["Insurance"; "INSURANCE"]
  = autoMapColumns (R:=Q) ["Insurance"; "INSURANCE"].
Proof. vm_compute. reflexivity. Qed.

(** The three-pass copy: when the normalized text of some column equals
    the normalized key or the normalized label of a field, [autoMapColumns]
    maps that field to its first choice, whatever any column scores in the
    fuzzy pass. *)
Lemma threePass_precedence {R : Type} `{Number R}
    (columnNames : list string) (field : BusinessField) (column : string) :
  In field BUSINESS_FIELDS -> In column columnNames ->
  In (normalize column) (cleanedForms field) ->
  Js.get (autoMapColumns columnNames) (key field) = firstChoice field columnNames
  /\ (exists chosen,
        firstChoice field columnNames = Some chosen
        /\ In chosen columnNames
        /\ In (normalize chosen) (cleanedForms field))
  /\ ((forall other, In other columnNames ->
                     In (normalize other) (cleanedForms field) -> other = column) ->
      Js.get (autoMapColumns columnNames) (key field) = Some column).
Proof.
  intros Hfield Hin Hforms. apply cleanedMatch_forms in Hforms.
  pose proof (reconcile_firstChoice BUSINESS_FIELDS columnNames
                BUSINESS_FIELDS_keys BUSINESS_FIELDS_separated
                field column Hfield Hin Hforms) as Hget.
  destruct (firstChoice_Some columnNames field column Hin Hforms)
    as (chosen & Hchoice & Hchosen & Hmatch).
  unfold autoMapColumns. split; [exact Hget|]. split.
  - exists chosen. repeat split; trivial. now apply cleanedMatch_forms.
  - intros Hunique. rewrite Hget, Hchoice. f_equal.
    apply Hunique; [assumption | now apply cleanedMatch_forms].
Qed.

(** ** The copy of the page in [src/app/page.tsx] *)

Section PageTsxFacts.

Context {R : Type} `{Number R}.

Variable fields : list BusinessField.
Variable columnNames : list string.

Local Abbreviation sound := (wellFormed (fun _ _ => True) fields columnNames).

Lemma pageTsx_findBestMatch_In (field : BusinessField) (pool : list string)
    (column : string) :
  PageTsx.findBestMatch field pool = Some column ->
  In column pool /\ column <> "".
Proof.
  unfold PageTsx.findBestMatch. intros Hbest.
  destruct (Js.truthy _) eqn:Htruthy; [|discriminate].
  injection Hbest as <-. apply truthy_nonempty in Htruthy.
  split; [|assumption].
  assert (Hloop : fst (fold_left (PageTsx.scoreStep field) pool ("", n0)) = ""
                  \/ In (fst (fold_left (PageTsx.scoreStep field) pool ("", n0))) pool).
  { apply (fold_left_invariant (fun best : string * R =>
             fst best = "" \/ In (fst best) pool)); [now left|].
    intros best c Hc Hbest. unfold PageTsx.scoreStep.
    destruct (nlt (snd best) (PageTsx.score field c)
              && nle PageTsx.threshold (PageTsx.score field c));
      [right; exact Hc | exact Hbest]. }
  destruct Hloop as [Hnone | Hin]; [contradiction | exact Hin].
Qed.

Lemma pageTsx_exactStep_sound (st : State) (field : BusinessField) :
  In field fields -> sound st -> sound (PageTsx.exactStep columnNames st field).
Proof.
  intros Hfield Hwf. unfold PageTsx.exactStep.
  destruct (find _ columnNames) as [c|] eqn:Hfind; [|assumption].
  destruct (Js.truthy c && negb (Js.has (usedColumns st) c)) eqn:Hguard; [|assumption].
  apply andb_true_iff in Hguard as [Htruthy Hfree].
  apply find_some in Hfind as [Hin _].
  apply wellFormed_claim; try assumption; trivial.
  - now apply truthy_nonempty.
  - apply has_false. now apply negb_true_iff.
Qed.

Lemma pageTsx_similarityStep_sound (st : State) (field : BusinessField) :
  In field fields -> sound st ->
  sound (PageTsx.similarityStep columnNames st field).
Proof.
  intros Hfield Hwf. unfold PageTsx.similarityStep.
  destruct (PageTsx.findBestMatch field _) as [c|] eqn:Hbest; [|assumption].
  destruct (Js.truthy c) eqn:Htruthy; [|assumption].
  apply pageTsx_findBestMatch_In in Hbest as [Hin Hne].
  apply filter_In in Hin as [Hin Hfree].
  apply wellFormed_claim; try assumption; trivial.
  apply has_false. now apply negb_true_iff.
Qed.

(** X20. The mapping of the engine of [src/app/page.tsx] is injective and
    well-formed too: its columns are pairwise distinct, its keys are keys of
    the catalog and its values are columns of the input. *)
Lemma pageTsx_reconcile_sound :
  List.NoDup (Js.values (PageTsx.reconcile fields columnNames))
  /\ (forall k, In k (Js.keys (PageTsx.reconcile fields columnNames)) ->
                exists field, In field fields /\ key field = k)
  /\ (forall column, In column (Js.values (PageTsx.reconcile fields columnNames)) ->
                     In column columnNames).
Proof.
  assert (Hwf : sound (fold_left (PageTsx.similarityStep columnNames)
                         (PageTsx.sortedFields fields columnNames)
                         (PageTsx.firstPass fields columnNames))).
  { apply (fold_left_invariant (wellFormed (fun _ _ => True) fields columnNames)).
    - unfold PageTsx.firstPass.
      apply (fold_left_invariant (wellFormed (fun _ _ => True) fields columnNames));
        [apply wellFormed_initial|].
      intros st field Hin. now apply pageTsx_exactStep_sound.
    - intros st field Hin. apply pageTsx_similarityStep_sound.
      unfold PageTsx.sortedFields in Hin.
      apply (Permutation_in _ (Permutation_sym (sortFields_perm _))) in Hin.
      now apply unmapped_In in Hin. }
  destruct Hwf as [_ Hvalues _ Hcols Hfields]. unfold PageTsx.reconcile.
  split; [exact Hvalues|]. split.
  - intros k Hin. apply in_map_iff in Hin as [[k' c] [<- Hin]].
    destruct (Hfields k' c Hin) as (field & Hfield & Hkey & _). eauto.
  - intros column Hin. apply in_map_iff in Hin as [[k c] [<- Hin]].
    now destruct (Hcols k c Hin).
Qed.

End PageTsxFacts.

(** In this copy a score of 0.375 is accepted, the threshold being 0.3;
    the three-pass version rejects it. *)
Example pageTsx_threshold :
  (PageTsx.score (R:=Q) stateSubsidy "Quantity" == 3 # 8)%Q
  /\ PageTsx.findBestMatch (R:=Q) stateSubsidy ["Quantity"] = Some "Quantity"
  /\ findBestMatch (R:=Q) stateSubsidy ["Quantity"] = None.
Proof. repeat split; vm_compute; reflexivity. Qed.

(** In this copy no column is skipped: a header containing "product" is
    scored and returned. *)
Example pageTsx_no_denylist :
  unrelated "Product subsidy" = true
  /\ PageTsx.findBestMatch (R:=Q) stateSubsidy ["Product subsidy"]
     = Some "Product subsidy"
  /\ findBestMatch (R:=Q) stateSubsidy ["Product subsidy"] = None.
Proof. repeat split; vm_compute; reflexivity. Qed.

(** * Further properties *)

(** ** Similarity: symmetry and the value 1 *)

Lemma levenshtein_sym (a b : list ascii) : levenshtein a b = levenshtein b a.
Proof.
  revert b. induction a as [|x a IHa]; intros b.
  - now rewrite levenshtein_nil_l, levenshtein_nil_r.
  - induction b as [|y b IHb].
    + now rewrite levenshtein_nil_l, levenshtein_nil_r.
    + rewrite !levenshtein_cons, IHb, (IHa (y :: b)), (IHa b), (Ascii.eqb_sym y x).
      destruct (Ascii.eqb x y); lia.
Qed.

Lemma levenshtein_zero (a b : list ascii) : levenshtein a b = 0 <-> a = b.
Proof.
  revert b. induction a as [|x a IHa]; intros b.
  - rewrite levenshtein_nil_l. destruct b; simpl; split; congruence.
  - destruct b as [|y b].
    + rewrite levenshtein_nil_r. simpl. split; congruence.
    + rewrite levenshtein_cons. split.
      * intros Hzero.
        assert (Hdiag : levenshtein a b = 0 /\ Ascii.eqb x y = true)
          by (destruct (Ascii.eqb x y); split; try reflexivity; lia).
        destruct Hdiag as [Hab Hxy]. apply IHa in Hab. apply Ascii.eqb_eq in Hxy.
        now subst.
      * intros [= -> ->]. rewrite Ascii.eqb_refl.
        rewrite (proj2 (IHa b) eq_refl). lia.
Qed.

Lemma list_ascii_of_string_inj (s t : string) :
  list_ascii_of_string s = list_ascii_of_string t -> s = t.
Proof.
  intros Heq. rewrite <- (string_of_list_ascii_of_string s),
    <- (string_of_list_ascii_of_string t). now rewrite Heq.
Qed.

(** X1. Whatever the number type, the similarity of two texts does not
    depend on their order. *)
Theorem calculateSimilarity_symmetric {R : Type} `{Number R} (str1 str2 : string) :
  calculateSimilarity str1 str2 = calculateSimilarity str2 str1.
Proof.
  unfold calculateSimilarity.
  rewrite (String.eqb_sym (normalize str2) (normalize str1)).
  rewrite (orb_comm (Js.includes (normalize str2) (normalize str1))).
  rewrite !distance_levenshtein.
  rewrite (levenshtein_sym (list_ascii_of_string (normalize str2))).
  rewrite (Nat.max_comm (String.length (normalize str2))).
  reflexivity.
Qed.

(** Bounds of the similarity in exact arithmetic. *)
Lemma calculateSimilarity_bounds (str1 str2 : string) :
  (0 <= calculateSimilarity (R:=Q) str1 str2 <= 1)%Q
  /\ (normalize str1 <> normalize str2 ->
      (calculateSimilarity (R:=Q) str1 str2 < 1)%Q).
Proof.
  pose proof (calculateSimilarity_stages (R:=Q) str1 str2) as (H1 & H2 & H3).
  cbv zeta in H1, H2, H3.
  destruct (string_dec (normalize str1) (normalize str2)) as [Heq | Hne].
  { rewrite (H1 Heq). simpl. split; [split; discriminate | congruence]. }
  destruct (Js.includes (normalize str1) (normalize str2)) eqn:Hi1.
  { rewrite (H2 Hne (or_introl (proj1 (includes_iff _ _) Hi1))). simpl.
    split; [split; discriminate | reflexivity]. }
  destruct (Js.includes (normalize str2) (normalize str1)) eqn:Hi2.
  { rewrite (H2 Hne (or_intror (proj1 (includes_iff _ _) Hi2))). simpl.
    split; [split; discriminate | reflexivity]. }
  destruct (H3 Hne) as (Hpos & Hle & ->).
  { intros Hsub. apply includes_iff in Hsub. congruence. }
  { intros Hsub. apply includes_iff in Hsub. congruence. }
  simpl nsub. simpl ndiv. simpl ofNat. simpl n1.
  assert (Hd : 0 < levenshtein (list_ascii_of_string (normalize str1))
                               (list_ascii_of_string (normalize str2))).
  { destruct (levenshtein _ _) eqn:Hlev; [|lia].
    apply levenshtein_zero, list_ascii_of_string_inj in Hlev. contradiction. }
  set (d := levenshtein _ _) in *. set (m := Nat.max _ _) in *.
  assert (Hm : (0 < inject_Z (Z.of_nat m))%Q).
  { change 0%Q with (inject_Z 0). rewrite <- Zlt_Qlt. lia. }
  assert (Hd0 : (0 < inject_Z (Z.of_nat d))%Q).
  { change 0%Q with (inject_Z 0). rewrite <- Zlt_Qlt. lia. }
  assert (Hdm : (inject_Z (Z.of_nat d) <= inject_Z (Z.of_nat m))%Q).
  { rewrite <- Zle_Qle. lia. }
  assert (Hq0 : (0 < inject_Z (Z.of_nat d) / inject_Z (Z.of_nat m))%Q).
  { apply Qlt_shift_div_l; [exact Hm|]. now rewrite Qmult_0_l. }
  assert (Hq1 : (inject_Z (Z.of_nat d) / inject_Z (Z.of_nat m) <= 1)%Q).
  { apply Qle_shift_div_r; [exact Hm|]. now rewrite Qmult_1_l. }
  split; [split|intros _]; lra.
Qed.

(** X2. In exact arithmetic the similarity is 1 exactly when the two texts
    have the same normalized form. *)
Theorem calculateSimilarity_one_iff (str1 str2 : string) :
  (calculateSimilarity (R:=Q) str1 str2 == 1)%Q
  <-> normalize str1 = normalize str2.
Proof.
  split.
  - intros Hone.
    destruct (string_dec (normalize str1) (normalize str2)) as [Heq | Hne];
      [assumption|].
    pose proof (proj2 (calculateSimilarity_bounds str1 str2) Hne) as Hlt.
    rewrite Hone in Hlt. discriminate Hlt.
  - intros Heq.
    rewrite (proj1 (calculateSimilarity_stages (R:=Q) str1 str2) Heq).
    reflexivity.
Qed.

(** ** The normalizer and the keywords *)

Lemma lowerChar_idempotent (c : ascii) :
  Js.lowerChar (Js.lowerChar c) = Js.lowerChar c.
Proof. destruct c as [[] [] [] [] [] [] [] []]; vm_compute; reflexivity. Qed.

Lemma lowerChar_alnum (c : ascii) :
  Js.isLowerAlnum c = true -> Js.lowerChar c = c.
Proof.
  destruct c as [[] [] [] [] [] [] [] []]; vm_compute; intros Hc;
    first [reflexivity | discriminate Hc].
Qed.

Lemma lowerChar_word (c : ascii) :
  Js.isWord (Js.lowerChar c) = true -> isKeywordChar (Js.lowerChar c) = true.
Proof.
  destruct c as [[] [] [] [] [] [] [] []]; vm_compute; intros Hc;
    first [reflexivity | discriminate Hc].
Qed.

Lemma toLowerCase_idempotent (s : string) :
  Js.toLowerCase (Js.toLowerCase s) = Js.toLowerCase s.
Proof.
  induction s as [|c s IH]; simpl; [reflexivity|].
  now rewrite lowerChar_idempotent, IH.
Qed.

Lemma stripNonAlnum_alnum (s : string) :
  allChars Js.isLowerAlnum (Js.stripNonAlnum s) = true.
Proof.
  induction s as [|c s IH]; simpl; [reflexivity|].
  destruct (Js.isLowerAlnum c) eqn:Hc; simpl; [now rewrite Hc|assumption].
Qed.

Lemma normalize_fixed (s : string) :
  allChars Js.isLowerAlnum s = true -> normalize s = s.
Proof.
  unfold normalize. induction s as [|c s IH]; simpl; [reflexivity|].
  intros Hall. apply andb_true_iff in Hall as [Hc Hs].
  rewrite (lowerChar_alnum c Hc), Hc, (IH Hs). reflexivity.
Qed.

(** X3. The normalized form of a text holds only the characters a-z and
    0-9, normalizing it again changes nothing, and lower-casing a text
    first does not change its normalized form. *)
Theorem normalize_canonical (s : string) :
  allChars Js.isLowerAlnum (normalize s) = true
  /\ normalize (normalize s) = normalize s
  /\ normalize (Js.toLowerCase s) = normalize s.
Proof.
  split; [apply stripNonAlnum_alnum|]. split.
  - apply normalize_fixed, stripNonAlnum_alnum.
  - unfold normalize. now rewrite toLowerCase_idempotent.
Qed.

Lemma splitSpaces_tokens (p : ascii -> bool) (s : string) (afterSpace : bool)
    (w : string) :
  allChars (fun c => Js.isSpace c || p c) s = true ->
  In w (Js.splitSpaces afterSpace s) -> allChars p w = true.
Proof.
  revert afterSpace w. induction s as [|c s IH]; intros afterSpace w Hall Hin.
  - simpl in Hin. destruct Hin as [<- | []]. reflexivity.
  - simpl in Hall. apply andb_true_iff in Hall as [Hc Hs]. simpl in Hin.
    destruct (Js.isSpace c) eqn:Hspace.
    + destruct afterSpace.
      * now apply (IH true).
      * destruct Hin as [<- | Hin]; [reflexivity | now apply (IH true)].
    + simpl in Hc.
      destruct (Js.splitSpaces false s) as [|w0 ws] eqn:Hsplit.
      * destruct Hin as [<- | []]. simpl. now rewrite Hc.
      * destruct Hin as [<- | Hin].
        -- simpl. rewrite Hc. apply (IH false); [assumption|].
           rewrite Hsplit. now left.
        -- apply (IH false); [assumption|]. rewrite Hsplit. now right.
Qed.

Lemma blankNonWord_lower (s : string) :
  allChars (fun c => Js.isSpace c || isKeywordChar c)
           (Js.blankNonWord (Js.toLowerCase s)) = true.
Proof.
  induction s as [|c s IH]; simpl; [reflexivity|].
  rewrite IH, andb_true_r.
  destruct (Js.isWord (Js.lowerChar c)) eqn:Hword; simpl.
  - rewrite (lowerChar_word c Hword). apply orb_true_r.
  - destruct (Js.isSpace (Js.lowerChar c)) eqn:Hspace; simpl.
    + now rewrite Hspace.
    + reflexivity.
Qed.

(** X4. Every keyword has at least three code units, all of them among
    a-z, 0-9 and the underscore: no white space, punctuation or upper-case
    letter survives. *)
Theorem getKeywords_shape (text word : string) :
  In word (getKeywords text) ->
  3 <= String.length word /\ allChars isKeywordChar word = true.
Proof.
  unfold getKeywords. intros Hin. apply filter_In in Hin as [Hin Hlen].
  apply Nat.ltb_lt in Hlen. split; [lia|].
  apply (splitSpaces_tokens isKeywordChar _ false word (blankNonWord_lower text) Hin).
Qed.

Lemma getKeywords_shape_witness :
  In "road" (getKeywords "RTO - Road safety tax / CESS.")
  /\ 3 <= String.length "road" /\ allChars isKeywordChar "road" = true.
Proof.
  assert (Hin : In "road" (getKeywords "RTO - Road safety tax / CESS."))
    by (vm_compute; right; left; reflexivity).
  exact (conj Hin (getKeywords_shape _ _ Hin)).
Defined.

(** ** The fuzzy pass: the range of a score and the best column *)

Lemma Q_nlt (a b : Q) : nlt a b = true <-> (a < b)%Q.
Proof.
  simpl. rewrite negb_true_iff. split.
  - intros Hle. apply Qnot_le_lt. intros Hba.
    apply Qle_bool_iff in Hba. congruence.
  - intros Hlt. destruct (Qle_bool b a) eqn:Hle; [|reflexivity].
    apply Qle_bool_iff in Hle. exfalso. now apply (Qlt_not_le a b).
Qed.

Lemma Q_nlt_false (a b : Q) : nlt a b = false <-> (b <= a)%Q.
Proof.
  simpl. rewrite negb_false_iff. apply Qle_bool_iff.
Qed.

Lemma Q_nle (a b : Q) : nle a b = true <-> (a <= b)%Q.
Proof. simpl. apply Qle_bool_iff. Qed.

Lemma Q_nle_false (a b : Q) : nle a b = false <-> (b < a)%Q.
Proof.
  simpl. split.
  - intros Hle. apply Qnot_le_lt. intros Hab.
    apply Qle_bool_iff in Hab. congruence.
  - intros Hlt. destruct (Qle_bool a b) eqn:Hle; [|reflexivity].
    apply Qle_bool_iff in Hle. exfalso. now apply (Qlt_not_le b a).
Qed.

Lemma mathMax_bounds (lo hi a b : Q) :
  (lo <= a <= hi)%Q -> (lo <= b <= hi)%Q -> (lo <= mathMax a b <= hi)%Q.
Proof. intros Ha Hb. unfold mathMax. destruct (nlt a b); assumption. Qed.

Lemma keywordStep_bounds (columnLower : string) (columnKeywords : list string)
    (ks : Q) (fieldKeyword : string) :
  (0 <= ks <= 1)%Q ->
  (0 <= keywordStep columnLower columnKeywords ks fieldKeyword <= 1)%Q.
Proof.
  intros Hks. unfold keywordStep.
  assert (Hinner : (0 <= fold_left (fun ks0 colKeyword =>
                            mathMax ks0 (calculateSimilarity fieldKeyword colKeyword))
                          columnKeywords ks <= 1)%Q).
  { apply (fold_left_invariant (fun q : Q => (0 <= q <= 1)%Q)); [assumption|].
    intros q colKeyword _ Hq. apply mathMax_bounds; [assumption|].
    apply calculateSimilarity_bounds. }
  destruct (Js.includes columnLower fieldKeyword); [|assumption].
  apply mathMax_bounds; [assumption|]. simpl. split; discriminate.
Qed.

Lemma baseScore_bounds (field : BusinessField) (column : string) :
  (0 <= baseScore (R:=Q) field column <= 1)%Q.
Proof.
  unfold baseScore. repeat apply mathMax_bounds.
  - simpl. split; discriminate.
  - apply calculateSimilarity_bounds.
  - apply calculateSimilarity_bounds.
  - apply (fold_left_invariant (fun q : Q => (0 <= q <= 1)%Q)).
    + simpl. split; discriminate.
    + intros q fieldKeyword _ Hq. now apply keywordStep_bounds.
Qed.

Lemma boost_bounds (fieldKey columnLower : string) (tokens : list string) (s : Q) :
  (s <= fold_left (boost fieldKey columnLower) tokens s
     <= s + (2 # 10) * inject_Z (Z.of_nat (length tokens)))%Q.
Proof.
  revert s. induction tokens as [|t tokens IH]; intros s.
  - cbn [fold_left length]. change (inject_Z (Z.of_nat 0)) with 0%Q. split; lra.
  - cbn [fold_left length]. rewrite Nat2Z.inj_succ, <- Z.add_1_r, inject_Z_plus.
    specialize (IH (boost fieldKey columnLower s t)).
    assert (Hstep : (s <= boost fieldKey columnLower s t <= s + (2 # 10))%Q).
    { unfold boost. destruct (_ && _); simpl; split; lra. }
    change (inject_Z 1) with 1%Q. split; lra.
Qed.

Lemma boost_none (fieldKey columnLower : string) (tokens : list string) (s : Q) :
  (forall token, In token tokens ->
     Js.includes fieldKey token && Js.includes columnLower token = false) ->
  fold_left (boost fieldKey columnLower) tokens s = s.
Proof.
  revert s. induction tokens as [|t tokens IH]; intros s Hnone; [reflexivity|].
  simpl. unfold boost at 2. rewrite (Hnone t (or_introl eq_refl)).
  apply IH. intros token Hin. apply Hnone. now right.
Qed.

(** X5. In exact arithmetic a fuzzy score lies between 0 and 2.2; it never
    exceeds 1 unless a boost token occurs both in the lower-cased key and in
    the lower-cased header. *)
Theorem fuzzyScore_range (field : BusinessField) (column : string) :
  (0 <= fuzzyScore (R:=Q) field column)%Q
  /\ (fuzzyScore (R:=Q) field column < 22 # 10)%Q
  /\ ((forall token, In token boostTokens ->
         Js.includes (Js.toLowerCase (key field)) token
         && Js.includes (Js.toLowerCase column) token = false) ->
      (fuzzyScore (R:=Q) field column <= 1)%Q).
Proof.
  pose proof (baseScore_bounds field column) as [Hlo Hhi].
  unfold fuzzyScore.
  destruct (_ || _ || _ || _).
  { simpl. split; [discriminate|]. split; [reflexivity|]. intros _. discriminate. }
  destruct (nlt (baseScore field column) n0_8) eqn:Hcmp.
  - apply Q_nlt in Hcmp. simpl in Hcmp.
    pose proof (boost_bounds (Js.toLowerCase (key field)) (Js.toLowerCase column)
                  boostTokens (baseScore field column)) as [Hb1 Hb2].
    change (inject_Z (Z.of_nat (length boostTokens))) with 7%Q in Hb2.
    split; [lra|]. split; [lra|].
    intros Hnone. rewrite (boost_none _ _ _ _ Hnone). assumption.
  - split; [assumption|]. split; [lra | intros _; assumption].
Qed.

Lemma fuzzyScore_range_witness :
  (forall token, In token boostTokens ->
     Js.includes (Js.toLowerCase (key stateSubsidy)) token
     && Js.includes (Js.toLowerCase "Quantity") token = false)
  /\ (fuzzyScore (R:=Q) stateSubsidy "Quantity" <= 1)%Q.
Proof.
  assert (Hnone : forall token, In token boostTokens ->
            Js.includes (Js.toLowerCase (key stateSubsidy)) token
            && Js.includes (Js.toLowerCase "Quantity") token = false).
  { intros token Hin. unfold boostTokens in Hin. simpl in Hin.
    repeat (destruct Hin as [<- | Hin]; [vm_compute; reflexivity|]).
    destruct Hin. }
  exact (conj Hnone
           (proj2 (proj2 (fuzzyScore_range stateSubsidy "Quantity")) Hnone)).
Defined.

Lemma ordered_Q (numbers : list Q) : ordered numbers.
Proof.
  split; [|split].
  - intros a b _ _. simpl. now rewrite negb_involutive.
  - intros a b _ _ Hab. apply Q_nlt in Hab. apply Q_nlt_false. lra.
  - intros a b c _ _ _ Hab. apply Q_nlt in Hab.
    destruct (Qlt_le_dec a c) as [Hac | Hca].
    + left. now apply Q_nlt.
    + right. apply Q_nlt. lra.
Qed.

Section OrderedFacts.

Context {R : Type} `{Number R}.

Lemma orderedb_ordered (numbers : list R) :
  orderedb numbers = true -> ordered numbers.
Proof.
  unfold orderedb. intros Hall.
  assert (Hpair : forall a b, In a numbers -> In b numbers ->
            Bool.eqb (nle a b) (negb (nlt b a)) = true
            /\ (negb (nlt a b) || negb (nlt b a) = true)
            /\ forall c, In c numbers ->
                         negb (nlt a b) || nlt a c || nlt c b = true).
  { intros a b Ha Hb.
    pose proof (proj1 (forallb_forall _ _) Hall a Ha) as Hrow. simpl in Hrow.
    pose proof (proj1 (forallb_forall _ _) Hrow b Hb) as Hcell. simpl in Hcell.
    apply andb_true_iff in Hcell as [Hcell Hthird].
    apply andb_true_iff in Hcell as [Hdual Hasym].
    split; [assumption|]. split; [assumption|].
    intros c Hc. exact (proj1 (forallb_forall _ _) Hthird c Hc). }
  split; [|split].
  - intros a b Ha Hb. destruct (Hpair a b Ha Hb) as (Hdual & _ & _).
    now apply Bool.eqb_prop.
  - intros a b Ha Hb Hab. destruct (Hpair a b Ha Hb) as (_ & Hasym & _).
    rewrite Hab in Hasym. simpl in Hasym. now apply negb_true_iff.
  - intros a b c Ha Hb Hc Hab. destruct (Hpair a b Ha Hb) as (_ & _ & Hthird).
    specialize (Hthird c Hc). rewrite Hab in Hthird. simpl in Hthird.
    now apply orb_true_iff in Hthird.
Qed.

Lemma ordered_incl (small big : list R) :
  (forall a, In a small -> In a big) -> ordered big -> ordered small.
Proof.
  intros Hincl (Hdual & Hasym & Hcotrans). split; [|split].
  - intros a b Ha Hb. apply Hdual; now apply Hincl.
  - intros a b Ha Hb. apply Hasym; now apply Hincl.
  - intros a b c Ha Hb Hc. apply Hcotrans; now apply Hincl.
Qed.

Lemma compared_incl (field : BusinessField) (small big : list string) :
  (forall c, In c small -> In c big) ->
  forall a, In a (compared field small) -> In a (compared field big).
Proof.
  intros Hincl a [<- | [<- | Hin]]; [now left | right; now left|].
  right. right. apply in_map_iff in Hin as [c [<- Hc]].
  apply in_map. now apply Hincl.
Qed.

End OrderedFacts.

Section FuzzyLoop.

Context {R : Type} `{Number R}.

Variable field : BusinessField.
Variable pool : list string.

Hypothesis Hordered : ordered (compared field pool).
Hypothesis Hzero : nlt n0 threshold = true.

Local Abbreviation score := (fuzzyScore field).
Local Abbreviation bestSoFar := (bestSoFar field).

Lemma compared_threshold : In threshold (compared field pool).
Proof. now left. Qed.

Lemma compared_zero : In n0 (compared field pool).
Proof. right. now left. Qed.

Lemma compared_score (c : string) : In c pool -> In (score c) (compared field pool).
Proof. intros Hc. right. right. now apply in_map. Qed.

Lemma below_threshold (c : string) :
  In c pool -> nle threshold (score c) = false <-> nlt (score c) threshold = true.
Proof.
  intros Hc. destruct Hordered as (Hdual & _ & _).
  rewrite (Hdual _ _ compared_threshold (compared_score c Hc)).
  apply negb_false_iff.
Qed.

Lemma reaches_threshold (c : string) :
  In c pool -> nle threshold (score c) = true <-> nlt (score c) threshold = false.
Proof.
  intros Hc. destruct Hordered as (Hdual & _ & _).
  rewrite (Hdual _ _ compared_threshold (compared_score c Hc)).
  apply negb_true_iff.
Qed.

(** A column that beats the best so far beats all that the best beats. *)
Lemma beats_earlier (seen : list string) (best : string * R) (x : string) :
  In x pool -> (forall c, In c seen -> In c pool) ->
  bestSoFar seen best ->
  nlt (snd best) (score x) = true -> nle threshold (score x) = true ->
  forall c, In c seen -> unrelated c = false -> nlt (score c) (score x) = true.
Proof.
  intros Hx Hseen Hbest Hgt Hok c Hc Hcun.
  pose proof Hordered as (Hdual & Hasym & Hcotrans).
  pose proof (compared_score x Hx) as Hsx.
  pose proof (compared_score c (Hseen c Hc)) as Hsc.
  destruct Hbest as [(_ & _ & Hlow)
                     | (before & after & Hsplit & _ & Hsnd & _ & _ & Hbefore & Hafter)].
  - pose proof (proj1 (below_threshold c (Hseen c Hc)) (Hlow c Hc Hcun)) as Hct.
    destruct (Hcotrans _ _ (score x) Hsc compared_threshold Hsx Hct) as [Hcx | Hxt];
      [assumption|].
    apply (below_threshold x Hx) in Hxt. congruence.
  - rewrite Hsnd in Hgt.
    assert (Hb : In (fst best) pool)
      by (apply Hseen; rewrite Hsplit; apply in_or_app; right; now left).
    pose proof (compared_score _ Hb) as Hsb.
    rewrite Hsplit in Hc. apply in_app_or in Hc as [Hc | [<- | Hc]].
    + destruct (Hcotrans _ _ (score x) Hsc Hsb Hsx (Hbefore c Hc Hcun)) as [Hcx | Hxb];
        [assumption|].
      rewrite (Hasym _ _ Hsb Hsx Hgt) in Hxb. discriminate.
    + assumption.
    + destruct (Hcotrans _ _ (score c) Hsb Hsx Hsc Hgt) as [Hbc | Hcx];
        [|assumption].
      rewrite (Hafter c Hc Hcun) in Hbc. discriminate.
Qed.

Lemma fuzzyStep_bestSoFar (seen : list string) (best : string * R) (x : string) :
  x <> "" -> In x pool -> (forall c, In c seen -> In c pool) ->
  bestSoFar seen best ->
  bestSoFar (seen ++ [x]) (fuzzyStep field best x).
Proof.
  intros Hne Hx Hseen Hbest. unfold fuzzyStep.
  pose proof Hordered as (Hdual & Hasym & Hcotrans).
  pose proof (compared_score x Hx) as Hsx.
  destruct (unrelated x) eqn:Hskip.
  { destruct Hbest as [(Hnone & Hstart & Hlow)
                       | (before & after & Hsplit & Hb & Hsnd & Hun & Hge & Hbefore & Hafter)].
    - left. split; [assumption|]. split; [assumption|]. intros c Hc Hcun.
      apply in_app_or in Hc as [Hc | [<- | []]]; [now apply Hlow | congruence].
    - right. exists before, (after ++ [x]).
      split; [rewrite Hsplit, <- app_assoc; reflexivity|].
      split; [assumption|]. split; [assumption|]. split; [assumption|].
      split; [assumption|]. split; [assumption|].
      intros c Hc Hcun.
      apply in_app_or in Hc as [Hc | [<- | []]]; [now apply Hafter | congruence]. }
  destruct (nlt (snd best) (score x) && nle threshold (score x)) eqn:Hcmp.
  - apply andb_true_iff in Hcmp as [Hgt Hok].
    right. exists seen, []. cbn [fst snd].
    split; [reflexivity|]. split; [assumption|]. split; [reflexivity|].
    split; [assumption|]. split; [assumption|].
    split; [now apply (beats_earlier seen best x) | intros c []].
  - apply andb_false_iff in Hcmp.
    destruct Hbest as [(Hnone & Hstart & Hlow)
                       | (before & after & Hsplit & Hb & Hsnd & Hun & Hge & Hbefore & Hafter)].
    + left. split; [assumption|]. split; [assumption|]. intros c Hc Hcun.
      apply in_app_or in Hc as [Hc | [<- | []]]; [now apply Hlow|].
      destruct Hcmp as [Hcmp | Hcmp]; [|assumption].
      rewrite Hstart in Hcmp. apply (below_threshold x Hx).
      destruct (Hcotrans _ _ (score x) compared_zero compared_threshold Hsx Hzero)
        as [Hzx | Hxt]; [congruence | assumption].
    + assert (Hbin : In (fst best) pool)
        by (apply Hseen; rewrite Hsplit; apply in_or_app; right; now left).
      pose proof (compared_score _ Hbin) as Hsb.
      right. exists before, (after ++ [x]).
      split; [rewrite Hsplit, <- app_assoc; reflexivity|].
      split; [assumption|]. split; [assumption|]. split; [assumption|].
      split; [assumption|]. split; [assumption|].
      intros c Hc Hcun.
      apply in_app_or in Hc as [Hc | [<- | []]]; [now apply Hafter|].
      rewrite Hsnd in Hcmp. destruct Hcmp as [Hcmp | Hcmp]; [assumption|].
      apply (below_threshold x Hx) in Hcmp.
      apply (reaches_threshold _ Hbin) in Hge.
      destruct (nlt (score (fst best)) (score x)) eqn:Hbx; [|reflexivity].
      destruct (Hcotrans _ _ threshold Hsb Hsx compared_threshold Hbx) as [Hbt | Htx];
        [congruence|].
      rewrite (Hasym _ _ compared_threshold Hsx Htx) in Hcmp. discriminate.
Qed.

Lemma fuzzyLoop_bestSoFar (rest seen : list string) (best : string * R) :
  ~ In "" rest -> (forall c, In c (seen ++ rest) -> In c pool) ->
  bestSoFar seen best ->
  bestSoFar (seen ++ rest) (fold_left (fuzzyStep field) rest best).
Proof.
  revert seen best.
  induction rest as [|x rest IH]; intros seen best Hrest Hsub Hbest.
  - simpl. now rewrite app_nil_r.
  - simpl. replace (seen ++ x :: rest) with ((seen ++ [x]) ++ rest) in *
      by (rewrite <- app_assoc; reflexivity).
    apply IH.
    + intros Hin. apply Hrest. now right.
    + assumption.
    + apply fuzzyStep_bestSoFar; [| | |assumption].
      * intros ->. apply Hrest. now left.
      * apply Hsub. apply in_or_app. left. apply in_or_app. right. now left.
      * intros c Hc. apply Hsub. apply in_or_app. left. apply in_or_app. now left.
Qed.

Lemma fuzzyPass_bestSoFar :
  ~ In "" pool ->
  bestSoFar pool (fold_left (fuzzyStep field) pool ("", n0)).
Proof.
  intros Hpool.
  apply (fuzzyLoop_bestSoFar pool [] ("", n0) Hpool); [trivial|].
  left. split; [reflexivity|]. split; [reflexivity|]. intros c [].
Qed.

Lemma fuzzyPass_None :
  ~ In "" pool -> fuzzyPass field pool = None ->
  forall c, In c pool -> unrelated c = false ->
            nle threshold (score c) = false.
Proof.
  intros Hpool Hpass. unfold fuzzyPass in Hpass.
  destruct (fuzzyPass_bestSoFar Hpool) as [(_ & _ & Hlow) | (_ & _ & _ & Hne & _)];
    [exact Hlow|].
  rewrite (proj2 (truthy_nonempty _) Hne) in Hpass. discriminate.
Qed.

End FuzzyLoop.

(** X6. On a pool without an empty header, for every number type whose
    comparisons order the numbers compared (the threshold, 0 and the scores
    of the pool), the fuzzy pass returns the column with the highest score
    among the columns it does not skip, the earliest one when several share
    that score, provided the score reaches the threshold; it returns
    nothing exactly when no such column reaches the threshold. *)
Theorem fuzzyPass_picks_best {R : Type} `{Number R}
    (field : BusinessField) (pool : list string) :
  ~ In "" pool -> ordered (compared field pool) -> nlt n0 threshold = true ->
  (forall column,
     fuzzyPass field pool = Some column ->
     exists before after,
       pool = before ++ column :: after
       /\ unrelated column = false
       /\ nle threshold (fuzzyScore field column) = true
       /\ (forall c, In c before -> unrelated c = false ->
                     nlt (fuzzyScore field c) (fuzzyScore field column) = true)
       /\ (forall c, In c after -> unrelated c = false ->
                     nlt (fuzzyScore field column) (fuzzyScore field c) = false))
  /\ (fuzzyPass field pool = None <->
      forall c, In c pool -> unrelated c = false ->
                nle threshold (fuzzyScore field c) = false).
Proof.
  intros Hpool Hordered Hzero. split.
  - intros column Hpass. unfold fuzzyPass in Hpass.
    destruct (fuzzyPass_bestSoFar field pool Hordered Hzero Hpool)
      as [(Hnone & _ & _)
          | (before & after & Hsplit & Hne & _ & Hun & Hge & Hbefore & Hafter)].
    + rewrite Hnone in Hpass. discriminate Hpass.
    + rewrite (proj2 (truthy_nonempty _) Hne) in Hpass. injection Hpass as <-.
      exists before, after. repeat split; assumption.
  - split.
    + now apply fuzzyPass_None.
    + intros Hlow. unfold fuzzyPass. now rewrite (fuzzyLoop_below field pool Hlow).
Qed.

Lemma fuzzyPass_picks_best_witness :
  (~ In "" ["Subsidy"; "Quantity"; "State subsidy"]
   /\ ordered (compared (R:=Q) stateSubsidy ["Subsidy"; "Quantity"; "State subsidy"])
   /\ nlt (R:=Q) n0 threshold = true
   /\ fuzzyPass (R:=Q) stateSubsidy ["Subsidy"; "Quantity"; "State subsidy"]
      = Some "Subsidy"
   /\ exists before after,
        ["Subsidy"; "Quantity"; "State subsidy"] = before ++ "Subsidy" :: after
        /\ unrelated "Subsidy" = false
        /\ nle threshold (fuzzyScore (R:=Q) stateSubsidy "Subsidy") = true
        /\ (forall c, In c before -> unrelated c = false ->
                      nlt (fuzzyScore (R:=Q) stateSubsidy c)
                          (fuzzyScore (R:=Q) stateSubsidy "Subsidy") = true)
        /\ (forall c, In c after -> unrelated c = false ->
                      nlt (fuzzyScore (R:=Q) stateSubsidy "Subsidy")
                          (fuzzyScore (R:=Q) stateSubsidy c) = false))
  /\ (~ In "" ["ataqq"; "taxcd"]
      /\ ordered (compared (R:=float) taxField ["ataqq"; "taxcd"])
      /\ nlt (R:=float) n0 threshold = true
      /\ fuzzyPass (R:=float) taxField ["ataqq"; "taxcd"] = Some "taxcd"
      /\ exists before after,
           ["ataqq"; "taxcd"] = before ++ "taxcd" :: after
           /\ unrelated "taxcd" = false
           /\ nle threshold (fuzzyScore (R:=float) taxField "taxcd") = true
           /\ (forall c, In c before -> unrelated c = false ->
                         nlt (fuzzyScore (R:=float) taxField c)
                             (fuzzyScore (R:=float) taxField "taxcd") = true)
           /\ (forall c, In c after -> unrelated c = false ->
                         nlt (fuzzyScore (R:=float) taxField "taxcd")
                             (fuzzyScore (R:=float) taxField c) = false)).
Proof.
  assert (Hpool : ~ In "" ["Subsidy"; "Quantity"; "State subsidy"]).
  { intros [Heq | [Heq | [Heq | []]]]; discriminate Heq. }
  assert (Hzero : nlt (R:=Q) n0 threshold = true) by reflexivity.
  assert (Hpass : fuzzyPass (R:=Q) stateSubsidy ["Subsidy"; "Quantity"; "State subsidy"]
                  = Some "Subsidy") by (vm_compute; reflexivity).
  assert (Hpool64 : ~ In "" ["ataqq"; "taxcd"]).
  { intros [Heq | [Heq | []]]; discriminate Heq. }
  assert (Hcheck64 : orderedb (compared (R:=float) taxField ["ataqq"; "taxcd"]) = true)
    by (vm_compute; reflexivity).
  assert (Hzero64 : nlt (R:=float) n0 threshold = true) by (vm_compute; reflexivity).
  assert (Hpass64 : fuzzyPass (R:=float) taxField ["ataqq"; "taxcd"] = Some "taxcd")
    by (vm_compute; reflexivity).
  split.
  - exact (conj Hpool (conj (ordered_Q _) (conj Hzero (conj Hpass
             (proj1 (fuzzyPass_picks_best stateSubsidy _ Hpool (ordered_Q _) Hzero)
                    "Subsidy" Hpass))))).
  - exact (conj Hpool64 (conj (orderedb_ordered _ Hcheck64) (conj Hzero64 (conj Hpass64
             (proj1 (fuzzyPass_picks_best taxField _ Hpool64
                       (orderedb_ordered _ Hcheck64) Hzero64)
                    "taxcd" Hpass64))))).
Defined.

(** The two number types on a tie: 0.4 + 0.2 is 0.6 in exact arithmetic,
    where the earlier column keeps the tie, and more than 0.6 in binary64,
    where the later column wins; the comparisons order the numbers compared
    in both. *)
Example fuzzyPass_tie_binary64 :
  fuzzyPass (R:=Q) taxField ["ataqq"; "taxcd"] = Some "ataqq"
  /\ fuzzyPass (R:=float) taxField ["ataqq"; "taxcd"] = Some "taxcd"
  /\ orderedb (compared (R:=float) taxField ["ataqq"; "taxcd"]) = true
  /\ nlt (R:=float) n0 threshold = true.
Proof. repeat split; vm_compute; reflexivity. Qed.

Lemma includes_empty (s : string) : Js.includes s "" = true.
Proof. destruct s; reflexivity. Qed.

(** X7. An empty header in front of the pool takes the score 0.8 and is then
    discarded, so the fuzzy pass returns nothing when no other column
    scores more than 0.8. *)
Theorem fuzzyPass_empty_header (field : BusinessField) (pool : list string) :
  (forall c, In c pool -> unrelated c = false ->
             (fuzzyScore (R:=Q) field c <= 8 # 10)%Q) ->
  fuzzyPass (R:=Q) field ("" :: pool) = None.
Proof.
  intros Hlow. unfold fuzzyPass. cbn [fold_left].
  assert (Hfirst : fuzzyStep (R:=Q) field ("", n0) "" = ("", (8 # 10)%Q)).
  { unfold fuzzyStep. change (unrelated "") with false. cbv iota.
    unfold fuzzyScore. change (Js.toLowerCase "") with "".
    rewrite includes_empty. reflexivity. }
  rewrite Hfirst.
  assert (Hkeep : fold_left (fuzzyStep field) pool ("", (8 # 10)%Q)
                  = ("", (8 # 10)%Q)).
  { apply (fold_left_invariant (fun best : string * Q => best = ("", (8 # 10)%Q)));
      [reflexivity|].
    intros best c Hc ->. unfold fuzzyStep.
    destruct (unrelated c) eqn:Hun; [reflexivity|].
    specialize (Hlow c Hc Hun). apply Q_nlt_false in Hlow.
    cbn [snd]. now rewrite Hlow. }
  rewrite Hkeep. reflexivity.
Qed.

Lemma fuzzyPass_empty_header_witness :
  (forall c, In c ["Subsidy"] -> unrelated c = false ->
             (fuzzyScore (R:=Q) stateSubsidy c <= 8 # 10)%Q)
  /\ fuzzyPass (R:=Q) stateSubsidy [""; "Subsidy"] = None
  /\ fuzzyPass (R:=Q) stateSubsidy ["Subsidy"]
     = Some "Subsidy".
Proof.
  assert (Hlow : forall c, In c ["Subsidy"] -> unrelated c = false ->
                   (fuzzyScore (R:=Q) stateSubsidy c <= 8 # 10)%Q).
  { intros c [<- | []] _. vm_compute. intros H. discriminate H. }
  refine (conj Hlow (conj (fuzzyPass_empty_header stateSubsidy _ Hlow) _)).
  vm_compute. reflexivity.
Defined.

(** ** What the engine leaves unmapped *)

Lemma values_set_fresh (o : Js.JsObject) (k v : string) :
  Js.get o k = None -> Js.values (Js.set o k v) = Js.values o ++ [v].
Proof.
  induction o as [|[k0 v0] r IH]; simpl; [reflexivity|].
  destruct (String.eqb_spec k0 k); [discriminate|].
  intros Hget. simpl. now rewrite <- IH.
Qed.

Lemma usedAreMapped_claim (st : State) (g : BusinessField) (c : string) :
  usedAreMapped st -> Js.get (mappings st) (key g) = None ->
  usedAreMapped (claim st g c).
Proof.
  intros Hinv Hnone c' Hin. simpl in *.
  rewrite (values_set_fresh _ _ _ Hnone). apply in_or_app.
  apply In_add in Hin as [-> | Hin]; [right; now left | left; now apply Hinv].
Qed.

Lemma fold_visit (step : State -> BusinessField -> State) (I : State -> Prop) :
  (forall st g k, key g <> k ->
                  Js.get (mappings (step st g)) k = Js.get (mappings st) k) ->
  (forall st g, I st -> Js.get (mappings st) (key g) = None -> I (step st g)) ->
  forall l st,
    List.NoDup (map key l) ->
    (forall g, In g l -> Js.get (mappings st) (key g) = None) ->
    I st -> I (fold_left step l st).
Proof.
  intros Hframe Hstep l. induction l as [|g l IH]; intros st Hnd Hnone Hst;
    [assumption|].
  simpl in Hnd. apply NoDup_cons_iff in Hnd as [Hfresh Hnd]. simpl.
  apply IH; [assumption| |].
  - intros g' Hg'. rewrite Hframe; [apply Hnone; now right|].
    intros Heq. apply Hfresh. rewrite Heq. now apply in_map.
  - apply Hstep; [assumption | apply Hnone; now left].
Qed.

Section Leftovers.

Context {R : Type} `{Number R}.

Variable fields : list BusinessField.
Variable columnNames : list string.

Hypothesis Hkeys : List.NoDup (map key fields).

Lemma exactStep_usedAreMapped (st : State) (g : BusinessField) :
  usedAreMapped st -> Js.get (mappings st) (key g) = None ->
  usedAreMapped (exactStep columnNames st g).
Proof.
  intros Hinv Hnone. unfold exactStep.
  destruct (find (exactMatch g) columnNames) as [c|]; [|assumption].
  destruct (Js.truthy c && negb (Js.has (usedColumns st) c)); [|assumption].
  now apply usedAreMapped_claim.
Qed.

Lemma cleanedStep_usedAreMapped (st : State) (g : BusinessField) :
  usedAreMapped st -> Js.get (mappings st) (key g) = None ->
  usedAreMapped (cleanedStep columnNames st g).
Proof.
  intros Hinv Hnone. unfold cleanedStep.
  destruct (find _ columnNames) as [c|]; [|assumption].
  destruct (Js.truthy c); [|assumption].
  now apply usedAreMapped_claim.
Qed.

Lemma similarityStep_usedAreMapped (st : State) (g : BusinessField) :
  usedAreMapped st -> Js.get (mappings st) (key g) = None ->
  usedAreMapped (similarityStep columnNames st g).
Proof.
  intros Hinv Hnone. unfold similarityStep.
  destruct (findBestMatch g _) as [c|]; [|assumption].
  destruct (Js.truthy c); [|assumption].
  now apply usedAreMapped_claim.
Qed.

Lemma similarityStep_used (st : State) (g : BusinessField) (c : string) :
  In c (usedColumns st) -> In c (usedColumns (similarityStep columnNames st g)).
Proof.
  intros Hin. unfold similarityStep.
  destruct (findBestMatch g _) as [c'|]; [|assumption].
  destruct (Js.truthy c'); [|assumption].
  simpl. apply In_add. now right.
Qed.

Lemma unmapped_None (st : State) (g : BusinessField) :
  wellFormed (accepted (R:=R)) fields columnNames st ->
  In g (unmapped fields st) -> Js.get (mappings st) (key g) = None.
Proof.
  intros Hwf Hg. unfold unmapped in Hg. apply filter_In in Hg as [_ Hunset].
  now apply (unset_None fields columnNames st _ Hwf).
Qed.

Lemma sortedFields_keys : List.NoDup (map key (sortedFields fields columnNames)).
Proof.
  unfold sortedFields.
  apply (Permutation_NoDup
           (Permutation_map key (sortFields_perm (unmapped fields (secondPass fields columnNames))))).
  unfold unmapped. now apply NoDup_map_filter.
Qed.

Lemma sortedFields_None (g : BusinessField) :
  In g (sortedFields fields columnNames) ->
  Js.get (mappings (secondPass fields columnNames)) (key g) = None.
Proof.
  intros Hg. unfold sortedFields in Hg.
  apply (Permutation_in _ (Permutation_sym (sortFields_perm _))) in Hg.
  apply unmapped_None; [apply secondPass_wellFormed | assumption].
Qed.

Lemma secondPass_usedAreMapped : usedAreMapped (secondPass fields columnNames).
Proof.
  unfold secondPass.
  apply (fold_visit (cleanedStep columnNames) usedAreMapped).
  - intros st g k. apply cleanedStep_frame.
  - intros st g. apply cleanedStep_usedAreMapped.
  - unfold unmapped. now apply NoDup_map_filter.
  - intros g Hg. apply unmapped_None; [apply firstPass_wellFormed | assumption].
  - unfold firstPass.
    apply (fold_visit (exactStep columnNames) usedAreMapped).
    + intros st g k. apply exactStep_frame.
    + intros st g. apply exactStep_usedAreMapped.
    + assumption.
    + reflexivity.
    + intros c [].
Qed.

Lemma thirdPass_usedAreMapped : usedAreMapped (thirdPass fields columnNames).
Proof.
  unfold thirdPass.
  apply (fold_visit (similarityStep columnNames) usedAreMapped).
  - intros st g k. apply similarityStep_frame.
  - intros st g. apply similarityStep_usedAreMapped.
  - apply sortedFields_keys.
  - apply sortedFields_None.
  - apply secondPass_usedAreMapped.
Qed.

(** The state in which the third pass visits a field it leaves unmapped:
    the matcher finds nothing there, among columns that include every
    column still unassigned at the end. *)
Lemma thirdPass_visit (field : BusinessField) :
  ~ In "" columnNames -> In field fields ->
  Js.get (reconcile fields columnNames) (key field) = None ->
  exists st,
    findBestMatch field
      (List.filter (fun col => negb (Js.has (usedColumns st) col)) columnNames)
    = None
    /\ forall column, In column (usedColumns st) ->
                      In column (Js.values (reconcile fields columnNames)).
Proof.
  intros Hcols Hfield Hnone.
  assert (Hsecond : Js.get (mappings (secondPass fields columnNames)) (key field) = None).
  { destruct (Js.get (mappings (secondPass fields columnNames)) (key field)) as [c|] eqn:Hget;
      [|reflexivity].
    apply thirdPass_at in Hget. congruence. }
  assert (Hin : In field (sortedFields fields columnNames)).
  { unfold sortedFields.
    apply (Permutation_in _ (sortFields_perm _)).
    unfold unmapped. apply filter_In. split; [assumption|].
    now apply (unset_None fields columnNames _ _ (secondPass_wellFormed fields columnNames)). }
  destruct (NoDup_keys_split _ field sortedFields_keys Hin)
    as (before & after & Hsplit & _ & Hafter).
  pose proof thirdPass_usedAreMapped as Hmapped.
  unfold reconcile in *. unfold thirdPass in *. rewrite Hsplit in *.
  rewrite fold_left_app in *. simpl in *.
  set (st := fold_left (similarityStep columnNames) before
               (secondPass fields columnNames)) in *.
  rewrite (fold_frame _ (key field)
             (fun st g => similarityStep_frame columnNames st g (key field)))
    in Hnone by assumption.
  exists st. split.
  - unfold similarityStep in Hnone.
    destruct (findBestMatch field _) as [c|] eqn:Hbest; [|reflexivity].
    destruct (Js.truthy c) eqn:Htruthy.
    + rewrite claim_get in Hnone. discriminate.
    + apply findBestMatch_sound in Hbest as [Hc _].
      apply filter_In in Hc as [Hc _].
      unfold Js.truthy in Htruthy. apply negb_false_iff in Htruthy.
      apply String.eqb_eq in Htruthy. subst c. contradiction.
  - intros column Hused. apply Hmapped.
    apply (fold_left_invariant (fun s => In column (usedColumns s))).
    + now apply similarityStep_used.
    + intros s g _ Hs. now apply similarityStep_used.
Qed.

End Leftovers.

Lemma reconcile_leftover {R : Type} `{Number R} (fields : list BusinessField)
    (columnNames : list string) (field : BusinessField) (column : string) :
  List.NoDup (map key fields) -> ~ In "" columnNames ->
  In field fields -> In column columnNames ->
  ordered (compared field columnNames) -> nlt n0 threshold = true ->
  Js.get (reconcile fields columnNames) (key field) = None ->
  ~ In column (Js.values (reconcile fields columnNames)) ->
  ~ accepted field column.
Proof.
  intros Hkeys Hcols Hfield Hcolumn Hordered Hzero Hnone Hfree Hacc.
  destruct (thirdPass_visit fields columnNames Hkeys field Hcols Hfield Hnone)
    as (st & Hbest & Hused).
  set (available := List.filter (fun col => negb (Js.has (usedColumns st) col))
                                columnNames) in *.
  assert (Hpool : In column available).
  { apply filter_In. split; [assumption|]. apply negb_true_iff, has_false.
    intros Hin. apply Hfree. now apply Hused. }
  assert (Hsub : forall c, In c available -> In c columnNames)
    by (intros c Hc; now apply filter_In in Hc as [Hc _]).
  unfold findBestMatch in Hbest.
  destruct (exactPass field available) as [c|] eqn:Hexact; [discriminate|].
  unfold exactPass in Hexact.
  pose proof (find_none _ _ Hexact column Hpool) as Htests. simpl in Htests.
  apply orb_false_iff in Htests as [Hex Hcl].
  destruct Hacc as [Hacc | [Hacc | [Hun Hthr]]]; [congruence | congruence |].
  assert (Havailable : ordered (compared field available))
    by (apply (ordered_incl _ (compared field columnNames));
        [now apply compared_incl | assumption]).
  assert (Hclean : ~ In "" available) by (intros Hin; now apply Hcols, Hsub).
  rewrite (fuzzyPass_None field available Havailable Hzero Hclean Hbest
             column Hpool Hun) in Hthr.
  discriminate.
Qed.

(** X8. With no empty header, for every number type whose comparisons
    order the numbers compared for the field on the columns, [autoMapColumns]
    leaves a field of the catalog unmapped only when none of the columns
    still unassigned at the end would be accepted for it: none passes an
    exact test, and none that the fuzzy loop scores reaches the
    threshold. *)
Theorem autoMapColumns_maximal {R : Type} `{Number R}
    (columnNames : list string) (field : BusinessField) (column : string) :
  ~ In "" columnNames ->
  In field BUSINESS_FIELDS -> In column columnNames ->
  ordered (compared field columnNames) -> nlt n0 threshold = true ->
  Js.get (autoMapColumns columnNames) (key field) = None ->
  ~ In column (Js.values (autoMapColumns columnNames)) ->
  ~ accepted field column.
Proof.
  intros Hcols Hfield Hcolumn Hordered Hzero.
  exact (reconcile_leftover BUSINESS_FIELDS columnNames field column
           BUSINESS_FIELDS_keys Hcols Hfield Hcolumn Hordered Hzero).
Qed.

Lemma autoMapColumns_maximal_witness :
  (~ In "" ["Insurance"; "Quantity"]
   /\ In stateSubsidy BUSINESS_FIELDS
   /\ In "Quantity" ["Insurance"; "Quantity"]
   /\ ordered (compared (R:=Q) stateSubsidy ["Insurance"; "Quantity"])
   /\ nlt (R:=Q) n0 threshold = true
   /\ Js.get (autoMapColumns (R:=Q) ["Insurance"; "Quantity"]) (key stateSubsidy)
      = None
   /\ ~ In "Quantity" (Js.values (autoMapColumns (R:=Q) ["Insurance"; "Quantity"]))
   /\ ~ accepted (R:=Q) stateSubsidy "Quantity")
  /\ (ordered (compared (R:=float) stateSubsidy ["Insurance"; "Quantity"])
      /\ nlt (R:=float) n0 threshold = true
      /\ Js.get (autoMapColumns (R:=float) ["Insurance"; "Quantity"]) (key stateSubsidy)
         = None
      /\ ~ In "Quantity" (Js.values (autoMapColumns (R:=float) ["Insurance"; "Quantity"]))
      /\ ~ accepted (R:=float) stateSubsidy "Quantity").
Proof.
  assert (Hcols : ~ In "" ["Insurance"; "Quantity"]).
  { intros [Heq | [Heq | []]]; discriminate Heq. }
  assert (Hfield : In stateSubsidy BUSINESS_FIELDS).
  { right. right. left. reflexivity. }
  assert (Hcolumn : In "Quantity" ["Insurance"; "Quantity"]).
  { right. left. reflexivity. }
  assert (Hzero : nlt (R:=Q) n0 threshold = true) by reflexivity.
  assert (Hnone : Js.get (autoMapColumns (R:=Q) ["Insurance"; "Quantity"])
                         (key stateSubsidy) = None).
  { vm_compute. reflexivity. }
  assert (Hfree : ~ In "Quantity"
                    (Js.values (autoMapColumns (R:=Q) ["Insurance"; "Quantity"]))).
  { vm_compute. intros [Heq | []]. discriminate Heq. }
  assert (Hcheck64 : orderedb (compared (R:=float) stateSubsidy ["Insurance"; "Quantity"])
                     = true) by (vm_compute; reflexivity).
  assert (Hzero64 : nlt (R:=float) n0 threshold = true) by (vm_compute; reflexivity).
  assert (Hnone64 : Js.get (autoMapColumns (R:=float) ["Insurance"; "Quantity"])
                           (key stateSubsidy) = None).
  { vm_compute. reflexivity. }
  assert (Hfree64 : ~ In "Quantity"
                      (Js.values (autoMapColumns (R:=float) ["Insurance"; "Quantity"]))).
  { vm_compute. intros [Heq | []]. discriminate Heq. }
  split.
  - exact (conj Hcols (conj Hfield (conj Hcolumn (conj (ordered_Q _) (conj Hzero
             (conj Hnone (conj Hfree
                (autoMapColumns_maximal ["Insurance"; "Quantity"]
                   stateSubsidy "Quantity" Hcols Hfield Hcolumn (ordered_Q _) Hzero
                   Hnone Hfree)))))))).
  - exact (conj (orderedb_ordered _ Hcheck64) (conj Hzero64 (conj Hnone64 (conj Hfree64
             (autoMapColumns_maximal ["Insurance"; "Quantity"]
                stateSubsidy "Quantity" Hcols Hfield Hcolumn
                (orderedb_ordered _ Hcheck64) Hzero64 Hnone64 Hfree64))))).
Defined.

(** ** Auto-mapping followed by validation *)

Lemma fieldErrors_sound (mappings : Js.JsObject) (columnNames : list string)
    (l : list BusinessField) :
  (forall k c, Js.get mappings k = Some c -> In c columnNames) ->
  flat_map (fieldErrors mappings columnNames) l
  = map missingMessage (List.filter (isMissing mappings) l).
Proof.
  intros Hsound. induction l as [|field l IH]; [reflexivity|].
  simpl. rewrite IH.
  destruct (fieldErrors_cases mappings columnNames field)
    as [(-> & _ & ->) | [(_ & _ & c & Hget & _ & Hnot & _) | (-> & _ & c & _ & _ & _ & ->)]].
  - reflexivity.
  - exfalso. apply Hnot. now apply (Hsound (key field)).
  - reflexivity.
Qed.

(** X9. The mapping the engine returns always validates without a warning
    and without an invalid-column error against the same headers: the
    errors are the missing-mapping messages of the fields left unmapped, in
    catalog order, and the result is valid exactly when every field of the
    catalog got a column. *)
Theorem autoMapColumns_validates {R : Type} `{Number R}
    (fields : list BusinessField) (columnNames : list string) :
  let mappings := reconcile fields columnNames in
  let result := validateAgainst fields mappings columnNames in
  warnings result = []
  /\ errors result
     = map missingMessage (List.filter (isMissing mappings) fields)
  /\ (isValid result = true <->
      forall field, In field fields ->
        exists column, Js.get mappings (key field) = Some column
                       /\ In column columnNames).
Proof.
  intros mappings0 result.
  destruct (thirdPass_wellFormed fields columnNames) as [_ Hvalues _ Hcols _].
  fold (reconcile fields columnNames) in Hvalues, Hcols. fold mappings0 in Hvalues, Hcols.
  assert (Hsound : forall k c, Js.get mappings0 k = Some c -> In c columnNames /\ c <> "").
  { intros k c Hget. apply (Hcols k c). now apply get_In. }
  assert (Herrors : errors result
                    = map missingMessage (List.filter (isMissing mappings0) fields)).
  { unfold result. rewrite validateAgainst_errors.
    apply fieldErrors_sound. intros k c Hget. now apply (Hsound k c). }
  split; [|split].
  - unfold result. rewrite validateAgainst_warnings.
    assert (Hnd : List.NoDup (mappedValues mappings0))
      by (unfold mappedValues; now apply List.NoDup_filter).
    apply laterOccurrences_nil in Hnd. now rewrite Hnd.
  - exact Herrors.
  - unfold result at 1. rewrite validateAgainst_isValid. fold result.
    rewrite Herrors, length_map, Nat.eqb_eq, length_zero_iff_nil.
    split.
    + intros Hnil field Hfield.
      assert (Hnot : isMissing mappings0 field = false).
      { destruct (isMissing mappings0 field) eqn:Hmiss; [|reflexivity].
        assert (Hin : In field (List.filter (isMissing mappings0) fields))
          by (apply filter_In; now split).
        rewrite Hnil in Hin. destruct Hin. }
      unfold isMissing, Js.unset in Hnot.
      destruct (Js.get mappings0 (key field)) as [c|] eqn:Hget; [|discriminate].
      exists c. split; [reflexivity|]. now apply (Hsound (key field)).
    + intros Hall.
      destruct (List.filter (isMissing mappings0) fields) as [|field rest] eqn:Hfilter;
        [reflexivity|].
      assert (Hin : In field (List.filter (isMissing mappings0) fields))
        by (rewrite Hfilter; now left).
      apply filter_In in Hin as [Hfield Hmiss].
      destruct (Hall field Hfield) as (c & Hget & _).
      unfold isMissing, Js.unset in Hmiss. rewrite Hget in Hmiss.
      destruct (Hsound _ _ Hget) as [_ Hne]. apply truthy_nonempty in Hne.
      rewrite Hne in Hmiss. discriminate.
Qed.

(** ** The searchable drop-down and manual mapping *)

Lemma string_app_assoc (a b c : string) :
  ((a ++ b) ++ c = a ++ (b ++ c))%string.
Proof. induction a as [|x a IH]; simpl; [reflexivity | now rewrite IH]. Qed.

Lemma string_app_nil_r (a : string) : (a ++ "" = a)%string.
Proof. induction a as [|x a IH]; simpl; [reflexivity | now rewrite IH]. Qed.

Lemma string_length_app (a b : string) :
  String.length (a ++ b) = String.length a + String.length b.
Proof. induction a as [|x a IH]; simpl; [reflexivity | now rewrite IH]. Qed.

Lemma toLowerCase_app (a b : string) :
  Js.toLowerCase (a ++ b) = (Js.toLowerCase a ++ Js.toLowerCase b)%string.
Proof. induction a as [|x a IH]; simpl; [reflexivity | now rewrite IH]. Qed.

Lemma toLowerCase_nil (s : string) : Js.toLowerCase s = "" -> s = "".
Proof. destruct s; simpl; [reflexivity | discriminate]. Qed.

Lemma includes_refl (s : string) : Js.includes s s = true.
Proof.
  apply includes_iff. exists "", "". simpl. now rewrite string_app_nil_r.
Qed.

Lemma filteredOptions_In (options : list string) (term option : string) :
  In option (filteredOptions options term)
  <-> In option options
      /\ isSubstring (Js.toLowerCase term) (Js.toLowerCase option).
Proof.
  unfold filteredOptions. rewrite filter_In, includes_iff. reflexivity.
Qed.

(** X10. An empty search term offers every option; and on texts of code
    units U+0000 to U+00FF, where lower-casing goes unit by unit, a longer
    search term never offers an option that the shorter one did not
    offer. *)
Theorem filteredOptions_narrows (options : list string) :
  filteredOptions options "" = options
  /\ forall term more option,
       In option (filteredOptions options (term ++ more)) ->
       In option (filteredOptions options term).
Proof.
  split.
  - unfold filteredOptions. change (Js.toLowerCase "") with "".
    induction options as [|o options IH]; [reflexivity|].
    cbn [List.filter]. rewrite includes_empty. now rewrite IH.
  - intros term more option Hin.
    apply filteredOptions_In in Hin as [Hin (before & after & Heq)].
    apply filteredOptions_In. split; [assumption|].
    rewrite toLowerCase_app, string_app_assoc in Heq.
    now exists before, (Js.toLowerCase more ++ after)%string.
Qed.

Lemma handleInputChange_value (options : list string) (inputValue : string) :
  fst (handleInputChange options inputValue)
  = {| isOpen := true; searchTerm := inputValue |}
  /\ Js.toLowerCase (snd (handleInputChange options inputValue))
     = Js.toLowerCase inputValue
  /\ ((exists option, In option options
                      /\ Js.toLowerCase option = Js.toLowerCase inputValue) ->
      In (snd (handleInputChange options inputValue)) options)
  /\ ((forall option, In option options ->
                      Js.toLowerCase option <> Js.toLowerCase inputValue) ->
      snd (handleInputChange options inputValue) = inputValue).
Proof.
  unfold handleInputChange.
  destruct (find _ options) as [m|] eqn:Hfind.
  - apply find_some in Hfind as [Hin Heq]. apply String.eqb_eq in Heq.
    destruct (Js.truthy m) eqn:Htruthy; simpl.
    + repeat split; trivial. intros Hall. now destruct (Hall m Hin).
    + unfold Js.truthy in Htruthy. apply negb_false_iff, String.eqb_eq in Htruthy.
      subst m. symmetry in Heq. apply toLowerCase_nil in Heq. subst inputValue.
      repeat split; trivial.
  - simpl. repeat split; trivial.
    intros (option & Hin & Heq).
    pose proof (find_none _ _ Hfind option Hin) as Hno. simpl in Hno.
    rewrite Heq, String.eqb_refl in Hno. discriminate.
Qed.

(** X11. The value an input change passes on equals the typed text up to
    case; when an option equals the typed text up to case the value is an
    option, and one the list of filtered options shows; when none does the
    value is the typed text itself; and the box goes on showing the typed
    text. *)
Theorem handleInputChange_selects (options : list string) (inputValue : string) :
  let next := fst (handleInputChange options inputValue) in
  let value := snd (handleInputChange options inputValue) in
  isOpen next = true
  /\ Js.toLowerCase value = Js.toLowerCase inputValue
  /\ ((exists option, In option options
                      /\ Js.toLowerCase option = Js.toLowerCase inputValue) ->
      In value (filteredOptions options inputValue))
  /\ ((forall option, In option options ->
                      Js.toLowerCase option <> Js.toLowerCase inputValue) ->
      value = inputValue)
  /\ displayValue next value = inputValue.
Proof.
  intros next value.
  destruct (handleInputChange_value options inputValue)
    as (Hnext & Hlower & Hsome & Hnone).
  fold next in Hnext. fold value in Hlower, Hsome, Hnone.
  split; [now rewrite Hnext|]. split; [assumption|]. split; [|split].
  - intros Hex. apply filter_In. split; [now apply Hsome|].
    rewrite Hlower. apply includes_refl.
  - assumption.
  - rewrite Hnext. unfold displayValue. simpl.
    destruct (Js.truthy inputValue) eqn:Htruthy; [reflexivity|].
    unfold Js.truthy in Htruthy. apply negb_false_iff, String.eqb_eq in Htruthy.
    subst inputValue. apply toLowerCase_nil in Hlower. rewrite Hlower. reflexivity.
Qed.

Lemma delete_In (s : Js.JsSet) (x y : string) :
  In y (JsText.delete s x) <-> In y s /\ y <> x.
Proof.
  unfold JsText.delete. rewrite filter_In, negb_true_iff, String.eqb_neq.
  reflexivity.
Qed.

(** X12. A manual choice is read back under its field and as the value of
    the field's drop-down, leaves every other field as it was, with the
    error that field has, and takes the field, and only it, out of the set
    of auto-mapped fields. *)
Theorem handleColumnMapping_effect (columnMappings : Js.JsObject)
    (autoMappedFields : Js.JsSet) (field columnName : string) :
  let next := handleColumnMapping columnMappings autoMappedFields field columnName in
  Js.get (fst next) field = Some columnName
  /\ dropdownValue (fst next) field = columnName
  /\ (forall k, k <> field -> Js.get (fst next) k = Js.get columnMappings k)
  /\ (forall columnNames other,
        key other <> field ->
        fieldErrors (fst next) columnNames other
        = fieldErrors columnMappings columnNames other)
  /\ ~ In field (snd next)
  /\ (forall k, k <> field -> (In k (snd next) <-> In k autoMappedFields)).
Proof.
  intros next. unfold next, handleColumnMapping. cbn [fst snd].
  assert (Hget : Js.get (Js.set columnMappings field columnName) field = Some columnName)
    by (rewrite get_set; now rewrite String.eqb_refl).
  assert (Hframe : forall k, k <> field ->
            Js.get (Js.set columnMappings field columnName) k = Js.get columnMappings k).
  { intros k Hne. rewrite get_set.
    destruct (String.eqb_spec field k); [congruence | reflexivity]. }
  split; [assumption|]. split; [|split; [assumption|split; [|split]]].
  - unfold dropdownValue. rewrite Hget.
    destruct (Js.truthy columnName) eqn:Htruthy; [reflexivity|].
    unfold Js.truthy in Htruthy. apply negb_false_iff, String.eqb_eq in Htruthy.
    now subst.
  - intros columnNames other Hne. unfold fieldErrors. now rewrite Hframe.
  - destruct (Js.has autoMappedFields field) eqn:Hhas.
    + intros Hin. apply delete_In in Hin as [_ Hne]. now apply Hne.
    + now apply has_false.
  - intros k Hne. destruct (Js.has autoMappedFields field); [|reflexivity].
    rewrite delete_In. tauto.
Qed.

(** X13. Typing a header in the drop-down of a field, in any letter case,
    maps the field to that header as the file spells it, and the field then
    has no error; typing a non-empty text that is no header up to case maps
    the field to the text as typed, and the field then has the
    invalid-column error that quotes it. *)
Theorem typed_header_validates (columnNames : list string)
    (columnMappings : Js.JsObject) (autoMappedFields : Js.JsSet)
    (field : BusinessField) (inputValue : string) :
  inputValue <> "" ->
  let value := snd (handleInputChange columnNames inputValue) in
  let next := fst (handleColumnMapping columnMappings autoMappedFields
                     (key field) value) in
  ((exists column, In column columnNames
                   /\ Js.toLowerCase column = Js.toLowerCase inputValue) ->
   In value columnNames /\ fieldErrors next columnNames field = [])
  /\ ((forall column, In column columnNames ->
                      Js.toLowerCase column <> Js.toLowerCase inputValue) ->
      fieldErrors next columnNames field = [invalidMessage field inputValue]).
Proof.
  intros Hinput value next.
  destruct (handleInputChange_value columnNames inputValue)
    as (_ & Hlower & Hsome & Hnone).
  fold value in Hlower, Hsome, Hnone.
  assert (Hvalue : Js.truthy value = true).
  { apply truthy_nonempty. intros Heq. rewrite Heq in Hlower.
    symmetry in Hlower. now apply toLowerCase_nil in Hlower. }
  assert (Hget : Js.get next (key field) = Some value).
  { unfold next, handleColumnMapping. cbn [fst]. rewrite get_set.
    now rewrite String.eqb_refl. }
  split.
  - intros Hex. specialize (Hsome Hex). split; [assumption|].
    unfold fieldErrors. rewrite Hget, Hvalue.
    apply arrayIncludes_In in Hsome. now rewrite Hsome.
  - intros Hall. specialize (Hnone Hall).
    unfold fieldErrors. rewrite Hget, Hvalue. rewrite Hnone.
    destruct (Js.arrayIncludes columnNames inputValue) eqn:Hinc; [|reflexivity].
    apply arrayIncludes_In in Hinc. now destruct (Hall inputValue Hinc).
Qed.

Lemma typed_header_validates_witness :
  "ROAD TAX" <> ""
  /\ (exists column, In column ["Model"; "Road Tax"]
                     /\ Js.toLowerCase column = Js.toLowerCase "ROAD TAX")
  /\ In (snd (handleInputChange ["Model"; "Road Tax"] "ROAD TAX")) ["Model"; "Road Tax"]
  /\ fieldErrors
       (fst (handleColumnMapping [] [] (key roadTax)
               (snd (handleInputChange ["Model"; "Road Tax"] "ROAD TAX"))))
       ["Model"; "Road Tax"] roadTax = [].
Proof.
  assert (Hinput : "ROAD TAX" <> "") by discriminate.
  assert (Hex : exists column, In column ["Model"; "Road Tax"]
                  /\ Js.toLowerCase column = Js.toLowerCase "ROAD TAX").
  { exists "Road Tax". split; [right; left; reflexivity | reflexivity]. }
  exact (conj Hinput (conj Hex
           (proj1 (typed_header_validates ["Model"; "Road Tax"] [] [] roadTax
                     "ROAD TAX" Hinput) Hex))).
Defined.

(** ** The preview of a column *)

Lemma take_length (n : nat) (s : string) :
  String.length (JsText.take n s) = Nat.min n (String.length s).
Proof.
  revert s. induction n as [|n IH]; intros [|c s]; simpl; try reflexivity.
  now rewrite IH.
Qed.

Lemma shorten_length (value : string) : String.length (shorten value) <= 50.
Proof.
  unfold shorten. destruct (50 <? String.length value) eqn:Hlong.
  - apply Nat.ltb_lt in Hlong.
    rewrite string_length_app. unfold JsText.substring.
    rewrite take_length. change (String.length "...") with 3. lia.
  - apply Nat.ltb_ge in Hlong. assumption.
Qed.

Lemma shorten_nonempty (value : string) : value <> "" -> shorten value <> "".
Proof.
  intros Hne. unfold shorten. destruct (50 <? String.length value); [|assumption].
  intros Heq. apply (f_equal String.length) in Heq.
  rewrite string_length_app in Heq. simpl in Heq. lia.
Qed.

Lemma firstValue_None (columnIndex : nat) (rows : list (list string)) :
  firstValue columnIndex rows = None -> blankColumn columnIndex rows.
Proof.
  unfold blankColumn.
  induction rows as [|row rows IH]; simpl; [intros _ ? ? []|].
  intros Hfirst row0 cell [<- | Hin] Hnth.
  - rewrite Hnth in Hfirst.
    destruct (Js.truthy cell) eqn:Hcell.
    + destruct (Js.truthy (JsText.trim cell)) eqn:Htrim; [discriminate|].
      unfold Js.truthy in Htrim. now apply negb_false_iff, String.eqb_eq in Htrim.
    + unfold Js.truthy in Hcell. apply negb_false_iff, String.eqb_eq in Hcell.
      now subst cell.
  - assert (Hrest : firstValue columnIndex rows = None).
    { destruct (nth_error row columnIndex) as [cell0|]; [|assumption].
      destruct (Js.truthy cell0); [|assumption].
      destruct (Js.truthy (JsText.trim cell0)); [discriminate | assumption]. }
    exact (IH Hrest row0 cell Hin Hnth).
Qed.

Lemma blankColumn_cons (columnIndex : nat) (row : list string)
    (rows : list (list string)) :
  (forall cellValue, nth_error row columnIndex = Some cellValue ->
                     JsText.trim cellValue = "") ->
  blankColumn columnIndex rows -> blankColumn columnIndex (row :: rows).
Proof.
  intros Hrow Hrows row0 cell [<- | Hin] Hnth; [now apply Hrow|].
  now apply (Hrows row0).
Qed.

(** The row whose text the loop returns is the first one that has a text
    in the column. *)
Lemma firstValue_first (columnIndex : nat) (rows : list (list string))
    (value : string) :
  firstValue columnIndex rows = Some value ->
  exists before row after cellValue,
    rows = before ++ row :: after
    /\ blankColumn columnIndex before
    /\ nth_error row columnIndex = Some cellValue
    /\ JsText.trim cellValue <> ""
    /\ value = shorten (JsText.trim cellValue).
Proof.
  induction rows as [|row rows IH]; simpl; [discriminate|].
  assert (Hskip : (forall cellValue, nth_error row columnIndex = Some cellValue ->
                                     JsText.trim cellValue = "") ->
            firstValue columnIndex rows = Some value ->
            exists before row0 after cellValue,
              row :: rows = before ++ row0 :: after
              /\ blankColumn columnIndex before
              /\ nth_error row0 columnIndex = Some cellValue
              /\ JsText.trim cellValue <> ""
              /\ value = shorten (JsText.trim cellValue)).
  { intros Hblank Hfirst.
    destruct (IH Hfirst) as (before & row0 & after & cell & -> & Hbefore & Hrow).
    exists (row :: before), row0, after, cell. split; [reflexivity|].
    split; [now apply blankColumn_cons | assumption]. }
  destruct (nth_error row columnIndex) as [cell|] eqn:Hnth;
    [|apply Hskip; discriminate].
  destruct (Js.truthy cell) eqn:Hcell.
  - destruct (Js.truthy (JsText.trim cell)) eqn:Htrim.
    + intros [= <-]. exists [], row, rows, cell. split; [reflexivity|].
      split; [intros ? ? []|]. split; [assumption|].
      split; [now apply truthy_nonempty | reflexivity].
    + apply Hskip. intros cell0 [= <-].
      unfold Js.truthy in Htrim. now apply negb_false_iff, String.eqb_eq in Htrim.
  - apply Hskip. intros cell0 [= <-].
    unfold Js.truthy in Hcell. apply negb_false_iff, String.eqb_eq in Hcell.
    now subst cell.
Qed.

Lemma indexOf_lt (xs : list string) (v : string) (i : nat) :
  Js.indexOf xs v = Some i -> i < length xs.
Proof.
  intros Hidx. apply indexOf_nth in Hidx. apply nth_error_Some. congruence.
Qed.

Lemma indexOf_None (xs : list string) (v : string) :
  ~ In v xs -> Js.indexOf xs v = None.
Proof.
  intros Hnot. destruct (Js.indexOf xs v) as [i|] eqn:Hidx; [|reflexivity].
  apply indexOf_nth, nth_error_In in Hidx. contradiction.
Qed.

(** X14. For a column of the file the preview is never empty and the branch
    for an invalid index is never taken: the preview is the trimmed text of
    the first data row that has one in the column, every data row before it
    being blank there, cut to 50 code units when it is longer, or, when no
    data row has one, the header between brackets or "No data". *)
Theorem getPreviewData_known_column (columnNames : list string)
    (worksheetData : list (list string)) (columnName : string) :
  columnName <> "" -> In columnName columnNames -> worksheetData <> [] ->
  let shown := getPreviewData columnNames worksheetData columnName in
  shown <> ""
  /\ exists columnIndex,
       Js.indexOf columnNames columnName = Some columnIndex
       /\ columnIndex < length columnNames
       /\ ((exists before row after cellValue,
              tl worksheetData = before ++ row :: after
              /\ blankColumn columnIndex before
              /\ nth_error row columnIndex = Some cellValue
              /\ JsText.trim cellValue <> ""
              /\ shown = shorten (JsText.trim cellValue)
              /\ String.length shown <= 50)
           \/ (blankColumn columnIndex (tl worksheetData)
               /\ (shown = "No data"
                   \/ exists headerValue,
                        nth_error (hd [] worksheetData) columnIndex = Some headerValue
                        /\ shown = ("[Header: " ++ headerValue ++ "]")%string))).
Proof.
  intros Hname Hin Hdata shown.
  destruct (indexOf_In _ _ Hin) as [columnIndex Hidx].
  pose proof (indexOf_lt _ _ _ Hidx) as Hlt.
  assert (Hshown : shown
            = match firstValue columnIndex (tl worksheetData) with
              | Some value => value
              | None =>
                  match worksheetData with
                  | headerRow :: _ =>
                      match nth_error headerRow columnIndex with
                      | Some headerValue =>
                          if Js.truthy headerValue
                          then ("[Header: " ++ headerValue ++ "]")%string
                          else "No data"
                      | None => "No data"
                      end
                  | [] => "No data"
                  end
              end).
  { unfold shown, getPreviewData.
    rewrite (proj2 (truthy_nonempty _) Hname), Hidx.
    assert (Hrows : (length worksheetData =? 0) = false)
      by (destruct worksheetData; [contradiction | reflexivity]).
    assert (Hcols : (length columnNames =? 0) = false)
      by (apply Nat.eqb_neq; lia).
    rewrite Hrows, Hcols. cbn [negb orb].
    now rewrite (proj2 (Nat.leb_gt _ _) Hlt). }
  destruct (firstValue columnIndex (tl worksheetData)) as [value|] eqn:Hfirst.
  - apply firstValue_first in Hfirst
      as (before & row & after & cell & Hrows & Hbefore & Hnth & Htrim & Hvalue).
    rewrite Hshown. split; [rewrite Hvalue; now apply shorten_nonempty|].
    exists columnIndex. split; [assumption|]. split; [assumption|].
    left. exists before, row, after, cell.
    split; [assumption|]. split; [assumption|]. split; [assumption|].
    split; [assumption|]. split; [assumption|].
    rewrite Hvalue. apply shorten_length.
  - apply firstValue_None in Hfirst.
    assert (Hcases : shown = "No data"
              \/ exists headerValue,
                   nth_error (hd [] worksheetData) columnIndex = Some headerValue
                   /\ shown = ("[Header: " ++ headerValue ++ "]")%string).
    { rewrite Hshown. destruct worksheetData as [|headerRow rows]; [now left|].
      simpl. destruct (nth_error headerRow columnIndex) as [h|]; [|now left].
      destruct (Js.truthy h); [right; now exists h | now left]. }
    split.
    + destruct Hcases as [-> | (h & _ & ->)]; discriminate.
    + exists columnIndex. split; [assumption|]. split; [assumption|].
      right. now split.
Qed.

Lemma getPreviewData_known_column_witness :
  "Price" <> "" /\ In "Price" ["Model"; "Price"]
  /\ [["Model"; "Price"]; ["A1"; "  "]; ["B2"; " 1200 "]; ["C3"; "99"]] <> []
  /\ getPreviewData ["Model"; "Price"]
       [["Model"; "Price"]; ["A1"; "  "]; ["B2"; " 1200 "]; ["C3"; "99"]] "Price"
     = "1200"
  /\ getPreviewData ["Model"; "Price"]
       [["Model"; "Price"]; ["A1"; "  "]; ["B2"; " 1200 "]; ["C3"; "99"]] "Price"
     <> "".
Proof.
  assert (Hname : "Price" <> "") by discriminate.
  assert (Hin : In "Price" ["Model"; "Price"]) by (right; left; reflexivity).
  assert (Hdata : [["Model"; "Price"]; ["A1"; "  "]; ["B2"; " 1200 "]; ["C3"; "99"]]
                  <> []) by discriminate.
  refine (conj Hname (conj Hin (conj Hdata (conj _
            (proj1 (getPreviewData_known_column ["Model"; "Price"]
                      [["Model"; "Price"]; ["A1"; "  "]; ["B2"; " 1200 "]; ["C3"; "99"]]
                      "Price" Hname Hin Hdata)))))).
  vm_compute. reflexivity.
Defined.

(** X15. The preview is empty without a column name, without rows or without
    columns; otherwise a name that is not a column of the file gives
    "Column not found". *)
Theorem getPreviewData_edges (columnNames : list string)
    (worksheetData : list (list string)) (columnName : string) :
  getPreviewData columnNames worksheetData "" = ""
  /\ getPreviewData columnNames [] columnName = ""
  /\ getPreviewData [] worksheetData columnName = ""
  /\ (columnName <> "" -> worksheetData <> [] -> columnNames <> [] ->
      ~ In columnName columnNames ->
      getPreviewData columnNames worksheetData columnName = "Column not found").
Proof.
  unfold getPreviewData. split; [reflexivity|]. split; [|split].
  - simpl. now rewrite orb_true_r.
  - simpl. now rewrite orb_true_r.
  - intros Hname Hdata Hcols Hnot.
    rewrite (proj2 (truthy_nonempty _) Hname), (indexOf_None _ _ Hnot).
    destruct worksheetData; [contradiction|]. destruct columnNames; [contradiction|].
    reflexivity.
Qed.

(** X16. When the cell of the first data row is not empty, has no white space
    around it and is at most 50 code units long, both copies of the page
    preview the column with that cell. *)
Theorem getPreviewData_versions_agree (columnNames : list string)
    (headerRow row : list string) (rest : list (list string))
    (columnName cellValue : string) (columnIndex : nat) :
  columnName <> "" ->
  Js.indexOf columnNames columnName = Some columnIndex ->
  nth_error row columnIndex = Some cellValue ->
  cellValue <> "" -> JsText.trim cellValue = cellValue ->
  String.length cellValue <= 50 ->
  getPreviewData columnNames (headerRow :: row :: rest) columnName = cellValue
  /\ PageTsxReview.getPreviewData columnNames (headerRow :: row :: rest) columnName
     = cellValue.
Proof.
  intros Hname Hidx Hnth Hcell Htrim Hshort.
  pose proof (indexOf_lt _ _ _ Hidx) as Hlt.
  apply truthy_nonempty in Hname, Hcell.
  split.
  - unfold getPreviewData. rewrite Hname, Hidx.
    assert (Hcols : (length columnNames =? 0) = false)
      by (apply Nat.eqb_neq; lia).
    rewrite Hcols. cbn [negb orb length Nat.eqb].
    rewrite (proj2 (Nat.leb_gt _ _) Hlt).
    cbn [tl firstValue]. rewrite Hnth, Hcell, Htrim, Hcell.
    unfold shorten. now rewrite (proj2 (Nat.ltb_ge _ _) Hshort).
  - unfold PageTsxReview.getPreviewData. rewrite Hname, Hidx.
    cbn [negb orb length Nat.eqb nth_error]. now rewrite Hnth, Hcell.
Qed.

Lemma getPreviewData_versions_agree_witness :
  "Price" <> ""
  /\ Js.indexOf ["Model"; "Price"] "Price" = Some 1
  /\ nth_error ["A1"; "1200"] 1 = Some "1200"
  /\ "1200" <> "" /\ JsText.trim "1200" = "1200" /\ String.length "1200" <= 50
  /\ getPreviewData ["Model"; "Price"] [["Model"; "Price"]; ["A1"; "1200"]] "Price"
     = "1200"
  /\ PageTsxReview.getPreviewData ["Model"; "Price"]
       [["Model"; "Price"]; ["A1"; "1200"]] "Price" = "1200".
Proof.
  assert (Hname : "Price" <> "") by discriminate.
  assert (Hcell : "1200" <> "") by discriminate.
  assert (Hshort : String.length "1200" <= 50) by (simpl; lia).
  exact (conj Hname (conj eq_refl (conj eq_refl (conj Hcell (conj eq_refl (conj Hshort
           (getPreviewData_versions_agree ["Model"; "Price"] ["Model"; "Price"]
              ["A1"; "1200"] [] "Price" "1200" 1 Hname eq_refl eq_refl Hcell
              eq_refl Hshort))))))).
Defined.

(** ** The header row *)

(** X17. The header loop stops at [actualCellCount], or at [cellCount]
    when that is 0: it yields that many headers, never an empty one; the
    header of column [colNum] is the text of its cell or, when the cell has
    no text, "Column" followed by [colNum]; and a row that reports fewer
    cells with a value than cells gets no header for its last columns. *)
Theorem readHeaders_shape (headerRow : HeaderRow) :
  length (readHeaders headerRow) = maxCol headerRow
  /\ ~ In "" (readHeaders headerRow)
  /\ (forall i, i < maxCol headerRow ->
        nth_error (readHeaders headerRow) i
        = Some (if Js.truthy (headerText (getCell headerRow (S i)))
                then headerText (getCell headerRow (S i))
                else ("Column " ++ JsText.decimal (S i))%string))
  /\ (0 < actualCellCount headerRow < cellCount headerRow ->
      length (readHeaders headerRow) < cellCount headerRow
      /\ nth_error (readHeaders headerRow) (cellCount headerRow - 1) = None).
Proof.
  assert (Hlen : length (readHeaders headerRow) = maxCol headerRow)
    by (unfold readHeaders; now rewrite length_map, length_seq).
  split; [exact Hlen|]. split; [|split].
  - unfold readHeaders. intros Hin.
    apply in_map_iff in Hin as [colNum [Heq _]]. unfold headerAt in Heq.
    destruct (Js.truthy (headerText (getCell headerRow colNum))) eqn:Htruthy.
    + apply truthy_nonempty in Htruthy. congruence.
    + discriminate Heq.
  - intros i Hi. unfold readHeaders.
    rewrite nth_error_map, nth_error_seq. apply Nat.ltb_lt in Hi. now rewrite Hi.
  - intros [Hpos Hless].
    assert (Hmax : maxCol headerRow = actualCellCount headerRow).
    { unfold maxCol. destruct (Nat.eqb_spec (actualCellCount headerRow) 0); [lia|].
      reflexivity. }
    split; [lia|]. apply nth_error_None. lia.
Qed.

Lemma readHeaders_shape_witness :
  0 < 2 < 3
  /\ readHeaders {| actualCellCount := 2; cellCount := 3;
                    getCell := fun colNum =>
                      match colNum with
                      | 1 => CellOther "Model"
                      | 3 => CellOther "Price"
                      | _ => CellNone
                      end |}
     = ["Model"; "Column 2"]
  /\ length (readHeaders {| actualCellCount := 2; cellCount := 3;
                            getCell := fun colNum =>
                              match colNum with
                              | 1 => CellOther "Model"
                              | 3 => CellOther "Price"
                              | _ => CellNone
                              end |}) < 3.
Proof.
  assert (Hhole : 0 < 2 < 3) by lia.
  refine (conj Hhole (conj _
           (proj1 (proj2 (proj2 (proj2
              (readHeaders_shape
                 {| actualCellCount := 2; cellCount := 3;
                    getCell := fun colNum =>
                      match colNum with
                      | 1 => CellOther "Model"
                      | 3 => CellOther "Price"
                      | _ => CellNone
                      end |}))) Hhole)))).
  vm_compute. reflexivity.
Defined.

(** ** The review summary of [src/app/page.tsx] *)

Lemma sortField_fold (columnMappings : Js.JsObject) (columnNames : list string)
    (l valid invalid missing : list string) :
  fold_left (PageTsxReview.sortField columnMappings columnNames) l
            (valid, invalid, missing)
  = (valid ++ List.filter (keyValid columnMappings columnNames) l,
     invalid ++ List.filter (keyInvalid columnMappings columnNames) l,
     missing ++ List.filter (Js.unset columnMappings) l).
Proof.
  revert valid invalid missing.
  induction l as [|k l IH]; intros valid invalid missing; simpl.
  - now rewrite !app_nil_r.
  - unfold keyValid, keyInvalid, Js.unset.
    destruct (Js.get columnMappings k) as [c|]; simpl.
    + destruct (Js.truthy c); simpl.
      * destruct (Js.arrayIncludes columnNames c); simpl; rewrite IH;
          now rewrite <- app_assoc.
      * rewrite IH. now rewrite <- app_assoc.
    + rewrite IH. now rewrite <- app_assoc.
Qed.

Lemma key_cases (columnMappings : Js.JsObject) (columnNames : list string)
    (k : string) :
  (keyValid columnMappings columnNames k = true
   /\ keyInvalid columnMappings columnNames k = false
   /\ Js.unset columnMappings k = false)
  \/ (keyValid columnMappings columnNames k = false
      /\ keyInvalid columnMappings columnNames k = true
      /\ Js.unset columnMappings k = false)
  \/ (keyValid columnMappings columnNames k = false
      /\ keyInvalid columnMappings columnNames k = false
      /\ Js.unset columnMappings k = true).
Proof.
  unfold keyValid, keyInvalid, Js.unset.
  destruct (Js.get columnMappings k) as [c|]; [|tauto].
  destruct (Js.truthy c), (Js.arrayIncludes columnNames c); simpl; tauto.
Qed.

Lemma three_way_partition (columnMappings : Js.JsObject)
    (columnNames l : list string) :
  Permutation
    (List.filter (keyValid columnMappings columnNames) l
     ++ List.filter (keyInvalid columnMappings columnNames) l
     ++ List.filter (Js.unset columnMappings) l)
    l.
Proof.
  induction l as [|k l IH]; [constructor|].
  cbn [List.filter].
  destruct (key_cases columnMappings columnNames k)
    as [(-> & -> & ->) | [(-> & -> & ->) | (-> & -> & ->)]].
  - cbn [app]. now constructor.
  - cbn [app]. rewrite <- Permutation_middle. now constructor.
  - rewrite app_assoc, <- Permutation_middle, <- app_assoc. now constructor.
Qed.

Lemma filter_all {A : Type} (p : A -> bool) (l : list A) :
  List.filter p l = l <-> forall x, In x l -> p x = true.
Proof.
  split.
  - intros Heq x Hin. rewrite <- Heq in Hin. now apply filter_In in Hin as [_ Hp].
  - intros Hall. induction l as [|a l IH]; [reflexivity|].
    simpl. rewrite (Hall a (or_introl eq_refl)). f_equal.
    apply IH. intros x Hx. apply Hall. now right.
Qed.

Lemma filter_none {A : Type} (p : A -> bool) (l : list A) :
  List.filter p l = [] <-> forall x, In x l -> p x = false.
Proof.
  split.
  - intros Heq x Hin. destruct (p x) eqn:Hp; [|reflexivity].
    assert (Hx : In x (List.filter p l)) by (apply filter_In; now split).
    rewrite Heq in Hx. destruct Hx.
  - intros Hall. induction l as [|a l IH]; [reflexivity|].
    simpl. rewrite (Hall a (or_introl eq_refl)).
    apply IH. intros x Hx. apply Hall. now right.
Qed.

(** X18. The review summary sorts every required field into exactly one of
    its three lists; it is valid exactly when all of them are in the valid
    list; and it is valid exactly when [validateColumnMappings] finds the
    same mappings valid, the invalid and missing fields being as many as
    the errors reported there. *)
Theorem validateMappings_partition (columnMappings : Js.JsObject)
    (columnNames : list string) :
  let summary := PageTsxReview.validateMappings columnMappings columnNames in
  let result := validateColumnMappings columnMappings columnNames in
  Permutation
    (PageTsxReview.validMappings summary
     ++ PageTsxReview.invalidMappings summary
     ++ PageTsxReview.missingMappings summary)
    PageTsxReview.requiredFields
  /\ PageTsxReview.totalRequired summary = 14
  /\ (PageTsxReview.isValid summary = true
      <-> PageTsxReview.validMappings summary = PageTsxReview.requiredFields)
  /\ length (PageTsxReview.invalidMappings summary)
     + length (PageTsxReview.missingMappings summary)
     = length (errors result)
  /\ PageTsxReview.isValid summary = isValid result.
Proof.
  intros summary result.
  assert (Hsummary : summary
            = {| PageTsxReview.validMappings :=
                   List.filter (keyValid columnMappings columnNames)
                               PageTsxReview.requiredFields;
                 PageTsxReview.invalidMappings :=
                   List.filter (keyInvalid columnMappings columnNames)
                               PageTsxReview.requiredFields;
                 PageTsxReview.missingMappings :=
                   List.filter (Js.unset columnMappings) PageTsxReview.requiredFields;
                 PageTsxReview.totalRequired := length PageTsxReview.requiredFields;
                 PageTsxReview.isValid :=
                   (length (List.filter (keyInvalid columnMappings columnNames)
                                        PageTsxReview.requiredFields) =? 0)
                   && (length (List.filter (Js.unset columnMappings)
                                           PageTsxReview.requiredFields) =? 0) |}).
  { unfold summary, PageTsxReview.validateMappings. now rewrite sortField_fold. }
  assert (Hcount : length (List.filter (keyInvalid columnMappings columnNames)
                                       PageTsxReview.requiredFields)
                   + length (List.filter (Js.unset columnMappings)
                                         PageTsxReview.requiredFields)
                   = length (errors result)).
  { unfold result, validateColumnMappings. rewrite validateAgainst_errors, errors_count.
    change PageTsxReview.requiredFields with (map key BUSINESS_FIELDS).
    rewrite !filter_map_swap, !length_map. apply Nat.add_comm. }
  rewrite Hsummary. cbn [PageTsxReview.validMappings PageTsxReview.invalidMappings
                         PageTsxReview.missingMappings PageTsxReview.totalRequired
                         PageTsxReview.isValid].
  split; [apply three_way_partition|]. split; [reflexivity|]. split; [|split].
  - rewrite andb_true_iff, !Nat.eqb_eq, !length_zero_iff_nil.
    rewrite filter_all, !filter_none. split.
    + intros [Hinv Hmis] k Hk.
      destruct (key_cases columnMappings columnNames k)
        as [(Hv & _ & _) | [(_ & Hi & _) | (_ & _ & Hm)]]; [assumption| |].
      * rewrite (Hinv k Hk) in Hi. discriminate.
      * rewrite (Hmis k Hk) in Hm. discriminate.
    + intros Hall. split; intros k Hk; specialize (Hall k Hk);
        destruct (key_cases columnMappings columnNames k)
          as [(_ & Hi & Hm) | [(Hv & _ & _) | (Hv & _ & _)]]; congruence.
  - exact Hcount.
  - unfold result at 1. unfold validateColumnMappings.
    rewrite validateAgainst_isValid. fold (validateColumnMappings columnMappings columnNames).
    fold result. rewrite <- Hcount.
    destruct (length (List.filter (keyInvalid columnMappings columnNames)
                                  PageTsxReview.requiredFields));
      destruct (length (List.filter (Js.unset columnMappings)
                                    PageTsxReview.requiredFields)); reflexivity.
Qed.

(** X19. The label shown for a key of the catalog is the label of its field,
    and a key that is not in the catalog is shown as it is. *)
Theorem getFieldLabel_catalog :
  (forall field, In field BUSINESS_FIELDS ->
                 PageTsxReview.getFieldLabel (key field) = label field)
  /\ (forall fieldKey, ~ In fieldKey (map key BUSINESS_FIELDS) ->
                       PageTsxReview.getFieldLabel fieldKey = fieldKey).
Proof.
  split.
  - intros field Hin. unfold BUSINESS_FIELDS in Hin. simpl in Hin.
    repeat (destruct Hin as [<- | Hin]; [vm_compute; reflexivity|]).
    destruct Hin.
  - intros fieldKey Hnot. unfold PageTsxReview.getFieldLabel.
    destruct (find _ BUSINESS_FIELDS) as [field|] eqn:Hfind; [|reflexivity].
    apply find_some in Hfind as [Hin Heq]. apply String.eqb_eq in Heq.
    exfalso. apply Hnot. rewrite <- Heq. now apply in_map.
Qed.

(** * Both copies of the page *)

(** ** Offering the unclaimed columns to a field *)

Lemma unset_withoutColumn (ok : BusinessField -> string -> Prop)
    (fields : list BusinessField) (columnNames : list string) (st : State)
    (field : BusinessField) :
  wellFormed ok fields columnNames st ->
  Js.unset (mappings st) (key field) = withoutColumn st field.
Proof.
  intros [_ _ _ Hcols _]. unfold Js.unset, withoutColumn.
  destruct (Js.get (mappings st) (key field)) as [c|] eqn:Hget; [|reflexivity].
  destruct (Hcols _ _ (get_In _ _ _ Hget)) as [_ Hne].
  apply truthy_nonempty in Hne. now rewrite Hne.
Qed.

Lemma unmapped_withoutColumn (ok : BusinessField -> string -> Prop)
    (fields : list BusinessField) (columnNames : list string) (st : State) :
  wellFormed ok fields columnNames st ->
  unmapped fields st = List.filter (withoutColumn st) fields.
Proof.
  intros Hwf. unfold unmapped. apply filter_ext_in. intros field _.
  now apply (unset_withoutColumn ok fields columnNames).
Qed.

Lemma withoutColumn_None (st : State) (field : BusinessField) :
  withoutColumn st field = true <-> Js.get (mappings st) (key field) = None.
Proof.
  unfold withoutColumn. destruct (Js.get (mappings st) (key field));
    split; congruence.
Qed.

Lemma NoDup_keys_app (before after : list BusinessField) (f : BusinessField) :
  List.NoDup (map key (before ++ f :: after)) ->
  List.NoDup (map key before)
  /\ (forall g, In g before -> key g <> key f)
  /\ (forall g, In g after -> key g <> key f)
  /\ (forall g h, In g before -> In h after -> key h <> key g).
Proof.
  rewrite map_app. simpl. intros Hnd.
  pose proof (NoDup_remove_2 _ _ _ Hnd) as Hf.
  pose proof (NoDup_remove_1 _ _ _ Hnd) as Hrest.
  split; [exact (NoDup_app_remove_r _ _ Hrest)|]. split; [|split].
  - intros g Hg Heq. apply Hf. apply in_or_app. left. rewrite <- Heq. now apply in_map.
  - intros g Hg Heq. apply Hf. apply in_or_app. right. rewrite <- Heq. now apply in_map.
  - intros g h Hg Hh Heq.
    apply in_split in Hg as (b1 & b2 & ->).
    rewrite map_app in Hrest. simpl in Hrest.
    rewrite <- app_assoc in Hrest. simpl in Hrest.
    apply NoDup_remove_2 in Hrest. apply Hrest.
    apply in_or_app. right. apply in_or_app. right.
    rewrite <- Heq. now apply in_map.
Qed.

Lemma find_split {A : Type} (p : A -> bool) (l : list A) (x : A) :
  find p l = Some x ->
  exists before after,
    l = before ++ x :: after /\ p x = true
    /\ forall y, In y before -> p y = false.
Proof.
  induction l as [|a l IH]; simpl; [discriminate|].
  destruct (p a) eqn:Hpa.
  - intros [= <-]. exists [], l. split; [reflexivity|]. split; [assumption|].
    intros y [].
  - intros Hfind. destruct (IH Hfind) as (before & after & -> & Hx & Hbefore).
    exists (a :: before), after. split; [reflexivity|]. split; [assumption|].
    intros y [<- | Hy]; [assumption | now apply Hbefore].
Qed.

Section Offer.

Variable ok : BusinessField -> string -> Prop.
Variable matcher : BusinessField -> list string -> option string.
Variable fields : list BusinessField.
Variable columnNames : list string.

Hypothesis Hmatcher :
  forall f pool c, In f fields -> matcher f pool = Some c ->
                   In c pool /\ c <> "" /\ ok f c.

Local Abbreviation sound := (wellFormed ok fields columnNames).
Local Abbreviation step := (offerStep matcher columnNames).

Lemma offerStep_frame (st : State) (g : BusinessField) (k : string) :
  key g <> k ->
  Js.get (mappings (offerStep matcher columnNames st g)) k = Js.get (mappings st) k.
Proof.
  intros Hne. unfold offerStep.
  destruct (matcher g _) as [c|]; [|reflexivity].
  destruct (Js.truthy c); [|reflexivity].
  now apply claim_frame.
Qed.

Lemma offerStep_sound (st : State) (g : BusinessField) :
  In g fields -> sound st -> sound (step st g).
Proof.
  intros Hg Hwf. unfold offerStep.
  destruct (matcher g _) as [c|] eqn:Hbest; [|assumption].
  destruct (Js.truthy c) eqn:Htruthy; [|assumption].
  destruct (Hmatcher _ _ _ Hg Hbest) as (Hin & Hne & Hok).
  apply filter_In in Hin as [Hin Hfree].
  apply wellFormed_claim; try assumption.
  apply has_false. now apply negb_true_iff.
Qed.

Lemma offerStep_usedAreMapped (st : State) (g : BusinessField) :
  usedAreMapped st -> Js.get (mappings st) (key g) = None ->
  usedAreMapped (step st g).
Proof.
  intros Hinv Hnone. unfold offerStep.
  destruct (matcher g _) as [c|]; [|assumption].
  destruct (Js.truthy c); [|assumption].
  now apply usedAreMapped_claim.
Qed.

(** The columns a field is offered are those that no field holds. *)
Lemma available_unclaimed (st : State) :
  sound st -> usedAreMapped st ->
  List.filter (fun col => negb (Js.has (usedColumns st) col)) columnNames
  = unclaimed st columnNames.
Proof.
  intros [_ _ Hused _ _] Hmapped. unfold unclaimed.
  apply filter_ext_in. intros col _. f_equal.
  destruct (Js.has (usedColumns st) col) eqn:Hhas.
  - symmetry. apply arrayIncludes_In. apply Hmapped. now apply has_true.
  - symmetry. destruct (Js.arrayIncludes (Js.values (mappings st)) col) eqn:Hinc;
      [|reflexivity].
    apply arrayIncludes_In in Hinc.
    apply in_map_iff in Hinc as [[k c] [Heq Hin]]. simpl in Heq. subst c.
    apply has_false in Hhas. exfalso. apply Hhas. now apply (Hused k).
Qed.

Lemma offerStep_at (st : State) (g : BusinessField) :
  In g fields -> sound st -> usedAreMapped st ->
  Js.get (mappings st) (key g) = None ->
  Js.get (mappings (step st g)) (key g) = matcher g (unclaimed st columnNames).
Proof.
  intros Hg Hwf Hmapped Hnone.
  rewrite <- (available_unclaimed st Hwf Hmapped). unfold offerStep.
  destruct (matcher g _) as [c|] eqn:Hbest; [|assumption].
  destruct (Hmatcher _ _ _ Hg Hbest) as (_ & Hne & _).
  rewrite (proj2 (truthy_nonempty c) Hne). apply claim_get.
Qed.

(** One run of the loop: what the field visited after [before] gets, and
    what the fields visited earlier keep. *)
Lemma offer_run (start : State) (before after : list BusinessField)
    (f : BusinessField) :
  sound start -> usedAreMapped start ->
  List.NoDup (map key (before ++ f :: after)) ->
  (forall g, In g (before ++ f :: after) ->
             In g fields /\ Js.get (mappings start) (key g) = None) ->
  Js.get (mappings (fold_left step (before ++ f :: after) start)) (key f)
  = matcher f (unclaimed (fold_left step before start) columnNames)
  /\ forall g, In g before ->
       Js.get (mappings (fold_left step before start)) (key g)
       = Js.get (mappings (fold_left step (before ++ f :: after) start)) (key g).
Proof.
  intros Hwf Hmapped Hnd Hvisited.
  destruct (NoDup_keys_app _ _ _ Hnd) as (Hndb & Hbefore & Hafter & Hcross).
  assert (Hin : forall g, In g before -> In g (before ++ f :: after))
    by (intros g Hg; apply in_or_app; now left).
  assert (Hf : In f (before ++ f :: after))
    by (apply in_or_app; right; now left).
  set (st := fold_left step before start).
  assert (Hst : sound st).
  { apply (fold_left_invariant (wellFormed ok fields columnNames)); [assumption|].
    intros s g Hg. apply offerStep_sound. now apply Hvisited, Hin. }
  assert (Hstm : usedAreMapped st).
  { apply (fold_visit step usedAreMapped); trivial.
    - intros s g k. apply offerStep_frame.
    - intros s g. apply offerStep_usedAreMapped.
    - intros g Hg. now apply Hvisited, Hin. }
  assert (Hnone : Js.get (mappings st) (key f) = None).
  { unfold st. rewrite (fold_frame step (key f)
                          (fun s g => offerStep_frame s g (key f))) by assumption.
    now apply Hvisited. }
  rewrite fold_left_app. cbn [fold_left]. fold st. split.
  - rewrite (fold_frame step (key f) (fun s g => offerStep_frame s g (key f)))
      by assumption.
    apply offerStep_at; trivial. now apply Hvisited.
  - intros g Hg.
    rewrite (fold_frame step (key g) (fun s h => offerStep_frame s h (key g)))
      by (intros h Hh; now apply Hcross).
    rewrite offerStep_frame; [reflexivity|].
    intros Heq. now apply (Hbefore g Hg).
Qed.

Hypothesis Hkeys : List.NoDup (map key fields).
Hypothesis Hcount : forall f, In f fields -> specificity f = tokenCount f.

(** The fuzzy pass of either copy, started in [start]. *)
Lemma pass_order (start : State) :
  sound start -> usedAreMapped start ->
  Permutation (sortFields (unmapped fields start))
              (List.filter (withoutColumn start) fields)
  /\ StronglySorted (fun a b => tokenCount b <= tokenCount a)
                    (sortFields (unmapped fields start))
  /\ (forall n,
        List.filter (fun f => tokenCount f =? n) (sortFields (unmapped fields start))
        = List.filter (fun f => tokenCount f =? n)
                      (List.filter (withoutColumn start) fields))
  /\ (forall before f after,
        sortFields (unmapped fields start) = before ++ f :: after ->
        Js.get (mappings (fold_left step (sortFields (unmapped fields start)) start))
               (key f)
        = matcher f (unclaimed (fold_left step before start) columnNames)
        /\ forall g, In g before ->
             Js.get (mappings (fold_left step before start)) (key g)
             = Js.get (mappings (fold_left step (sortFields (unmapped fields start))
                                           start)) (key g)).
Proof.
  intros Hwf Hmapped.
  pose proof (unmapped_withoutColumn ok fields columnNames start Hwf) as Hunmapped.
  assert (Htokens : forall f, In f (unmapped fields start) ->
                      specificity f = tokenCount f)
    by (intros f Hf; apply Hcount; now apply unmapped_In in Hf).
  split; [|split; [|split]].
  - rewrite <- Hunmapped. apply Permutation_sym, sortFields_perm.
  - now apply sortFields_sorted_tokens.
  - intros n. rewrite <- Hunmapped. now apply sortFields_stable_tokens.
  - intros before f after Hsplit. rewrite Hsplit.
    apply offer_run; trivial.
    + rewrite <- Hsplit.
      apply (Permutation_NoDup (Permutation_map key (sortFields_perm _))).
      unfold unmapped. now apply NoDup_map_filter.
    + intros g Hg. rewrite <- Hsplit in Hg.
      apply (Permutation_in _ (Permutation_sym (sortFields_perm _))) in Hg.
      rewrite Hunmapped in Hg. apply filter_In in Hg as [Hg Hnone].
      split; [assumption | now apply withoutColumn_None].
Qed.

End Offer.

(** ** The matcher and the engine of [src/app/page.tsx] *)

Section PageTsxEngine.

Context {R : Type} `{Number R}.

Lemma pageTsx_score_accepted (field : BusinessField) (column : string) :
  nle PageTsx.threshold (PageTsx.score field column) = true ->
  pageAccepted field column.
Proof.
  unfold PageTsx.score, pageAccepted.
  destruct (exactMatch field column) eqn:Hexact;
    [intros _; left; now apply exactMatch_cleanedMatch|].
  destruct (cleanedMatch field column); [intros _; now left | intros Hthr; now right].
Qed.

Lemma pageTsx_findBestMatch_threshold (field : BusinessField)
    (pool : list string) (column : string) :
  PageTsx.findBestMatch field pool = Some column ->
  In column pool /\ column <> ""
  /\ nle PageTsx.threshold (PageTsx.score field column) = true.
Proof.
  unfold PageTsx.findBestMatch. intros Hbest.
  destruct (Js.truthy _) eqn:Htruthy; [|discriminate].
  injection Hbest as <-. apply truthy_nonempty in Htruthy.
  assert (Hloop : fst (fold_left (PageTsx.scoreStep field) pool ("", n0)) = ""
                  \/ (In (fst (fold_left (PageTsx.scoreStep field) pool ("", n0))) pool
                      /\ nle PageTsx.threshold
                           (PageTsx.score field
                              (fst (fold_left (PageTsx.scoreStep field) pool ("", n0))))
                         = true)).
  { apply (fold_left_invariant (fun best : string * R =>
             fst best = ""
             \/ (In (fst best) pool
                 /\ nle PageTsx.threshold (PageTsx.score field (fst best)) = true)));
      [now left|].
    intros best c Hc Hbest. unfold PageTsx.scoreStep.
    destruct (nlt (snd best) (PageTsx.score field c)
              && nle PageTsx.threshold (PageTsx.score field c)) eqn:Hcmp;
      [|exact Hbest].
    apply andb_true_iff in Hcmp as [_ Hthr]. right. now split. }
  destruct Hloop as [Hnone | [Hin Hthr]]; [contradiction|].
  split; [assumption|]. now split.
Qed.

Lemma pageTsx_findBestMatch_below (field : BusinessField) (pool : list string) :
  (forall column, In column pool ->
                  nle PageTsx.threshold (PageTsx.score field column) = false) ->
  PageTsx.findBestMatch field pool = None.
Proof.
  intros Hbelow. unfold PageTsx.findBestMatch.
  assert (Hloop : fst (fold_left (PageTsx.scoreStep field) pool ("", n0)) = "").
  { apply (fold_left_invariant (fun best : string * R => fst best = ""));
      [reflexivity|].
    intros best c Hc Hbest. unfold PageTsx.scoreStep.
    now rewrite (Hbelow c Hc), andb_false_r. }
  now rewrite Hloop.
Qed.

Lemma pageTsx_findBestMatch_single (field : BusinessField) (column : string) :
  column <> "" ->
  nlt n0 (PageTsx.score field column) = true ->
  nle PageTsx.threshold (PageTsx.score field column) = true ->
  PageTsx.findBestMatch field [column] = Some column.
Proof.
  intros Hne Hpos Hthr. unfold PageTsx.findBestMatch. cbn [fold_left].
  unfold PageTsx.scoreStep. cbn [snd]. rewrite Hpos, Hthr. cbn [andb fst].
  now rewrite (proj2 (truthy_nonempty column) Hne).
Qed.

Variable fields : list BusinessField.
Variable columnNames : list string.

Local Abbreviation accepted := (wellFormed (pageAccepted (R:=R)) fields columnNames).

Lemma pageTsx_matcher (f : BusinessField) (pool : list string) (c : string) :
  In f fields -> PageTsx.findBestMatch f pool = Some c ->
  In c pool /\ c <> "" /\ pageAccepted f c.
Proof.
  intros _ Hbest.
  apply pageTsx_findBestMatch_threshold in Hbest as (Hin & Hne & Hthr).
  split; [assumption|]. split; [assumption | now apply pageTsx_score_accepted].
Qed.

Lemma pageTsx_exactStep_accepted (st : State) (field : BusinessField) :
  In field fields -> accepted st -> accepted (PageTsx.exactStep columnNames st field).
Proof.
  intros Hfield Hwf. unfold PageTsx.exactStep.
  destruct (find _ columnNames) as [c|] eqn:Hfind; [|assumption].
  destruct (Js.truthy c && negb (Js.has (usedColumns st) c)) eqn:Hguard; [|assumption].
  apply andb_true_iff in Hguard as [Htruthy Hfree].
  apply find_some in Hfind as [Hin Htest].
  apply wellFormed_claim; try assumption.
  - now apply truthy_nonempty.
  - apply has_false. now apply negb_true_iff.
  - left. apply orb_true_iff in Htest as [Hex | Hcl];
      [now apply exactMatch_cleanedMatch | assumption].
Qed.

Lemma pageTsx_exactStep_frame (st : State) (g : BusinessField) (k : string) :
  key g <> k ->
  Js.get (mappings (PageTsx.exactStep columnNames st g)) k = Js.get (mappings st) k.
Proof.
  intros Hne. unfold PageTsx.exactStep.
  destruct (find _ columnNames) as [c|]; [|reflexivity].
  destruct (Js.truthy c && negb (Js.has (usedColumns st) c)); [|reflexivity].
  now apply claim_frame.
Qed.

Lemma pageTsx_exactStep_usedAreMapped (st : State) (g : BusinessField) :
  usedAreMapped st -> Js.get (mappings st) (key g) = None ->
  usedAreMapped (PageTsx.exactStep columnNames st g).
Proof.
  intros Hinv Hnone. unfold PageTsx.exactStep.
  destruct (find _ columnNames) as [c|]; [|assumption].
  destruct (Js.truthy c && negb (Js.has (usedColumns st) c)); [|assumption].
  now apply usedAreMapped_claim.
Qed.

Lemma pageTsx_firstPass_accepted : accepted (PageTsx.firstPass fields columnNames).
Proof.
  unfold PageTsx.firstPass.
  apply (fold_left_invariant (wellFormed pageAccepted fields columnNames));
    [apply wellFormed_initial|].
  intros st field Hin. now apply pageTsx_exactStep_accepted.
Qed.

Lemma pageTsx_reconcile_accepted :
  accepted (fold_left (PageTsx.similarityStep columnNames)
                      (PageTsx.sortedFields fields columnNames)
                      (PageTsx.firstPass fields columnNames)).
Proof.
  apply (fold_left_invariant (wellFormed pageAccepted fields columnNames));
    [apply pageTsx_firstPass_accepted|].
  intros st field Hin.
  apply (offerStep_sound pageAccepted PageTsx.findBestMatch fields columnNames
           pageTsx_matcher).
  unfold PageTsx.sortedFields in Hin.
  apply (Permutation_in _ (Permutation_sym (sortFields_perm _))) in Hin.
  now apply unmapped_In in Hin.
Qed.

Hypothesis Hkeys : List.NoDup (map key fields).

Lemma pageTsx_firstPass_usedAreMapped :
  usedAreMapped (PageTsx.firstPass fields columnNames).
Proof.
  unfold PageTsx.firstPass.
  apply (fold_visit (PageTsx.exactStep columnNames) usedAreMapped).
  - intros st g k. apply pageTsx_exactStep_frame.
  - intros st g. apply pageTsx_exactStep_usedAreMapped.
  - assumption.
  - reflexivity.
  - intros c [].
Qed.

Hypothesis Hsep : separatedCatalog fields = true.

Lemma pageTsx_exactStep_cleanedOnly (st : State) (g : BusinessField) :
  In g fields -> cleanedOnly fields st ->
  cleanedOnly fields (PageTsx.exactStep columnNames st g).
Proof.
  intros Hg Hinv. unfold PageTsx.exactStep.
  destruct (find _ columnNames) as [c|] eqn:Hfind; [|assumption].
  destruct (Js.truthy c && negb (Js.has (usedColumns st) c)); [|assumption].
  apply find_some in Hfind as [_ Htest].
  apply cleanedOnly_claim; trivial.
  apply orb_true_iff in Htest as [Hex | Hcl];
    [now apply exactMatch_cleanedMatch | assumption].
Qed.

Lemma pageTsx_exactStep_at (st : State) (f : BusinessField) :
  cleanedOnly fields st -> In f fields -> Js.get (mappings st) (key f) = None ->
  Js.get (mappings (PageTsx.exactStep columnNames st f)) (key f)
  = find (cleanedMatch f) columnNames.
Proof.
  intros Hinv Hf Hnone. unfold PageTsx.exactStep.
  rewrite (find_ext _ (cleanedMatch f) columnNames).
  - destruct (find (cleanedMatch f) columnNames) as [c|] eqn:Hfind; [|assumption].
    apply find_some in Hfind as [_ Hcl].
    rewrite (unmapped_unused fields Hsep st f c Hinv Hf Hnone Hcl).
    rewrite (proj2 (truthy_nonempty c) (separatedCatalog_forms fields f c Hsep Hf Hcl)).
    simpl. apply claim_get.
  - intros col _. destruct (exactMatch f col) eqn:Hex; [|reflexivity].
    now rewrite (exactMatch_cleanedMatch f col Hex).
Qed.

Lemma pageTsx_firstPass_at (f : BusinessField) :
  In f fields ->
  Js.get (mappings (PageTsx.firstPass fields columnNames)) (key f)
  = find (cleanedMatch f) columnNames.
Proof.
  intros Hf. unfold PageTsx.firstPass.
  destruct (NoDup_keys_split fields f Hkeys Hf)
    as (before & after & Hsplit & Hbefore & Hafter).
  assert (Hsub : forall g, In g before -> In g fields).
  { intros g Hg. rewrite Hsplit. apply in_or_app. now left. }
  rewrite Hsplit at 1. rewrite fold_left_app. simpl.
  rewrite (fold_frame _ (key f) (fun st g => pageTsx_exactStep_frame st g (key f)))
    by assumption.
  apply pageTsx_exactStep_at; trivial.
  - apply (fold_left_invariant (cleanedOnly fields)); [apply cleanedOnly_initial|].
    intros st g Hg. apply pageTsx_exactStep_cleanedOnly. now apply Hsub.
  - now rewrite (fold_frame _ (key f) (fun st g => pageTsx_exactStep_frame st g (key f))).
Qed.

(** A field that some column matches after normalization is mapped by the
    first pass of this copy, and keeps its column. *)
Lemma pageTsx_reconcile_cleaned (f : BusinessField) (column : string) :
  In f fields -> In column columnNames -> cleanedMatch f column = true ->
  exists chosen,
    find (cleanedMatch f) columnNames = Some chosen
    /\ Js.get (PageTsx.reconcile fields columnNames) (key f) = Some chosen.
Proof.
  intros Hf Hin Hmatch.
  destruct (find (cleanedMatch f) columnNames) as [chosen|] eqn:Hfind.
  - exists chosen. split; [reflexivity|].
    pose proof (pageTsx_firstPass_at f Hf) as Hfirst. rewrite Hfind in Hfirst.
    unfold PageTsx.reconcile.
    change (PageTsx.similarityStep columnNames)
      with (offerStep PageTsx.findBestMatch columnNames).
    rewrite (fold_frame (offerStep PageTsx.findBestMatch columnNames) (key f)
               (fun st g => offerStep_frame PageTsx.findBestMatch columnNames
                              st g (key f))); [assumption|].
    intros g Hg Heq. unfold PageTsx.sortedFields in Hg.
    apply (Permutation_in _ (Permutation_sym (sortFields_perm _))) in Hg.
    rewrite (unmapped_withoutColumn _ _ _ _ pageTsx_firstPass_accepted) in Hg.
    apply filter_In in Hg as [_ Hnone]. apply withoutColumn_None in Hnone.
    rewrite Heq in Hnone. congruence.
  - pose proof (find_none _ _ Hfind column Hin). congruence.
Qed.

End PageTsxEngine.

Lemma findBestMatch_matcher {R : Type} `{Number R} (fields : list BusinessField)
    (f : BusinessField) (pool : list string) (c : string) :
  separatedCatalog fields = true ->
  In f fields -> findBestMatch f pool = Some c ->
  In c pool /\ c <> "" /\ accepted f c.
Proof.
  intros Hsep Hf Hbest.
  destruct (findBestMatch_sound f pool c Hbest) as [Hin Hacc].
  split; [assumption|]. split; [|assumption].
  destruct Hacc as [Hex | [Hcl | _]].
  - apply (separatedCatalog_forms fields f c Hsep Hf).
    now apply exactMatch_cleanedMatch.
  - now apply (separatedCatalog_forms fields f c Hsep Hf).
  - unfold findBestMatch in Hbest.
    destruct (exactPass f pool) as [c'|] eqn:Hexact.
    + injection Hbest as ->. apply exactPass_sound in Hexact as [_ Hcl].
      now apply (separatedCatalog_forms fields f c Hsep Hf).
    + now apply fuzzyPass_sound in Hbest as (_ & Hne & _).
Qed.

(** ** The threshold in both copies *)

(** C3, the claim as stated fails on [src/app/page.tsx], whose threshold is
    0.3: the header "Quantity" passes no exact test for the field
    [municipalTax] and scores 0.375, below 0.5, and that copy maps the field
    to it; the three-pass copy maps nothing. *)
Lemma fuzzy_threshold_counterexample :
  cleanedMatch municipalTax "Quantity" = false
  /\ (fuzzyScore (R:=Q) municipalTax "Quantity" == 3 # 8)%Q
  /\ nle (R:=Q) threshold (fuzzyScore municipalTax "Quantity") = false
  /\ PageTsx.findBestMatch (R:=Q) municipalTax ["Quantity"] = Some "Quantity"
  /\ PageTsx.autoMapColumns (R:=Q) ["Quantity"] = [("municipalTax", "Quantity")]
  /\ autoMapColumns (R:=Q) ["Quantity"] = [].
Proof. repeat split; vm_compute; reflexivity. Qed.

(** C3, amended. In the three-pass copy the fuzzy pass returns only a column
    of the pool whose fuzzy score reaches the threshold 0.5; when every
    candidate it scores is below the threshold the matcher returns what its
    exact tests return; and a field of the returned mapping holds a column
    that passes the cleaned-exact test or whose fuzzy score reaches 0.5.
    In [src/app/page.tsx] the same holds with the threshold 0.3: the matcher
    returns only a column of the pool whose score reaches 0.3, returns
    nothing when every score is below 0.3, and a field of the returned
    mapping holds a column that passes the cleaned-exact test or whose fuzzy
    score reaches 0.3. *)
Theorem fuzzy_threshold_respected {R : Type} `{Number R} :
  ((threshold (R:=Q) == 1 # 2)%Q
   /\ (forall field pool column,
         fuzzyPass field pool = Some column ->
         In column pool /\ nle threshold (fuzzyScore field column) = true)
   /\ (forall field pool,
         (forall column, In column pool -> unrelated column = false ->
                         nle threshold (fuzzyScore field column) = false) ->
         fuzzyPass field pool = None
         /\ findBestMatch field pool = exactPass field pool)
   /\ (forall fields columnNames k column,
         Js.get (reconcile fields columnNames) k = Some column ->
         exists field, In field fields /\ key field = k
           /\ (cleanedMatch field column = true
               \/ nle threshold (fuzzyScore field column) = true)))
  /\ ((PageTsx.threshold (R:=Q) == 3 # 10)%Q
      /\ (forall field pool column,
            PageTsx.findBestMatch field pool = Some column ->
            In column pool
            /\ nle PageTsx.threshold (PageTsx.score field column) = true)
      /\ (forall field pool,
            (forall column, In column pool ->
                            nle PageTsx.threshold (PageTsx.score field column) = false) ->
            PageTsx.findBestMatch field pool = None)
      /\ (forall fields columnNames k column,
            Js.get (PageTsx.reconcile fields columnNames) k = Some column ->
            exists field, In field fields /\ key field = k
              /\ (cleanedMatch field column = true
                  \/ nle PageTsx.threshold (fuzzyScore field column) = true))).
Proof.
  split; [exact threePass_threshold|].
  split; [reflexivity|]. split; [|split].
  - intros field pool column Hbest.
    apply pageTsx_findBestMatch_threshold in Hbest as (Hin & _ & Hthr). now split.
  - intros field pool. apply pageTsx_findBestMatch_below.
  - intros fields columnNames k column Hget.
    destruct (pageTsx_reconcile_accepted fields columnNames) as [_ _ _ _ Hfields].
    unfold PageTsx.reconcile in Hget.
    destruct (Hfields k column (get_In _ _ _ Hget)) as (field & Hfield & Hkey & Hacc).
    exists field. split; [assumption|]. split; assumption.
Qed.

Lemma fuzzy_threshold_respected_witness :
  (fuzzyPass (R:=Q) stateSubsidy ["Subsidy from state"; "Region"]
     = Some "Subsidy from state"
   /\ nle threshold (fuzzyScore (R:=Q) stateSubsidy "Subsidy from state") = true)
  /\ ((forall column, In column ["Product subsidy"; "Quantity"] ->
                      unrelated column = false ->
                      nle threshold (fuzzyScore (R:=Q) stateSubsidy column) = false)
      /\ fuzzyPass (R:=Q) stateSubsidy ["Product subsidy"; "Quantity"] = None)
  /\ (Js.get (reconcile (R:=Q) BUSINESS_FIELDS ["Insurance"; "INSURANCE"]) "p1Total"
        = Some "INSURANCE"
      /\ exists field, In field BUSINESS_FIELDS /\ key field = "p1Total"
           /\ (cleanedMatch field "INSURANCE" = true
               \/ nle threshold (fuzzyScore (R:=Q) field "INSURANCE") = true))
  /\ (PageTsx.findBestMatch (R:=Q) municipalTax ["Quantity"] = Some "Quantity"
      /\ nle PageTsx.threshold (PageTsx.score (R:=Q) municipalTax "Quantity") = true)
  /\ (Js.get (PageTsx.reconcile (R:=Q) BUSINESS_FIELDS ["Quantity"]) "municipalTax"
        = Some "Quantity"
      /\ exists field, In field BUSINESS_FIELDS /\ key field = "municipalTax"
           /\ (cleanedMatch field "Quantity" = true
               \/ nle PageTsx.threshold (fuzzyScore (R:=Q) field "Quantity") = true)).
Proof.
  pose proof (fuzzy_threshold_respected (R:=Q))
    as ((_ & Hsound & Hbelow & Hengine) & (_ & Hpage & _ & Hpengine)).
  assert (Hpass : fuzzyPass (R:=Q) stateSubsidy ["Subsidy from state"; "Region"]
                  = Some "Subsidy from state") by (vm_compute; reflexivity).
  assert (Hlow : forall column, In column ["Product subsidy"; "Quantity"] ->
                   unrelated column = false ->
                   nle threshold (fuzzyScore (R:=Q) stateSubsidy column) = false).
  { intros column [<- | [<- | []]] Hun;
      [vm_compute in Hun; discriminate Hun | vm_compute; reflexivity]. }
  assert (Hget : Js.get (reconcile (R:=Q) BUSINESS_FIELDS ["Insurance"; "INSURANCE"]) "p1Total"
                 = Some "INSURANCE") by (vm_compute; reflexivity).
  assert (Hbest : PageTsx.findBestMatch (R:=Q) municipalTax ["Quantity"]
                  = Some "Quantity") by (vm_compute; reflexivity).
  assert (Hpget : Js.get (PageTsx.reconcile (R:=Q) BUSINESS_FIELDS ["Quantity"])
                         "municipalTax" = Some "Quantity") by (vm_compute; reflexivity).
  split; [|split; [|split; [|split]]].
  - split; [exact Hpass | exact (proj2 (Hsound _ _ _ Hpass))].
  - split; [exact Hlow | exact (proj1 (Hbelow _ _ Hlow))].
  - split; [exact Hget | exact (Hengine _ _ _ _ Hget)].
  - split; [exact Hbest | exact (proj2 (Hpage _ _ _ Hbest))].
  - split; [exact Hpget | exact (Hpengine _ _ _ _ Hpget)].
Defined.

(** ** The denylist in both copies *)

(** C4, the claim as stated fails on [src/app/page.tsx], which has no
    denylist: the header "Product subsidy" contains the token "product",
    passes no exact test for the field [municipalTax], and that copy maps
    the field to it on its score; the three-pass copy maps nothing. *)
Lemma fuzzy_denylist_counterexample :
  In "product" denylist
  /\ Js.includes (Js.toLowerCase "Product subsidy") "product" = true
  /\ cleanedMatch municipalTax "Product subsidy" = false
  /\ PageTsx.findBestMatch (R:=Q) municipalTax ["Product subsidy"]
     = Some "Product subsidy"
  /\ PageTsx.autoMapColumns (R:=Q) ["Product subsidy"]
     = [("municipalTax", "Product subsidy")]
  /\ autoMapColumns (R:=Q) ["Product subsidy"] = [].
Proof.
  split; [left; reflexivity|]. repeat split; vm_compute; reflexivity.
Qed.

(** C4, amended. In the three-pass copy a column whose lower-cased header
    contains a token of the denylist is never the result of the fuzzy pass,
    whatever its score would be; the matcher returns such a column, and the
    engine assigns it, only when it passes the cleaned-exact test.
    [src/app/page.tsx] has no denylist: its matcher returns the only column
    of a pool whenever the score of that column is positive and reaches
    the threshold 0.3, whatever tokens the header contains. *)
Theorem fuzzy_denylist_excluded {R : Type} `{Number R} :
  ((forall field pool column token,
      In token denylist ->
      Js.includes (Js.toLowerCase column) token = true ->
      fuzzyPass field pool <> Some column)
   /\ (forall field pool column,
         findBestMatch field pool = Some column -> unrelated column = true ->
         cleanedMatch field column = true)
   /\ (forall fields columnNames k column,
         Js.get (reconcile fields columnNames) k = Some column ->
         unrelated column = true ->
         exists field, In field fields /\ key field = k
                       /\ cleanedMatch field column = true))
  /\ (forall field column,
        column <> "" ->
        nlt n0 (PageTsx.score field column) = true ->
        nle PageTsx.threshold (PageTsx.score field column) = true ->
        PageTsx.findBestMatch field [column] = Some column).
Proof.
  split; [exact threePass_denylist|].
  intros field column. apply pageTsx_findBestMatch_single.
Qed.

Lemma fuzzy_denylist_excluded_witness :
  (In "product" denylist
   /\ Js.includes (Js.toLowerCase "Product subsidy") "product" = true
   /\ fuzzyPass (R:=Q) stateSubsidy ["Product subsidy"; "Quantity"]
        <> Some "Product subsidy")
  /\ (findBestMatch (R:=Q) modelCode ["Quantity"; "Model Code"] = Some "Model Code"
      /\ unrelated "Model Code" = true
      /\ cleanedMatch modelCode "Model Code" = true)
  /\ (Js.get (reconcile (R:=Q) [modelCode] ["Quantity"; "Model Code"]) "modelCode"
        = Some "Model Code"
      /\ exists field, In field [modelCode] /\ key field = "modelCode"
                       /\ cleanedMatch field "Model Code" = true)
  /\ ("Product subsidy" <> ""
      /\ unrelated "Product subsidy" = true
      /\ nlt n0 (PageTsx.score (R:=Q) municipalTax "Product subsidy") = true
      /\ nle PageTsx.threshold (PageTsx.score (R:=Q) municipalTax "Product subsidy")
         = true
      /\ PageTsx.findBestMatch (R:=Q) municipalTax ["Product subsidy"]
         = Some "Product subsidy").
Proof.
  pose proof (fuzzy_denylist_excluded (R:=Q)) as ((Hfuzzy & Hmatch & Hengine) & Hpage).
  assert (Hin : In "product" denylist) by (left; reflexivity).
  assert (Hinc : Js.includes (Js.toLowerCase "Product subsidy") "product" = true)
    by (vm_compute; reflexivity).
  assert (Hbest : findBestMatch (R:=Q) modelCode ["Quantity"; "Model Code"]
                  = Some "Model Code") by (vm_compute; reflexivity).
  assert (Hun : unrelated "Model Code" = true) by (vm_compute; reflexivity).
  assert (Hget : Js.get (reconcile (R:=Q) [modelCode] ["Quantity"; "Model Code"])
                        "modelCode" = Some "Model Code") by (vm_compute; reflexivity).
  assert (Hne : "Product subsidy" <> "") by discriminate.
  assert (Hskip : unrelated "Product subsidy" = true) by (vm_compute; reflexivity).
  assert (Hpos : nlt n0 (PageTsx.score (R:=Q) municipalTax "Product subsidy") = true)
    by (vm_compute; reflexivity).
  assert (Hthr : nle PageTsx.threshold
                   (PageTsx.score (R:=Q) municipalTax "Product subsidy") = true)
    by (vm_compute; reflexivity).
  split; [|split; [|split]].
  - exact (conj Hin (conj Hinc (Hfuzzy stateSubsidy _ _ _ Hin Hinc))).
  - exact (conj Hbest (conj Hun (Hmatch _ _ _ Hbest Hun))).
  - exact (conj Hget (Hengine _ _ _ _ Hget Hun)).
  - exact (conj Hne (conj Hskip (conj Hpos (conj Hthr (Hpage _ _ Hne Hpos Hthr))))).
Defined.

(** ** Exact matches come first in both copies *)

Lemma firstCleaned_find (field : BusinessField) (columnNames : list string)
    (chosen : string) :
  find (cleanedMatch field) columnNames = Some chosen ->
  firstCleaned field columnNames chosen.
Proof.
  intros Hfind. apply find_split in Hfind as (before & after & Hsplit & Hmatch & Hbefore).
  exists before, after. split; [assumption|].
  split; [now apply cleanedMatch_forms|].
  intros c Hc Hforms. apply cleanedMatch_forms in Hforms.
  rewrite (Hbefore c Hc) in Hforms. discriminate.
Qed.

Lemma pageTsx_precedence {R : Type} `{Number R} (fields : list BusinessField)
    (columnNames : list string) (field : BusinessField) (column : string) :
  List.NoDup (map key fields) -> separatedCatalog fields = true ->
  In field fields -> In column columnNames ->
  In (normalize column) (cleanedForms field) ->
  (exists chosen,
     firstCleaned field columnNames chosen
     /\ Js.get (PageTsx.reconcile fields columnNames) (key field) = Some chosen)
  /\ ((forall other, In other columnNames ->
                     In (normalize other) (cleanedForms field) -> other = column) ->
      Js.get (PageTsx.reconcile fields columnNames) (key field) = Some column).
Proof.
  intros Hkeys Hsep Hfield Hin Hforms. apply cleanedMatch_forms in Hforms.
  destruct (pageTsx_reconcile_cleaned fields columnNames Hkeys Hsep
              field column Hfield Hin Hforms) as (chosen & Hfind & Hget).
  split.
  - exists chosen. split; [now apply firstCleaned_find | assumption].
  - intros Hunique. rewrite Hget. f_equal.
    apply find_some in Hfind as [Hchosen Hmatch].
    apply Hunique; [assumption | now apply cleanedMatch_forms].
Qed.

(** C2, amended. When the normalized text of some column equals the
    normalized key or the normalized label of a field, both copies map that
    field to one such column, whatever any column scores in the fuzzy pass.
    The three-pass copy maps it to its first choice: the first column, in
    column order, equal to the key or label case-insensitively, and when
    there is none the first column whose normalized text equals the
    normalized key or label.  [src/app/page.tsx] maps it to the first column
    whose normalized text equals the normalized key or label.  Both
    therefore map the field to that very column when no other column of the
    list has such a normalized text. *)
Theorem exact_precedence {R : Type} `{Number R}
    (columnNames : list string) (field : BusinessField) (column : string) :
  In field BUSINESS_FIELDS -> In column columnNames ->
  In (normalize column) (cleanedForms field) ->
  (Js.get (autoMapColumns columnNames) (key field) = firstChoice field columnNames
   /\ (exists chosen,
         firstChoice field columnNames = Some chosen
         /\ In chosen columnNames
         /\ In (normalize chosen) (cleanedForms field))
   /\ ((forall other, In other columnNames ->
                      In (normalize other) (cleanedForms field) -> other = column) ->
       Js.get (autoMapColumns columnNames) (key field) = Some column))
  /\ ((exists chosen,
         firstCleaned field columnNames chosen
         /\ Js.get (PageTsx.autoMapColumns columnNames) (key field) = Some chosen)
      /\ ((forall other, In other columnNames ->
                         In (normalize other) (cleanedForms field) -> other = column) ->
          Js.get (PageTsx.autoMapColumns columnNames) (key field) = Some column)).
Proof.
  intros Hfield Hin Hforms. split.
  - exact (threePass_precedence columnNames field column Hfield Hin Hforms).
  - exact (pageTsx_precedence BUSINESS_FIELDS columnNames field column
             BUSINESS_FIELDS_keys BUSINESS_FIELDS_separated Hfield Hin Hforms).
Qed.

Lemma exact_precedence_witness :
  (In insurance BUSINESS_FIELDS
   /\ In "Insurance" ["In-surance"; "Insurance"]
   /\ In (normalize "Insurance") (cleanedForms insurance)
   /\ Js.get (autoMapColumns (R:=Q) ["In-surance"; "Insurance"]) (key insurance)
      = firstChoice insurance ["In-surance"; "Insurance"]
   /\ firstChoice insurance ["In-surance"; "Insurance"] = Some "Insurance"
   /\ Js.get (PageTsx.autoMapColumns (R:=Q) ["In-surance"; "Insurance"]) (key insurance)
      = Some "In-surance"
   /\ exists chosen,
        firstCleaned insurance ["In-surance"; "Insurance"] chosen
        /\ Js.get (PageTsx.autoMapColumns (R:=Q) ["In-surance"; "Insurance"])
                  (key insurance) = Some chosen)
  /\ (In roadTax BUSINESS_FIELDS
      /\ In "Road Tax %" ["Quantity"; "Road Tax %"]
      /\ In (normalize "Road Tax %") (cleanedForms roadTax)
      /\ (forall other, In other ["Quantity"; "Road Tax %"] ->
                        In (normalize other) (cleanedForms roadTax) ->
                        other = "Road Tax %")
      /\ Js.get (autoMapColumns (R:=Q) ["Quantity"; "Road Tax %"]) (key roadTax)
         = Some "Road Tax %"
      /\ Js.get (PageTsx.autoMapColumns (R:=Q) ["Quantity"; "Road Tax %"]) (key roadTax)
         = Some "Road Tax %").
Proof.
  assert (Hf1 : In insurance BUSINESS_FIELDS) by (vm_compute; tauto).
  assert (Hc1 : In "Insurance" ["In-surance"; "Insurance"])
    by (right; left; reflexivity).
  assert (Hn1 : In (normalize "Insurance") (cleanedForms insurance))
    by (vm_compute; left; reflexivity).
  assert (Hchoice : firstChoice insurance ["In-surance"; "Insurance"] = Some "Insurance")
    by (vm_compute; reflexivity).
  assert (Hpage : Js.get (PageTsx.autoMapColumns (R:=Q) ["In-surance"; "Insurance"])
                         (key insurance) = Some "In-surance")
    by (vm_compute; reflexivity).
  assert (Hf2 : In roadTax BUSINESS_FIELDS) by (vm_compute; tauto).
  assert (Hc2 : In "Road Tax %" ["Quantity"; "Road Tax %"])
    by (right; left; reflexivity).
  assert (Hn2 : In (normalize "Road Tax %") (cleanedForms roadTax))
    by (vm_compute; left; reflexivity).
  assert (Hu2 : forall other, In other ["Quantity"; "Road Tax %"] ->
                  In (normalize other) (cleanedForms roadTax) ->
                  other = "Road Tax %").
  { intros other [<- | [<- | []]] Hother; [|reflexivity].
    vm_compute in Hother. destruct Hother as [Heq | [Heq | []]]; discriminate Heq. }
  pose proof (exact_precedence (R:=Q) _ insurance "Insurance" Hf1 Hc1 Hn1)
    as ((Hthree1 & _ & _) & (Hpage1 & _)).
  pose proof (exact_precedence (R:=Q) _ roadTax "Road Tax %" Hf2 Hc2 Hn2)
    as ((_ & _ & Hthree2) & (_ & Hpage2)).
  split.
  - exact (conj Hf1 (conj Hc1 (conj Hn1 (conj Hthree1 (conj Hchoice
             (conj Hpage Hpage1)))))).
  - exact (conj Hf2 (conj Hc2 (conj Hn2 (conj Hu2 (conj (Hthree2 Hu2) (Hpage2 Hu2)))))).
Defined.

(** ** The order of the fuzzy pass in both copies *)

Lemma tokenCount_catalog (f : BusinessField) :
  In f BUSINESS_FIELDS -> specificity f = tokenCount f.
Proof. exact (proj1 (List.Forall_forall _ _) specificity_tokenCount f). Qed.

(** C9. In one run of [autoMapColumns], in either copy, the fuzzy pass
    visits exactly the fields of the catalog that hold no column after the
    passes before it, each once, arranged so that a field never comes after
    one whose label has fewer white-space separated tokens (fields with
    equally many tokens keep their catalog order).  The field visited after
    the fields [before] gets what the matcher of the copy returns on the
    columns that no field holds once the fields [before] have been served,
    and what those fields hold then is what they hold in the result. *)
Theorem thirdPass_order {R : Type} `{Number R} (columnNames : list string) :
  (let start := secondPass BUSINESS_FIELDS columnNames in
   let visited := sortedFields BUSINESS_FIELDS columnNames in
   Permutation visited (List.filter (withoutColumn start) BUSINESS_FIELDS)
   /\ StronglySorted (fun a b => tokenCount b <= tokenCount a) visited
   /\ (forall n,
         List.filter (fun f => tokenCount f =? n) visited
         = List.filter (fun f => tokenCount f =? n)
                       (List.filter (withoutColumn start) BUSINESS_FIELDS))
   /\ (forall before field after,
         visited = before ++ field :: after ->
         Js.get (autoMapColumns columnNames) (key field)
         = findBestMatch field
             (unclaimed (fold_left (similarityStep columnNames) before start)
                        columnNames)
         /\ forall earlier, In earlier before ->
              Js.get (mappings (fold_left (similarityStep columnNames) before start))
                     (key earlier)
              = Js.get (autoMapColumns columnNames) (key earlier)))
  /\ (let start := PageTsx.firstPass BUSINESS_FIELDS columnNames in
      let visited := PageTsx.sortedFields BUSINESS_FIELDS columnNames in
      Permutation visited (List.filter (withoutColumn start) BUSINESS_FIELDS)
      /\ StronglySorted (fun a b => tokenCount b <= tokenCount a) visited
      /\ (forall n,
            List.filter (fun f => tokenCount f =? n) visited
            = List.filter (fun f => tokenCount f =? n)
                          (List.filter (withoutColumn start) BUSINESS_FIELDS))
      /\ (forall before field after,
            visited = before ++ field :: after ->
            Js.get (PageTsx.autoMapColumns columnNames) (key field)
            = PageTsx.findBestMatch field
                (unclaimed (fold_left (PageTsx.similarityStep columnNames) before start)
                           columnNames)
            /\ forall earlier, In earlier before ->
                 Js.get (mappings (fold_left (PageTsx.similarityStep columnNames)
                                             before start))
                        (key earlier)
                 = Js.get (PageTsx.autoMapColumns columnNames) (key earlier))).
Proof.
  split.
  - exact (pass_order accepted findBestMatch BUSINESS_FIELDS columnNames
             (fun f pool c => findBestMatch_matcher BUSINESS_FIELDS f pool c
                                BUSINESS_FIELDS_separated)
             BUSINESS_FIELDS_keys tokenCount_catalog
             (secondPass BUSINESS_FIELDS columnNames)
             (secondPass_wellFormed BUSINESS_FIELDS columnNames)
             (secondPass_usedAreMapped BUSINESS_FIELDS columnNames BUSINESS_FIELDS_keys)).
  - exact (pass_order pageAccepted PageTsx.findBestMatch BUSINESS_FIELDS columnNames
             (pageTsx_matcher BUSINESS_FIELDS)
             BUSINESS_FIELDS_keys tokenCount_catalog
             (PageTsx.firstPass BUSINESS_FIELDS columnNames)
             (pageTsx_firstPass_accepted BUSINESS_FIELDS columnNames)
             (pageTsx_firstPass_usedAreMapped BUSINESS_FIELDS columnNames
                BUSINESS_FIELDS_keys)).
Qed.

Lemma thirdPass_order_witness :
  sortedFields BUSINESS_FIELDS ["Road Tax"; "Tax on road"]
  = [municipalTax] ++ p1Total
    :: skipn 2 (sortedFields BUSINESS_FIELDS ["Road Tax"; "Tax on road"])
  /\ Js.get (autoMapColumns (R:=Q) ["Road Tax"; "Tax on road"]) (key p1Total)
     = findBestMatch (R:=Q) p1Total
         (unclaimed
            (fold_left (similarityStep (R:=Q) ["Road Tax"; "Tax on road"])
               [municipalTax]
               (secondPass BUSINESS_FIELDS ["Road Tax"; "Tax on road"]))
            ["Road Tax"; "Tax on road"]).
Proof.
  assert (Hsplit : sortedFields BUSINESS_FIELDS ["Road Tax"; "Tax on road"]
            = [municipalTax] ++ p1Total
              :: skipn 2 (sortedFields BUSINESS_FIELDS ["Road Tax"; "Tax on road"]))
    by (vm_compute; reflexivity).
  exact (conj Hsplit
           (proj1 (proj2 (proj2 (proj2 (proj1
              (thirdPass_order (R:=Q) ["Road Tax"; "Tax on road"]))))
                 [municipalTax] p1Total _ Hsplit))).
Defined.
